(** * advancedReport_server: replication bridge, shallow embedding

    The development follows the server source file by file:
    - [Js]          the fragment of JavaScript values, truthiness and plain
                    objects that the handlers rely on;
    - [License]     services/licenseService.js (tenant lookup, license check);
    - [JsString], [Regex], [Base64]
                    the string methods, the regular-expression matcher and
                    the base64 reader of the runtime, as far as the source
                    uses them;
    - [Ddl], [Xml], [Dispatcher], [Server]
                    app.js: the DDL translator, the XML decoder, the row-op
                    dispatcher and the socket handlers;
    - [SyncService], [CsvMapping]
                    services/syncService.js: the legacy row operations and
                    the column mappings of the CSV import;
    - [Store], [Policy], [Wire]
                    what the statements are compared with: a model of the
                    target store, and the key policy and the wire grammar as
                    the specification words them.
    - [Effect], [Schema], [Maintenance], [FullSync]
                    the handlers that await the store between their steps:
                    createTableWithSchema of services/syncService.js and the
                    maintenance and full-sync handlers of app.js, run over a
                    log of calls, events and timers;
    - [UpdateRoutes]
                    routes/updateRoutes.js: the basicAuth middleware;
    - [Legacy]      services/syncService.js: processSyncData;
    - [Decoded], [Chars], [Fixture]
                    predicates that the properties are stated with, and a
                    store for the examples.

    The properties come second, from [LicenseFacts] on. *)

From Stdlib Require Import ZArith Lia Bool List Ascii String DecimalString.
From stdpp Require Import base option list gmap strings fin_maps.

Import ListNotations.
#[local] Set Warnings "-register-all".
Local Open Scope string_scope.
Local Open Scope list_scope.

(** ** JavaScript values *)

Module Js.

(** The handlers inspect primitives (strings coming from the wire, numbers,
    of which the integral ones are all the dispatcher needs, booleans, [null]
    and [undefined]) and plain objects.  An object is the list of its own
    enumerable string-keyed properties in the order [Object.keys] lists them;
    its keys are pairwise distinct. *)
Inductive value : Type :=
| Undefined
| Null
| Bool (b : bool)
| Num (z : Z)
| Str (s : string)
| Obj (props : list (string * value)).

Definition object := list (string * value).

(** [ToBoolean]: what [if (v)], [!v] and [a || b] test. *)
Definition truthy (v : value) : bool :=
  match v with
  | Undefined | Null => false
  | Bool b => b
  | Num z => negb (z =? 0)%Z
  | Str s => negb (String.eqb s EmptyString)
  | Obj _ => true
  end.

(** [a || b] *)
Definition or (a b : value) : value := if truthy a then a else b.

(** [String(v)], the text a template literal interpolates. *)
Definition text (v : value) : string :=
  match v with
  | Undefined => "undefined"
  | Null => "null"
  | Bool true => "true"
  | Bool false => "false"
  | Num z => NilZero.string_of_int (Z.to_int z)
  | Str s => s
  | Obj _ => "[object Object]"
  end.

Fixpoint get_own (o : object) (k : string) : option value :=
  match o with
  | [] => None
  | (k', v) :: o' => if String.eqb k' k then Some v else get_own o' k
  end.

(** [k in o] for a plain object without inherited data properties. *)
Definition has (o : object) (k : string) : bool :=
  match get_own o k with Some _ => true | None => false end.

(** [o.k] / [o[k]]: [undefined] when the property is missing. *)
Definition get (o : object) (k : string) : value :=
  match get_own o k with Some v => v | None => Undefined end.

(** [v.k] on a value already known to be truthy: primitives have none of the
    properties the handlers ask for. *)
Definition prop (v : value) (k : string) : value :=
  match v with
  | Obj o => get o k
  | _ => Undefined
  end.

(** [Object.keys(o)], [Object.values(o)] *)
Definition keys (o : object) : list string := map fst o.
Definition values (o : object) : list value := map snd o.

(** Array-index keys ("0", "1", ... below 2^32 - 1, no leading zero) are
    enumerated before the other keys, in numeric order. *)
Fixpoint digits_value (acc : N) (s : string) : option N :=
  match s with
  | EmptyString => Some acc
  | String c s' =>
      let n := nat_of_ascii c in
      if ((48 <=? n) && (n <=? 57))%nat
      then digits_value (acc * 10 + N.of_nat (n - 48)) s'
      else None
  end.

Definition array_index (k : string) : option N :=
  match k with
  | EmptyString => None
  | String "0" EmptyString => Some 0%N
  | String "0" _ => None
  | _ =>
      if (String.length k <=? 10)%nat then
        match digits_value 0 k with
        | Some n => if (n <? 4294967295)%N then Some n else None
        | None => None
        end
      else None
  end.

Fixpoint replace_own (o : object) (k : string) (v : value) : object :=
  match o with
  | [] => []
  | (k', v') :: o' =>
      if String.eqb k' k then (k, v) :: o' else (k', v') :: replace_own o' k v
  end.

Fixpoint insert_index (n : N) (k : string) (v : value) (o : object)
    : object :=
  match o with
  | [] => [(k, v)]
  | (k', v') :: o' =>
      match array_index k' with
      | Some m =>
          if (n <? m)%N then (k, v) :: o
          else (k', v') :: insert_index n k v o'
      | None => (k, v) :: o
      end
  end.

(** [o[k] = v] for a primitive [v]: an existing property keeps its place, a
    new array-index key is sorted in, any other new key goes last, and an
    assignment to [__proto__] is ignored. *)
Definition set (o : object) (k : string) (v : value) : object :=
  if String.eqb k "__proto__" then o
  else if has o k then replace_own o k v
  else match array_index k with
       | Some n => insert_index n k v o
       | None => o ++ [(k, v)]
       end.

End Js.

(** ** services/licenseService.js *)

Module License.

Local Open Scope Z_scope.

(** A row of the [stores] table as the driver returns it; the DATETIME column
    is held as milliseconds since the epoch, which is what [new Date(col)]
    keeps of it. *)
Record store_row : Type := {
  StoreId : string;
  AdvancedReportAppId : string;
  AdvancedReportLicenseExpire : Z;
  StoreName : string
}.

(** Outcome of [connectionPool.execute]: the rows, or a thrown error. *)
Inductive query_result : Type :=
| Rows (rows : list store_row)
| Throws (message : string).

(** What the service sees of the outside world: whether the pool already
    exists, whether [initialize()] would succeed, and the answer of
    [SELECT ... FROM stores WHERE StoreId = ? AND AdvancedReportAppId = ?]
    for the two bind parameters, which the service passes on as it got them. *)
Record env : Type := {
  pool_ready : bool;
  init_ok : bool;
  select_store : Js.value -> Js.value -> query_result
}.

Record store_info : Type := {
  storeId : string;
  storeName : string;
  appId : string;
  expireDate : Z;
  daysRemaining : Z
}.

Record validation : Type := {
  isValid : bool;
  isExpired : bool;
  error : option string;
  storeInfo : option store_info
}.

Definition ms_per_day : Z := 1000 * 60 * 60 * 24.

(** [Math.ceil(a / b)] for integral [a] and positive [b]. *)
Definition ceil_div (a b : Z) : Z := - ((- a) / b).

(** [validateAdvancedReportLicense(storeId, appId)]; [now] is the value of
    [new Date()] read inside the call. *)
Definition validateAdvancedReportLicense
    (e : env) (now : Z) (sid aid : Js.value) : validation :=
  if negb (pool_ready e) && negb (init_ok e) then
    {| isValid := false; isExpired := true;
       error := Some "Database connection failed"; storeInfo := None |}
  else
    match select_store e sid aid with
    | Throws msg =>
        {| isValid := false; isExpired := true;
           error := Some msg; storeInfo := None |}
    | Rows [] =>
        {| isValid := false; isExpired := true;
           error := Some "Store not found or invalid AppId";
           storeInfo := None |}
    | Rows (store :: _) =>
        let expire := AdvancedReportLicenseExpire store in
        let expired := expire <=? now in
        {| isValid := negb expired; isExpired := expired;
           error := None;
           storeInfo := Some
             {| storeId := StoreId store;
                storeName := StoreName store;
                appId := AdvancedReportAppId store;
                expireDate := expire;
                daysRemaining :=
                  if expired then 0
                  else ceil_div (expire - now) ms_per_day |} |}
    end.

(** [getDatabaseByStoreAndApp(storeId, appId)]: the physical database is the
    appId itself when the pair exists; every failure yields [null]. *)
Definition getDatabaseByStoreAndApp (e : env) (sid aid : Js.value)
    : option Js.value :=
  if negb (pool_ready e) then None
  else match select_store e sid aid with
       | Rows (_ :: _) => Some aid
       | _ => None
       end.

End License.

(** ** String primitives of the JavaScript runtime (ASCII fragment) *)

Module JsString.

Definition chars := list ascii.

Definition of_string : string -> chars := list_ascii_of_string.
Definition to_string : chars -> string := string_of_list_ascii.

Definition is_upper (c : ascii) : bool :=
  let n := nat_of_ascii c in (65 <=? n)%nat && (n <=? 90)%nat.
Definition is_lower (c : ascii) : bool :=
  let n := nat_of_ascii c in (97 <=? n)%nat && (n <=? 122)%nat.
Definition is_digit (c : ascii) : bool :=
  let n := nat_of_ascii c in (48 <=? n)%nat && (n <=? 57)%nat.

Definition to_upper (c : ascii) : ascii :=
  if is_lower c then ascii_of_nat (nat_of_ascii c - 32) else c.
Definition to_lower (c : ascii) : ascii :=
  if is_upper c then ascii_of_nat (nat_of_ascii c + 32) else c.

(** White space and line terminators of the ASCII range: what [\s] matches
    and what [trim()] strips (TAB, LF, VT, FF, CR, SPACE). *)
Definition is_space (c : ascii) : bool :=
  let n := nat_of_ascii c in
  ((9 <=? n)%nat && (n <=? 13)%nat) || (n =? 32)%nat.

Definition ascii_eqb_ci (a b : ascii) : bool :=
  Ascii.eqb (to_upper a) (to_upper b).

Fixpoint drop_spaces (s : chars) : chars :=
  match s with
  | c :: s' => if is_space c then drop_spaces s' else s
  | [] => []
  end.

(** [s.trim()] *)
Definition trim_chars (s : chars) : chars :=
  rev (drop_spaces (rev (drop_spaces s))).
Definition trim (s : string) : string :=
  to_string (trim_chars (of_string s)).

(** [s.toUpperCase()] *)
Definition toUpperCase (s : string) : string :=
  to_string (map to_upper (of_string s)).

Fixpoint starts_with (p s : chars) : bool :=
  match p, s with
  | [], _ => true
  | a :: p', b :: s' => Ascii.eqb a b && starts_with p' s'
  | _ :: _, [] => false
  end.

(** [s.startsWith(p)] *)
Definition startsWith (s p : string) : bool :=
  starts_with (of_string p) (of_string s).

Fixpoint includes_chars (p s : chars) : bool :=
  starts_with p s ||
  match s with
  | [] => false
  | _ :: s' => includes_chars p s'
  end.

(** [s.includes(p)] *)
Definition includes (s p : string) : bool :=
  includes_chars (of_string p) (of_string s).

(** [parts.join(sep)] *)
Fixpoint join (sep : string) (parts : list string) : string :=
  match parts with
  | [] => EmptyString
  | [p] => p
  | p :: ps => p ++ sep ++ join sep ps
  end.

End JsString.

(** ** Regular expressions, as the engine of the runtime matches them

    A backtracking matcher in continuation-passing style: alternatives are
    tried in priority order (a greedy quantifier first tries one more
    iteration, a lazy one first tries to stop), and the first overall success
    is the match.  An iteration of a quantifier that consumes nothing is
    rejected, as in ECMAScript. *)

Module Regex.

Import JsString.

Inductive class_item : Type :=
| CChar (c : ascii)
| CRange (lo hi : ascii)
| CDigit
| CSpace.

Inductive re : Type :=
| Eps
| Lit (c : ascii)
| Cls (negated : bool) (items : list class_item)
| Seq (a b : re)
| Alt (a b : re)
| Star (greedy : bool) (a : re)
| Group (i : nat) (a : re)
| Backref (i : nat)
| Eos.

Definition Plus (a : re) : re := Seq a (Star true a).
Definition seqs (l : list re) : re := fold_right Seq Eps l.
Definition lits (s : string) : re := seqs (map Lit (of_string s)).
(** [.] under the [s] flag *)
Definition AnyChar : re := Cls true [].
(** [\s], [\d], [[^c]] *)
Definition Space : re := Cls false [CSpace].
Definition Digit : re := Cls false [CDigit].
Definition NotChar (c : ascii) : re := Cls true [CChar c].

Definition captures := list (nat * chars).

Fixpoint capture (cs : captures) (i : nat) : option chars :=
  match cs with
  | [] => None
  | (j, t) :: cs' => if Nat.eqb j i then Some t else capture cs' i
  end.

Definition in_range (lo hi c : ascii) : bool :=
  (nat_of_ascii lo <=? nat_of_ascii c)%nat
  && (nat_of_ascii c <=? nat_of_ascii hi)%nat.

Definition item_matches (ci : bool) (c : ascii) (it : class_item) : bool :=
  match it with
  | CChar d => if ci then ascii_eqb_ci d c else Ascii.eqb d c
  | CRange lo hi =>
      in_range lo hi c
      || (ci && (in_range lo hi (to_upper c) || in_range lo hi (to_lower c)))
  | CDigit => is_digit c
  | CSpace => is_space c
  end.

Definition class_matches (ci negated : bool) (items : list class_item)
    (c : ascii) : bool :=
  xorb negated (existsb (item_matches ci c) items).

Fixpoint strip_prefix (ci : bool) (p s : chars) : option chars :=
  match p, s with
  | [], _ => Some s
  | a :: p', b :: s' =>
      if (if ci then ascii_eqb_ci a b else Ascii.eqb a b)
      then strip_prefix ci p' s' else None
  | _ :: _, [] => None
  end.

Section Matcher.
Context {R : Type}.
(** [ci] is the [i] flag. *)
Variable ci : bool.

Definition cont := chars -> captures -> option R.

(** The loop of a quantifier over the matcher [step] of its body: at most
    [n] further iterations, each of which has to consume something. *)
Fixpoint star_loop (greedy : bool)
    (step : chars -> captures -> cont -> option R) (k : cont)
    (n : nat) (s : chars) (cs : captures) : option R :=
  match n with
  | O => k s cs
  | S n' =>
      let again :=
        step s cs (fun s' cs' =>
          if (length s' <? length s)%nat
          then star_loop greedy step k n' s' cs' else None) in
      if greedy then
        match again with
        | Some x => Some x
        | None => k s cs
        end
      else
        match k s cs with
        | Some x => Some x
        | None => again
        end
  end.

Fixpoint run (r : re) : chars -> captures -> cont -> option R :=
  match r with
  | Eps => fun s cs k => k s cs
  | Lit c => fun s cs k =>
      match s with
      | d :: s' =>
          if (if ci then ascii_eqb_ci c d else Ascii.eqb c d)
          then k s' cs else None
      | [] => None
      end
  | Cls negated items => fun s cs k =>
      match s with
      | d :: s' => if class_matches ci negated items d then k s' cs else None
      | [] => None
      end
  | Seq a b => fun s cs k =>
      run a s cs (fun s' cs' => run b s' cs' k)
  | Alt a b => fun s cs k =>
      match run a s cs k with
      | Some x => Some x
      | None => run b s cs k
      end
  | Star greedy a => fun s cs k =>
      star_loop greedy (run a) k (length s) s cs
  | Group i a => fun s cs k =>
      run a s cs (fun s' cs' =>
        k s' ((i, firstn (length s - length s') s) :: cs'))
  | Backref i => fun s cs k =>
      match capture cs i with
      | None => k s cs
      | Some t =>
          match strip_prefix ci t s with
          | Some s' => k s' cs
          | None => None
          end
      end
  | Eos => fun s cs k =>
      match s with
      | [] => k s cs
      | _ :: _ => None
      end
  end.
End Matcher.

(** A match anchored at the head of [s]: the captures and what follows the
    matched text. *)
Definition match_here (ci : bool) (r : re) (s : chars)
    : option (captures * chars) :=
  run ci r s [] (fun s' cs => Some (cs, s')).

(** Leftmost match at or after the head of [s]: the text skipped before the
    match, the captures, and the rest. *)
Fixpoint search (ci : bool) (r : re) (s : chars)
    : option (chars * captures * chars) :=
  match match_here ci r s with
  | Some (cs, rest) => Some ([], cs, rest)
  | None =>
      match s with
      | [] => None
      | c :: s' =>
          match search ci r s' with
          | Some (skipped, cs, rest) => Some (c :: skipped, cs, rest)
          | None => None
          end
      end
  end.

(** Replacement templates: literal text and [$n] references. *)
Inductive piece : Type :=
| PText (t : string)
| PGroup (i : nat).

Definition expand (tpl : list piece) (cs : captures) : chars :=
  flat_map (fun p =>
    match p with
    | PText t => of_string t
    | PGroup i => match capture cs i with Some t => t | None => [] end
    end) tpl.

(** [s.replace(/r/g, tpl)]: every non-overlapping match, left to right.  The
    counter bounds the number of matches by the length of the text. *)
Fixpoint replace_from (n : nat) (ci : bool) (r : re) (tpl : list piece)
    (s : chars) : chars :=
  match n with
  | O => s
  | S n' =>
      match search ci r s with
      | None => s
      | Some (skipped, cs, rest) =>
          if (length rest <? length s - length skipped)%nat then
            skipped ++ expand tpl cs ++ replace_from n' ci r tpl rest
          else
            (* empty match: substitute, then step over one character *)
            match rest with
            | [] => skipped ++ expand tpl cs
            | c :: rest' =>
                skipped ++ expand tpl cs ++ c
                  :: replace_from n' ci r tpl rest'
            end
      end
  end.

Definition replace_all (ci : bool) (r : re) (tpl : list piece) (s : string)
    : string :=
  to_string (replace_from (S (String.length s)) ci r tpl (of_string s)).

(** The [while ((match = re.exec(s)) !== null)] loop of a global regex: the
    captures of every successive match. *)
Fixpoint exec_all (n : nat) (ci : bool) (r : re) (s : chars)
    : list captures :=
  match n with
  | O => []
  | S n' =>
      match search ci r s with
      | None => []
      | Some (skipped, cs, rest) =>
          if (length rest <? length s - length skipped)%nat then
            cs :: exec_all n' ci r rest
          else []
      end
  end.

End Regex.

(** ** app.js: convertSqlServerDDLToMySQL *)

Module Ddl.

Import JsString Regex.

Definition re_dbo_prefix : re := lits "[dbo].".
Definition re_bracketed_nvarchar : re :=
  seqs [lits "[NVARCHAR]("; Group 1 (Plus Digit); Lit ")"].
Definition re_nvarchar_max : re := lits "NVARCHAR(MAX)".
Definition re_nvarchar_n : re :=
  seqs [lits "NVARCHAR("; Group 1 (Plus Digit); Lit ")"].
Definition re_bigint_identity : re :=
  seqs [lits "BIGINT"; Plus Space; lits "IDENTITY(1,1)"].
Definition re_int_identity : re :=
  seqs [lits "INT"; Plus Space; lits "IDENTITY(1,1)"].

(** The chain of data-type rewrites that opens the [DDL_ALTER_TABLE] branch;
    every pattern carries the flags [gi]. *)
Definition data_type_rewrites (sqlCommand : string) : string :=
  let s := replace_all true re_dbo_prefix [] sqlCommand in
  let s := replace_all true re_bracketed_nvarchar
             [PText "VARCHAR("; PGroup 1; PText ")"] s in
  let s := replace_all true re_nvarchar_max [PText "TEXT"] s in
  let s := replace_all true re_nvarchar_n
             [PText "VARCHAR("; PGroup 1; PText ")"] s in
  let s := replace_all true (lits "NTEXT") [PText "TEXT"] s in
  let s := replace_all true (lits "BIT") [PText "BOOLEAN"] s in
  let s := replace_all true (lits "DATETIME2") [PText "DATETIME"] s in
  let s := replace_all true (lits "UNIQUEIDENTIFIER") [PText "VARCHAR(36)"] s in
  let s := replace_all true re_bigint_identity
             [PText "BIGINT AUTO_INCREMENT"] s in
  let s := replace_all true re_int_identity [PText "INT AUTO_INCREMENT"] s in
  let s := replace_all true (lits "GETDATE()") [PText "NOW()"] s in
  replace_all true (lits "NEWID()") [PText "UUID()"] s.

(** [Add\s+\[([^\]]+)\]\s+([A-Z]+)], the head shared by the four ADD
    patterns. *)
Definition add_head : list re :=
  [lits "Add"; Plus Space; Lit "[";
   Group 1 (Plus (NotChar "]")); Lit "]"; Plus Space;
   Group 2 (Plus (Cls false [CRange "A" "Z"]))].

Definition null_or_not_null (i : nat) : re :=
  Group i (Alt (lits "NULL") (lits "NOT NULL")).

Definition re_add_1 : re :=
  seqs (add_head ++ [Lit "("; Group 3 (Plus Digit); Lit ")";
                     Plus Space; null_or_not_null 4]).
Definition re_add_2 : re :=
  seqs (add_head ++ [Lit "("; Group 3 (Plus Digit); Lit ")"]).
Definition re_add_3 : re :=
  seqs (add_head ++ [Plus Space; null_or_not_null 3]).
Definition re_add_4 : re := seqs add_head.

Definition charset : string :=
  " CHARACTER SET utf8mb4 COLLATE utf8mb4_0900_ai_ci".

Definition tpl_add_1 : list piece :=
  [PText "ADD COLUMN `"; PGroup 1; PText "` "; PGroup 2; PText "(";
   PGroup 3; PText ")"; PText charset; PText " "; PGroup 4].
Definition tpl_add_2 : list piece :=
  [PText "ADD COLUMN `"; PGroup 1; PText "` "; PGroup 2; PText "(";
   PGroup 3; PText ")"; PText charset].
Definition tpl_add_3 : list piece :=
  [PText "ADD COLUMN `"; PGroup 1; PText "` "; PGroup 2;
   PText charset; PText " "; PGroup 3].
Definition tpl_add_4 : list piece :=
  [PText "ADD COLUMN `"; PGroup 1; PText "` "; PGroup 2; PText charset].

(** The four ADD patterns in order; the first one that changes the text
    decides, and the text is returned unchanged when none does. *)
Fixpoint first_rewrite (rules : list (re * list piece)) (s : string)
    : string :=
  match rules with
  | [] => s
  | (r, tpl) :: rules' =>
      let s' := replace_all true r tpl s in
      if String.eqb s s' then first_rewrite rules' s' else s'
  end.

Definition re_drop_bracketed : re :=
  seqs [lits "DROP"; Plus Space; Lit "[";
        Group 1 (Plus (NotChar "]")); Lit "]"].
Definition re_drop_column : re :=
  seqs [lits "DROP"; Plus Space; lits "COLUMN"; Plus Space;
        Group 1 (Plus (Cls true [CSpace]))].
Definition tpl_drop : list piece :=
  [PText "DROP COLUMN `"; PGroup 1; PText "`"].

(** [\[([^\]]+)\]] with the flag [g] only. *)
Definition re_bracketed : re :=
  seqs [Lit "["; Group 1 (Plus (NotChar "]")); Lit "]"].

Definition basic_conversion (sqlCommand : string) : string :=
  replace_all false re_bracketed [PText "`"; PGroup 1; PText "`"]
    (replace_all true re_dbo_prefix [] sqlCommand).

(** [convertSqlServerDDLToMySQL(sqlCommand, tableName, operation)]; [None] is
    the [null] that makes the caller skip the statement.  [tableName] is not
    read by the function. *)
Definition convertSqlServerDDLToMySQL
    (sqlCommand : Js.value) (tableName operation : string) : option string :=
  match sqlCommand with
  | Js.Str cmd =>
      if String.eqb cmd EmptyString then None
      else
        let upperSql := trim (toUpperCase cmd) in
        if String.eqb operation "DDL_ALTER_TABLE" then
          let mysqlDDL := data_type_rewrites cmd in
          if includes upperSql "ADD COLUMN" || includes upperSql "ADD " then
            Some (first_rewrite
                    [(re_add_1, tpl_add_1); (re_add_2, tpl_add_2);
                     (re_add_3, tpl_add_3); (re_add_4, tpl_add_4)] mysqlDDL)
          else if includes upperSql "DROP COLUMN" then
            let s := replace_all true (lits "dbo.") [] mysqlDDL in
            let s := replace_all true re_drop_bracketed tpl_drop s in
            Some (replace_all true re_drop_column tpl_drop s)
          else if includes upperSql "MODIFY"
                  || includes upperSql "ALTER COLUMN" then
            Some (replace_all true (lits "ALTER COLUMN")
                    [PText "MODIFY COLUMN"] mysqlDDL)
          else if includes upperSql "SET (LOCK_ESCALATION"
                  || includes upperSql "SET (LOCK ESCALATION" then
            None
          else Some mysqlDDL
        else if String.eqb operation "DDL_DROP_TABLE" then
          Some (basic_conversion cmd)
        else Some (basic_conversion cmd)
  | _ => None
  end.

End Ddl.


(** ** app.js: parseXMLToObject *)

Module Xml.

Import JsString Regex.

(** The tag pattern of the three scanning loops: an opening tag (group 1,
    one or more characters other than '>'), a value (group 2, any run of
    characters other than '<'), and the closing tag spelt with a back
    reference to group 1; flag [g]. *)
Definition tagRegex : re :=
  seqs [Lit "<"; Group 1 (Plus (NotChar ">")); Lit ">";
        Group 2 (Star true (NotChar "<"));
        Lit "<"; Lit "/"; Backref 1; Lit ">"].

(** The envelope patterns for [new] and [old]: the tag, a lazy run of any
    characters (flag [s]) as group 1, and the closing tag. *)
Definition envelope (name : string) : re :=
  seqs [lits ("<" ++ name ++ ">"); Group 1 (Star false AnyChar);
        lits ("</" ++ name ++ ">")].

Definition group_text (cs : captures) (i : nat) : chars :=
  match capture cs i with Some t => t | None => [] end.

(** One turn of the [while] loop: [result[prefix + tagName] = tagValue] when
    the trimmed value is not empty. *)
Definition store_pair (prefix : string) (result : Js.object) (cs : captures)
    : Js.object :=
  let tagName := to_string (group_text cs 1) in
  let tagValue := trim (to_string (group_text cs 2)) in
  if negb (String.eqb tagValue EmptyString)
  then Js.set result (prefix ++ tagName) (Js.Str tagValue)
  else result.

Definition scan_pairs (prefix : string) (text : chars) (result : Js.object)
    : Js.object :=
  fold_left (store_pair prefix)
            (exec_all (S (length text)) false tagRegex text) result.

(** [text.match(envelope)]: the first capture of the leftmost match. *)
Definition envelope_body (name : string) (xml : chars) : option chars :=
  match search false (envelope name) xml with
  | Some (_, cs, _) => Some (group_text cs 1)
  | None => None
  end.

(** [parseXMLToObject(xmlString)] *)
Definition parseXMLToObject (xmlString : string) : Js.object :=
  let xml := of_string xmlString in
  if includes xmlString "<new>" && includes xmlString "<old>" then
    let result :=
      match envelope_body "new" xml with
      | Some newData => scan_pairs EmptyString newData []
      | None => []
      end in
    match envelope_body "old" xml with
    | Some oldData => scan_pairs "old_" oldData result
    | None => result
    end
  else scan_pairs EmptyString xml [].

End Xml.


(** ** Thrown errors *)

Inductive outcome (A : Type) : Type :=
| Ok (a : A)
| Thrown (message : string).
Arguments Ok {A} a.
Arguments Thrown {A} message.

(** A parameterised statement as handed to [dbManager.executeQuery]. *)
Record statement : Type := {
  sql : string;
  params : list Js.value
}.

(** ** app.js: executeAdvancedSyncOperation *)

Module Dispatcher.

Import JsString.

(** [`\`${key}\` = ?`] *)
Definition assign (key : string) : string := "`" ++ key ++ "` = ?".
(** [`\`${key}\``] *)
Definition quoted (key : string) : string := "`" ++ key ++ "`".
(** [`\`${key}\` = VALUES(\`${key}\`)`] *)
Definition assign_values (key : string) : string :=
  "`" ++ key ++ "` = VALUES(`" ++ key ++ "`)".

(** [!('Col' in parsedData) && !('old_Col' in parsedData)] *)
Definition lacks_both (parsedData : Js.object) (col : string) : bool :=
  negb (Js.has parsedData col) && negb (Js.has parsedData ("old_" ++ col)).

(** [parsedData.old_Col || parsedData.Col] *)
Definition old_or_new (parsedData : Js.object) (col : string) : Js.value :=
  Js.or (Js.get parsedData ("old_" ++ col)) (Js.get parsedData col).

Definition where_spec : Type := list string * list Js.value.

(** One required column of an UPDATE: the check, then the rest. *)
Definition require_update (parsedData : Js.object) (col table_label : string)
    (rest : outcome where_spec) : outcome where_spec :=
  if lacks_both parsedData col
  then Thrown ("No " ++ col ++ " or old_" ++ col
               ++ " found for UPDATE operation on " ++ table_label)
  else rest.

(** The [if]/[else if] chain of [case 'UPDATE'] that fills [whereFields] and
    [whereValues]. *)
Definition update_where (tableName businessType : string)
    (parsedData : Js.object) : outcome where_spec :=
  let pd := parsedData in
  if String.eqb tableName "SalesDetail" then
    if String.eqb businessType "hospitality" then
      require_update pd "OrderNo" "SalesDetail (Hospitality)"
        (require_update pd "ItemCode" "SalesDetail (Hospitality)"
           (Ok (["OrderNo"; "ItemCode"],
                [old_or_new pd "OrderNo"; old_or_new pd "ItemCode"])))
    else if String.eqb businessType "retail" then
      require_update pd "InvoiceNo" "SalesDetail (Retail)"
        (require_update pd "StockId" "SalesDetail (Retail)"
           (Ok (["InvoiceNo"; "StockId"],
                [old_or_new pd "InvoiceNo"; old_or_new pd "StockId"])))
    else Ok ([], [])
  else if String.eqb tableName "Sales" then
    if String.eqb businessType "hospitality" then
      require_update pd "OrderNo" "Sales (Hospitality)"
        (Ok (["OrderNo"], [old_or_new pd "OrderNo"]))
    else if String.eqb businessType "retail" then
      require_update pd "InvoiceNo" "Sales (Retail)"
        (Ok (["InvoiceNo"], [old_or_new pd "InvoiceNo"]))
    else if Js.has pd "InvoiceNo" || Js.has pd "old_InvoiceNo" then
      Ok (["InvoiceNo"], [old_or_new pd "InvoiceNo"])
    else if Js.has pd "OrderNo" || Js.has pd "old_OrderNo" then
      Ok (["OrderNo"], [old_or_new pd "OrderNo"])
    else Thrown "No InvoiceNo or OrderNo found for UPDATE operation on Sales"
  else if String.eqb tableName "StockItems" then
    if String.eqb businessType "retail" then
      require_update pd "StockId" "StockItems (Retail)"
        (Ok (["StockId"], [old_or_new pd "StockId"]))
    else Ok ([], [])
  else if String.eqb tableName "MenuItem" then
    if String.eqb businessType "hospitality" then
      require_update pd "ItemCode" "MenuItem (Hospitality)"
        (Ok (["ItemCode"], [old_or_new pd "ItemCode"]))
    else Ok ([], [])
  else if String.eqb tableName "SubMenuLinkDetail" then
    if String.eqb businessType "hospitality" then
      require_update pd "ItemCode" "SubMenuLinkDetail (Hospitality)"
        (Ok (["ItemCode"], [old_or_new pd "ItemCode"]))
    else Ok ([], [])
  else if String.eqb tableName "PaymentReceived" then
    if String.eqb businessType "hospitality" then
      require_update pd "OrderNo" "PaymentReceived (Hospitality)"
        (require_update pd "Id" "PaymentReceived (Hospitality)"
           (Ok (["OrderNo"; "Id"],
                [old_or_new pd "OrderNo"; old_or_new pd "Id"])))
    else if String.eqb businessType "retail" then
      require_update pd "InvoiceNo" "PaymentReceived (Retail)"
        (require_update pd "Id" "PaymentReceived (Retail)"
           (Ok (["InvoiceNo"; "Id"],
                [old_or_new pd "InvoiceNo"; old_or_new pd "Id"])))
    else Ok ([], [])
  else if String.eqb tableName "Payment" then
    require_update pd "Payment" "Payment"
      (Ok (["Payment"], [old_or_new pd "Payment"]))
  else if Js.truthy (Js.or (Js.get pd "id") (Js.get pd "old_id")) then
    Ok (["id"], [Js.or (Js.get pd "old_id") (Js.get pd "id")])
  else Thrown ("No primary key found for UPDATE operation on " ++ tableName).

(** [key => !key.startsWith('old_')] *)
Definition not_old (key : string) : bool := negb (startsWith key "old_").

(** [case 'UPDATE'] up to the call of [executeQuery]. *)
Definition update_statement (tableName businessType : string)
    (parsedData : Js.object) : outcome statement :=
  match update_where tableName businessType parsedData with
  | Thrown m => Thrown m
  | Ok (whereFields, whereValues) =>
      let setKeys := List.filter not_old (Js.keys parsedData) in
      let setClause := join ", " (map assign setKeys) in
      if String.eqb setClause EmptyString then Thrown "No fields to update"
      else
        let updateValues := map (Js.get parsedData) setKeys in
        if (length whereFields =? 0)%nat then
          Thrown ("No WHERE condition defined for UPDATE operation on "
                  ++ tableName ++ " with businessType=" ++ businessType)
        else
          let whereClause := join " AND " (map assign whereFields) in
          Ok {| sql := "UPDATE " ++ tableName ++ " SET " ++ setClause
                       ++ " WHERE " ++ whereClause;
                params := updateValues ++ whereValues |}
  end.

(** One required column of a DELETE. *)
Definition require_delete (parsedData : Js.object) (col table_label : string)
    (rest : outcome where_spec) : outcome where_spec :=
  if negb (Js.has parsedData col)
  then Thrown ("No " ++ col ++ " found for DELETE operation on "
               ++ table_label)
  else rest.

(** The chain of [case 'DELETE'] that fills [deleteFields] and
    [deleteValues]. *)
Definition delete_where (tableName businessType : string)
    (parsedData : Js.object) : outcome where_spec :=
  let pd := parsedData in
  if String.eqb tableName "SalesDetail" then
    if String.eqb businessType "hospitality" then
      require_delete pd "OrderNo" "SalesDetail (Hospitality)"
        (require_delete pd "ItemCode" "SalesDetail (Hospitality)"
           (Ok (["OrderNo"; "ItemCode"],
                [Js.get pd "OrderNo"; Js.get pd "ItemCode"])))
    else if String.eqb businessType "retail" then
      require_delete pd "InvoiceNo" "SalesDetail (Retail)"
        (require_delete pd "StockId" "SalesDetail (Retail)"
           (Ok (["InvoiceNo"; "StockId"],
                [Js.get pd "InvoiceNo"; Js.get pd "StockId"])))
    else Ok ([], [])
  else if String.eqb tableName "Sales" then
    if String.eqb businessType "hospitality" then
      require_delete pd "OrderNo" "Sales (Hospitality)"
        (Ok (["OrderNo"], [Js.get pd "OrderNo"]))
    else if String.eqb businessType "retail" then
      require_delete pd "InvoiceNo" "Sales (Retail)"
        (Ok (["InvoiceNo"], [Js.get pd "InvoiceNo"]))
    else Ok ([], [])
  else if String.eqb tableName "MenuItem" then
    require_delete pd "ItemCode" "MenuItem"
      (Ok (["ItemCode"], [Js.get pd "ItemCode"]))
  else if String.eqb tableName "StockItems" then
    require_delete pd "StockId" "StockItems"
      (Ok (["StockId"], [Js.get pd "StockId"]))
  else if String.eqb tableName "PaymentReceived" then
    if String.eqb businessType "hospitality" then
      require_delete pd "OrderNo" "PaymentReceived (Hospitality)"
        (require_delete pd "Id" "PaymentReceived (Hospitality)"
           (Ok (["OrderNo"; "Id"], [Js.get pd "OrderNo"; Js.get pd "Id"])))
    else if String.eqb businessType "retail" then
      require_delete pd "InvoiceNo" "PaymentReceived (Retail)"
        (require_delete pd "Id" "PaymentReceived (Retail)"
           (Ok (["InvoiceNo"; "Id"], [Js.get pd "InvoiceNo"; Js.get pd "Id"])))
    else Ok ([], [])
  else if String.eqb tableName "Payment" then
    require_delete pd "Payment" "Payment"
      (Ok (["Payment"], [Js.get pd "Payment"]))
  else if Js.has pd "id" then Ok (["id"], [Js.get pd "id"])
  else Thrown ("No primary key found for DELETE operation on " ++ tableName).

(** [case 'DELETE'] up to the call of [executeQuery]. *)
Definition delete_statement (tableName businessType : string)
    (parsedData : Js.object) : outcome statement :=
  match delete_where tableName businessType parsedData with
  | Thrown m => Thrown m
  | Ok (deleteFields, deleteValues) =>
      if (length deleteFields =? 0)%nat then
        Thrown ("No WHERE condition defined for DELETE operation on "
                ++ tableName ++ " with businessType=" ++ businessType)
      else
        Ok {| sql := "DELETE FROM " ++ tableName ++ " WHERE "
                     ++ join " AND " (map assign deleteFields);
              params := deleteValues |}
  end.

(** [case 'INSERT'] up to the call of [executeQuery]. *)
Definition insert_statement (tableName : string) (parsedData : Js.object)
    : statement :=
  let insertColumns := join ", " (map quoted (Js.keys parsedData)) in
  let insertPlaceholders :=
    join ", " (map (fun _ => "?") (Js.keys parsedData)) in
  let updateColumns := join ", " (map assign_values (Js.keys parsedData)) in
  {| sql := "INSERT INTO " ++ tableName ++ " (" ++ insertColumns
            ++ ") VALUES (" ++ insertPlaceholders
            ++ ") ON DUPLICATE KEY UPDATE " ++ updateColumns;
     params := Js.values parsedData |}.

(** The head of the function: an XML string is decoded, an object is taken
    as it is, anything else is refused. *)
Definition parse_data (data : Js.value) : outcome Js.object :=
  match data with
  | Js.Str s =>
      if startsWith (trim s) "<" then Ok (Xml.parseXMLToObject s)
      else Thrown "Invalid data format for sync operation"
  | Js.Obj o => Ok o
  | _ => Thrown "Invalid data format for sync operation"
  end.

(** [operation.toUpperCase()], which only a string supports. *)
Definition upper_operation (operation : Js.value) : outcome string :=
  match operation with
  | Js.Str op => Ok (toUpperCase op)
  | Js.Undefined | Js.Null =>
      Thrown ("Cannot read properties of " ++ Js.text operation
              ++ " (reading 'toUpperCase')")
  | _ => Thrown "operation.toUpperCase is not a function"
  end.

(** The statement the function hands to [executeQuery], or the error it
    throws before reaching the store. *)
Definition build_statement (tableName : string) (operation data : Js.value)
    (businessType : string) : outcome statement :=
  match parse_data data with
  | Thrown m => Thrown m
  | Ok parsedData =>
      match upper_operation operation with
      | Thrown m => Thrown m
      | Ok op =>
          if String.eqb op "INSERT"
          then Ok (insert_statement tableName parsedData)
          else if String.eqb op "UPDATE" then
            update_statement tableName businessType parsedData
          else if String.eqb op "DELETE" then
            delete_statement tableName businessType parsedData
          else Thrown ("Unsupported operation: " ++ Js.text operation)
      end
  end.

Section Execute.
(** The answer of the target store. *)
Context {answer : Type}.
(** [dbManager.executeQuery(database, sql, params)] *)
Variable executeQuery : Js.value -> statement -> outcome answer.

(** [executeAdvancedSyncOperation(database, tableName, operation, data,
    businessType)] *)
Definition executeAdvancedSyncOperation (database : Js.value)
    (tableName : string) (operation data : Js.value)
    (businessType : string) : outcome answer :=
  match build_statement tableName operation data businessType with
  | Thrown m => Thrown m
  | Ok stmt => executeQuery database stmt
  end.
End Execute.

End Dispatcher.


(** ** services/syncService.js: the legacy row operations *)

Module SyncService.

Import JsString.

Definition nl : string := String (ascii_of_nat 10) EmptyString.
Definition indent12 : string := "            ".
Definition indent16 : string := "                ".

(** [getWhereFields(tableName)] *)
Definition getWhereFields (tableName : string) : list string :=
  if String.eqb tableName "SalesDetail" then ["InvoiceNo"; "StockId"]
  else if String.eqb tableName "StockItems" then ["StockId"]
  else if String.eqb tableName "Sales" then ["InvoiceNo"; "TransactionDate"]
  else if String.eqb tableName "MenuItem" then ["ItemCode"]
  else if String.eqb tableName "SubMenuLinkDetail"
  then ["ItemCode"; "SubItemCode"]
  else ["ID"].

(** [v !== undefined && v !== null] *)
Definition defined (v : Js.value) : bool :=
  match v with
  | Js.Undefined | Js.Null => false
  | _ => true
  end.

(** The choice of [sourceData] in [buildWhereCondition]. *)
Definition source_data (data : Js.object) (isOldData : bool) : Js.value :=
  let old := Js.get data "old" in
  let new := Js.get data "new" in
  if isOldData && Js.truthy old then Js.or (Js.prop old "deleted") old
  else if negb isOldData && Js.truthy new then
    Js.or (Js.prop new "inserted") new
  else if Js.truthy new && negb (Js.truthy old) then
    Js.or (Js.prop new "inserted") new
  else Js.Obj data.

(** [buildWhereCondition(tableName, data, isOldData)] *)
Definition buildWhereCondition (tableName : string) (data : Js.object)
    (isOldData : bool) : Js.object :=
  let sourceData := source_data data isOldData in
  let whereCondition :=
    fold_left (fun acc field =>
                 if defined (Js.prop sourceData field)
                 then Js.set acc field (Js.prop sourceData field)
                 else acc)
              (getWhereFields tableName) [] in
  if (length (Js.keys whereCondition) =? 0)%nat then
    match Js.prop sourceData "ID" with
    | Js.Undefined => whereCondition
    | v => Js.set whereCondition "ID" v
    end
  else whereCondition.

(** [delete o[k]] *)
Definition remove (k : string) (o : Js.object) : Js.object :=
  List.filter (fun kv => negb (String.eqb (fst kv) k)) o.

(** The own properties of the value that [getUpdateData] works on; the
    client sends objects under [new] and [inserted]. *)
Definition own_props (v : Js.value) : Js.object :=
  match v with
  | Js.Obj o => o
  | _ => []
  end.

(** [getUpdateData(tableName, data)] *)
Definition getUpdateData (tableName : string) (data : Js.object)
    : Js.object :=
  let new := Js.get data "new" in
  let updateData :=
    if Js.truthy new then own_props (Js.or (Js.prop new "inserted") new)
    else if Js.truthy (Js.get data "ID") then remove "ID" data
    else remove "_key" data in
  fold_left (fun acc field => remove field acc)
            (getWhereFields tableName) updateData.

(** The three query templates, with their line breaks and indentation. *)
Definition insert_query (TableName : string) (Data : Js.object) : statement :=
  let columns := Js.keys Data in
  let placeholders := join ", " (map (fun _ => "?") columns) in
  {| sql := nl ++ indent16 ++ "INSERT INTO `" ++ TableName ++ "` (`"
            ++ join "`, `" columns ++ "`)" ++ nl
            ++ indent16 ++ "VALUES (" ++ placeholders ++ ")" ++ nl
            ++ indent12;
     params := Js.values Data |}.

Definition update_query (TableName : string)
    (updateData whereCondition : Js.object) : statement :=
  {| sql := nl ++ indent16 ++ "UPDATE `" ++ TableName ++ "` " ++ nl
            ++ indent16 ++ "SET "
            ++ join ", " (map Dispatcher.assign (Js.keys updateData)) ++ nl
            ++ indent16 ++ "WHERE "
            ++ join " AND " (map Dispatcher.assign (Js.keys whereCondition))
            ++ nl ++ indent12;
     params := Js.values updateData ++ Js.values whereCondition |}.

Definition delete_query (TableName : string) (whereCondition : Js.object)
    : statement :=
  {| sql := nl ++ indent16 ++ "DELETE FROM `" ++ TableName ++ "`" ++ nl
            ++ indent16 ++ "WHERE "
            ++ join " AND " (map Dispatcher.assign (Js.keys whereCondition))
            ++ nl ++ indent12;
     params := Js.values whereCondition |}.

(** An error object: [code] is set by the driver and empty for the errors
    the service raises itself. *)
Record error : Type := { code : string; message : string }.

Inductive db_result : Type :=
| Affected (affectedRows : Z)
| Failed (e : error).

Record op_result : Type := {
  rowsAffected : Z;
  operation : string;
  wasUpdate : bool
}.

Inductive handled : Type :=
| Done (r : op_result)
| Raised (e : error).

Definition raise (msg : string) : handled :=
  Raised {| code := EmptyString; message := msg |}.

Section Handlers.
(** [dbManager.tableExists] and [dbManager.executeQuery] *)
Variable tableExists : string -> string -> bool.
Variable executeQuery : string -> statement -> db_result.

Definition required_fields (TableName : string) : string :=
  join ", " (getWhereFields TableName).

(** [handleUpdate(database, TableName, Data)]; the plain result carries no
    [operation] field. *)
Definition handleUpdate (database TableName : string) (Data : Js.object)
    : handled :=
  if negb (tableExists database TableName)
  then raise ("TABLE_NOT_EXISTS:" ++ TableName)
  else
    let whereCondition := buildWhereCondition TableName Data true in
    let updateData := getUpdateData TableName Data in
    if (length (Js.keys whereCondition) =? 0)%nat then
      raise ("WHERE condition is required for UPDATE operation on "
             ++ TableName ++ ". Required fields: "
             ++ required_fields TableName)
    else if (length (Js.keys updateData) =? 0)%nat then
      Done {| rowsAffected := 0; operation := EmptyString;
              wasUpdate := false |}
    else
      match executeQuery database
              (update_query TableName updateData whereCondition) with
      | Affected n =>
          Done {| rowsAffected := n; operation := EmptyString;
                  wasUpdate := false |}
      | Failed e => Raised e
      end.

(** [handleInsert(database, TableName, Data, isFullSync)] *)
Definition handleInsert (database TableName : string) (Data : Js.object)
    (isFullSync : bool) : handled :=
  if negb (tableExists database TableName)
  then raise ("TABLE_NOT_EXISTS:" ++ TableName)
  else
    match executeQuery database (insert_query TableName Data) with
    | Affected n =>
        Done {| rowsAffected := n; operation := "INSERT";
                wasUpdate := false |}
    | Failed e =>
        if String.eqb (code e) "ER_DUP_ENTRY" then
          if isFullSync then
            Done {| rowsAffected := 0; operation := "SKIP";
                    wasUpdate := false |}
          else
            match handleUpdate database TableName Data with
            | Done r =>
                Done {| rowsAffected := rowsAffected r;
                        operation := "UPDATE"; wasUpdate := true |}
            | Raised e' => Raised e'
            end
        else Raised e
    end.

(** [handleDelete(database, TableName, Data)] *)
Definition handleDelete (database TableName : string) (Data : Js.object)
    : handled :=
  if negb (tableExists database TableName)
  then raise ("TABLE_NOT_EXISTS:" ++ TableName)
  else
    let whereCondition := buildWhereCondition TableName Data false in
    if (length (Js.keys whereCondition) =? 0)%nat then
      raise ("WHERE condition is required for DELETE operation on "
             ++ TableName ++ ". Required fields: "
             ++ required_fields TableName)
    else
      match executeQuery database (delete_query TableName whereCondition)
      with
      | Affected n =>
          Done {| rowsAffected := n; operation := EmptyString;
                  wasUpdate := false |}
      | Failed e => Raised e
      end.
End Handlers.

End SyncService.


(** ** services/syncService.js: buildColumnMappings *)

Module CsvMapping.

Import JsString Regex.

Definition nl : string := SyncService.nl.
Definition sp16 : string := "                ".
Definition sp20 : string := sp16 ++ "    ".
Definition sp24 : string := sp20 ++ "    ".
Definition sp28 : string := sp24 ++ "    ".

(** The WHEN clauses of the generated CASE expression. *)
Inductive branch : Type :=
| NullOrBlank
| BooleanWord
| SentinelDate
| IsoDateTime
| StandardDateTime
| DateOnly
| PureInteger
| PureDecimal
| ElseTrim.

(** The text of the template is a sequence of clauses and of the comments
    and blank lines between them. *)
Inductive piece : Type :=
| Clause (b : branch)
| Filler (text : string).

Definition clause_text (csvVar : string) (b : branch) : string :=
  let v := csvVar in
  match b with
  | NullOrBlank => "WHEN " ++ v ++ " IS NULL OR TRIM(" ++ v ++ ") = '' THEN NULL"
  | BooleanWord =>
      "WHEN LOWER(TRIM(" ++ v
      ++ ")) IN ('true', 'false', 'yes', 'no', 'y', 'n', 'on', 'off') THEN"
      ++ nl ++ sp24 ++ "CASE " ++ nl
      ++ sp28 ++ "WHEN LOWER(TRIM(" ++ v
      ++ ")) IN ('true', 'yes', 'y', 'on') THEN 1 " ++ nl
      ++ sp28 ++ "ELSE 0 " ++ nl
      ++ sp24 ++ "END"
  | SentinelDate =>
      "WHEN " ++ v ++ " LIKE '1899-12-30%' OR " ++ v
      ++ " = '1900-01-01T00:00:00.000Z' OR " ++ v
      ++ " = '0000-00-00' THEN NULL"
  | IsoDateTime =>
      "WHEN " ++ v
      ++ " REGEXP '^[0-9]{4}-[0-9]{2}-[0-9]{2}T[0-9]{2}:[0-9]{2}:[0-9]{2}' THEN "
      ++ nl ++ sp24 ++ "STR_TO_DATE(SUBSTRING(" ++ v
      ++ ", 1, 19), '%Y-%m-%dT%H:%i:%s')"
  | StandardDateTime =>
      "WHEN " ++ v
      ++ " REGEXP '^[0-9]{4}-[0-9]{2}-[0-9]{2} [0-9]{2}:[0-9]{2}:[0-9]{2}' THEN "
      ++ nl ++ sp24 ++ "STR_TO_DATE(" ++ v ++ ", '%Y-%m-%d %H:%i:%s')"
  | DateOnly =>
      "WHEN " ++ v ++ " REGEXP '^[0-9]{4}-[0-9]{2}-[0-9]{2}$' THEN "
      ++ nl ++ sp24 ++ "STR_TO_DATE(" ++ v ++ ", '%Y-%m-%d')"
  | PureInteger =>
      "WHEN " ++ v ++ " REGEXP '^-?[0-9]+$' THEN CAST(" ++ v ++ " AS SIGNED)"
  | PureDecimal =>
      "WHEN " ++ v ++ " REGEXP '^-?[0-9]+\.[0-9]+$' THEN CAST(" ++ v
      ++ " AS DECIMAL(18,4))"
  | ElseTrim => "ELSE TRIM(" ++ v ++ ")"
  end.

Definition blank_line : string := nl ++ sp20 ++ nl ++ sp20.

(** [tableCol === 'StockId' || tableCol === 'ItemCode'] *)
Definition isProtectedColumn (tableCol : string) : bool :=
  String.eqb tableCol "StockId" || String.eqb tableCol "ItemCode".

(** The template literal, piece by piece: the two interpolations guarded by
    [!isProtectedColumn] contribute nothing for a protected column. *)
Definition template (protected : bool) : list piece :=
  [Filler (nl ++ sp20 ++ "-- Handle NULL and empty values first" ++ nl ++ sp20);
   Clause NullOrBlank;
   Filler (blank_line
           ++ "-- Handle boolean values (True/False, 1/0, etc) - but not for protected columns"
           ++ nl ++ sp20)]
  ++ (if negb protected then [Clause BooleanWord] else [])
  ++ [Filler (blank_line
              ++ "-- Handle SQL Server default dates and invalid dates"
              ++ nl ++ sp20);
      Clause SentinelDate;
      Filler (blank_line
              ++ "-- Handle ISO datetime format (YYYY-MM-DDTHH:MM:SS)"
              ++ nl ++ sp20);
      Clause IsoDateTime;
      Filler (blank_line
              ++ "-- Handle standard datetime format (YYYY-MM-DD HH:MM:SS)"
              ++ nl ++ sp20);
      Clause StandardDateTime;
      Filler (blank_line ++ "-- Handle date only format (YYYY-MM-DD)"
              ++ nl ++ sp20);
      Clause DateOnly;
      Filler blank_line]
  ++ (if negb protected then
        [Filler ("-- Handle pure numeric values (integers and decimals) - only for non-protected columns"
                 ++ nl ++ sp20);
         Clause PureInteger;
         Filler (nl ++ sp20);
         Clause PureDecimal]
      else [])
  ++ [Filler (blank_line
              ++ "-- Handle text values (trim and keep as-is, preserving leading zeros for protected columns)"
              ++ nl ++ sp20);
      Clause ElseTrim;
      Filler (nl ++ sp16)].

Definition piece_text (csvVar : string) (p : piece) : string :=
  match p with
  | Clause b => clause_text csvVar b
  | Filler t => t
  end.


(** One element of [setStatements]. *)
Definition set_statement (tableCol csvVar : string) : string :=
  "`" ++ tableCol ++ "` = CASE "
  ++ String.concat EmptyString
       (map (piece_text csvVar) (template (isProtectedColumn tableCol)))
  ++ "END".

(** [csvCol.replace(/[^a-zA-Z0-9]/g, '_')] behind an [@]. *)
Definition csv_variable (csvCol : string) : string :=
  "@" ++ replace_all false
           (Cls true [CRange "a" "z"; CRange "A" "Z"; CRange "0" "9"])
           [PText "_"] csvCol.

Record column_mappings : Type := {
  csvColumns : list string;
  setStatements : list string
}.

(** The table columns that have a CSV variable at the same index. *)
Fixpoint paired (tableColumns csvVariables : list string)
    : list (string * string) :=
  match tableColumns, csvVariables with
  | tableCol :: cols, csvVar :: vars => (tableCol, csvVar) :: paired cols vars
  | _, _ => []
  end.

(** [buildColumnMappings(csvHeaders, tableColumns)] *)
Definition buildColumnMappings (csvHeaders tableColumns : list string)
    : column_mappings :=
  let csvVariables := map csv_variable csvHeaders in
  {| csvColumns := csvVariables;
     setStatements :=
       map (fun p => set_statement (fst p) (snd p))
           (paired tableColumns csvVariables) |}.

(** *** What the target store computes from such a CASE expression

    The value-level reading of each clause, following the store's
    documentation of TRIM, LOWER, LIKE, REGEXP, CAST and STR_TO_DATE.  Dates
    are kept as the text handed to STR_TO_DATE together with its format. *)

















End CsvMapping.


(** ** Base64, as [Buffer.from(text, 'base64')] reads it

    A sextet is kept as its six bits, most significant first.  The decoder
    reads up to the first padding sign and skips every character outside the
    alphabet; both the standard and the URL-safe spellings of 62 and 63 are
    accepted. *)

Module Base64.

Definition bytes := list ascii.

Definition sextet : Type := bool * bool * bool * bool * bool * bool.

Definition sextet_value (x : sextet) : nat :=
  let '(b5, b4, b3, b2, b1, b0) := x in
  Nat.b2n b5 * 32 + Nat.b2n b4 * 16 + Nat.b2n b3 * 8
  + Nat.b2n b2 * 4 + Nat.b2n b1 * 2 + Nat.b2n b0.

Definition alphabet : list ascii :=
  list_ascii_of_string
    "ABCDEFGHIJKLMNOPQRSTUVWXYZabcdefghijklmnopqrstuvwxyz0123456789+/".

Definition char_of_sextet (x : sextet) : ascii :=
  nth (sextet_value x) alphabet "="%char.

Definition sextet_of_nat (n : nat) : sextet :=
  (Nat.testbit n 5, Nat.testbit n 4, Nat.testbit n 3,
   Nat.testbit n 2, Nat.testbit n 1, Nat.testbit n 0).

Definition sextet_of_char (c : ascii) : option sextet :=
  let n := nat_of_ascii c in
  if ((65 <=? n) && (n <=? 90))%nat then Some (sextet_of_nat (n - 65))
  else if ((97 <=? n) && (n <=? 122))%nat then Some (sextet_of_nat (n - 71))
  else if ((48 <=? n) && (n <=? 57))%nat then Some (sextet_of_nat (n + 4))
  else if ((n =? 43) || (n =? 45))%nat then Some (sextet_of_nat 62)
  else if ((n =? 47) || (n =? 95))%nat then Some (sextet_of_nat 63)
  else None.

(** Three bytes make four sextets. *)
Definition split3 (x y z : ascii) : sextet * sextet * sextet * sextet :=
  let '(Ascii x0 x1 x2 x3 x4 x5 x6 x7) := x in
  let '(Ascii y0 y1 y2 y3 y4 y5 y6 y7) := y in
  let '(Ascii z0 z1 z2 z3 z4 z5 z6 z7) := z in
  ((x7, x6, x5, x4, x3, x2), (x1, x0, y7, y6, y5, y4),
   (y3, y2, y1, y0, z7, z6), (z5, z4, z3, z2, z1, z0)).

Definition zero : ascii := Ascii false false false false false false false false.

Fixpoint encode (b : bytes) : list ascii :=
  match b with
  | x :: y :: z :: rest =>
      let '(s1, s2, s3, s4) := split3 x y z in
      char_of_sextet s1 :: char_of_sextet s2 :: char_of_sextet s3
        :: char_of_sextet s4 :: encode rest
  | [x; y] =>
      let '(s1, s2, s3, _) := split3 x y zero in
      [char_of_sextet s1; char_of_sextet s2; char_of_sextet s3; "="%char]
  | [x] =>
      let '(s1, s2, _, _) := split3 x zero zero in
      [char_of_sextet s1; char_of_sextet s2; "="%char; "="%char]
  | [] => []
  end.

Definition byte1 (a b : sextet) : ascii :=
  let '(a5, a4, a3, a2, a1, a0) := a in
  let '(b5, b4, _, _, _, _) := b in
  Ascii b4 b5 a0 a1 a2 a3 a4 a5.
Definition byte2 (b c : sextet) : ascii :=
  let '(_, _, b3, b2, b1, b0) := b in
  let '(c5, c4, c3, c2, _, _) := c in
  Ascii c2 c3 c4 c5 b0 b1 b2 b3.
Definition byte3 (c d : sextet) : ascii :=
  let '(_, _, _, _, c1, c0) := c in
  let '(d5, d4, d3, d2, d1, d0) := d in
  Ascii d0 d1 d2 d3 d4 d5 c0 c1.

(** The sextets of the text: nothing after the first [=] counts, and
    characters outside the alphabet are skipped. *)
Fixpoint sextets (s : list ascii) : list sextet :=
  match s with
  | [] => []
  | c :: s' =>
      if Ascii.eqb c "="%char then []
      else match sextet_of_char c with
           | Some x => x :: sextets s'
           | None => sextets s'
           end
  end.

Fixpoint bytes_of_sextets (l : list sextet) : bytes :=
  match l with
  | a :: b :: c :: d :: rest =>
      byte1 a b :: byte2 b c :: byte3 c d :: bytes_of_sextets rest
  | [a; b; c] => [byte1 a b; byte2 b c]
  | [a; b] => [byte1 a b]
  | _ => []
  end.

Definition decode (s : string) : bytes :=
  bytes_of_sextets (sextets (list_ascii_of_string s)).

Definition encode_string (b : bytes) : string :=
  string_of_list_ascii (encode b).

End Base64.


(** ** app.js: the socket handlers *)

Module Server.

Section Handlers.
(** The answer of the target store to a statement. *)
Context {answer : Type}.

Record batch_item : Type := {
  item_syncId : Js.value;
  item_success : bool;
  item_error : option string;
  item_result : option answer
}.

(** The events the server emits, with the fields that matter here (time
    stamps and fixed message texts are left out). *)
Inductive event : Type :=
| identified (licenseInfo : option License.store_info)
| license_error (code : Z) (error : string)
| license_expired (code : Z) (storeInfo : option License.store_info)
| identification_error (message : string)
| sync_response (syncId : Js.value) (success : bool)
    (result : option answer) (error : option string)
| request_table_schema (tableName : string) (originalSyncId : Js.value)
| batch_sync_response (results : list batch_item)
| batch_sync_failure (error : string)
| pong
| ddl_sync_success (syncId : Js.value) (skipped : bool)
| ddl_sync_error (syncId : Js.value) (error : string)
| table_schema_error (error : string) (originalSyncId : Js.value)
| request_full_data_sync (tableName : Js.value) (originalSyncId : Js.value)
| table_created (tableName : Js.value) (success : bool)
    (error : option string)
| csv_bulk_upload_response (fileName : string) (success : bool)
    (error : option string)
| csv_bulk_import_progress (tableName fileName : string)
    (processedRows : Z) (message : string)
| csv_file_import_complete (fileName tableName : string) (success : bool)
    (processedRows : Z) (error : option string).

(** What a handler does besides updating the socket. *)
Inductive action : Type :=
| Emit (e : event)
| Disconnect
| SetTimeout (ms : Z) (callback : list action)
| WriteFile (fileName : string) (content : Base64.bytes).

(** One pending chunked upload, an entry of [csvChunkStorage]. *)
Record upload_info : Type := {
  upload_appId : Js.value;
  upload_tableName : string;
  upload_fileName : string;
  upload_totalChunks : nat;
  upload_fileSizeBytes : Z;
  upload_rowCount : Z;
  chunks : gmap nat string
}.

(** The per-connection state: the fields the handlers hang on the socket
    and the chunk storage of the connection closure. *)
Record socket : Type := {
  storeId : Js.value;
  appId : Js.value;
  serviceType : Js.value;
  licenseInfo : option License.store_info;
  csvChunkStorage : gmap string upload_info
}.

(** A socket as [io.on('connection')] receives it. *)
Definition fresh : socket :=
  {| storeId := Js.Undefined; appId := Js.Undefined;
     serviceType := Js.Undefined; licenseInfo := None;
     csvChunkStorage := ∅ |}.

Record sync_report : Type := {
  success : bool;
  result : option answer;
  error : option string
}.

Record import_report : Type := {
  progress : list (Z * string);
  import_success : bool;
  import_processedRows : Z;
  import_error : option string
}.

(** The collaborators of the handlers. *)
Variable license : License.env.
(** the clock read by the license check *)
Variable now : Z.
(** [dbManager.executeQuery] *)
Variable executeQuery : Js.value -> statement -> outcome answer.
(** [syncService.processSyncData]; it throws only to report a missing
    table *)
Variable processSyncData : Js.value -> outcome sync_report.
(** [syncService.createTableWithSchema] *)
Variable createTableWithSchema :
  Js.value -> Js.value -> Js.value -> outcome unit.
(** whether the uploads directory takes a file of that name: creating the
    directory, writing, [stat] and reading back *)
Variable disk : string -> outcome unit.
(** [syncService.processSingleCSVFile], with the progress it reports *)
Variable processSingleCSVFile :
  Js.value -> Js.value -> string -> string -> import_report.

Definition is_string (v : Js.value) (s : string) : bool :=
  match v with
  | Js.Str t => String.eqb t s
  | _ => false
  end.

Definition nullish (v : Js.value) : bool :=
  match v with
  | Js.Undefined | Js.Null => true
  | _ => false
  end.

(** [socket.on('identify')] *)
Definition identify (sock : socket) (data : Js.value)
    : socket * list action :=
  if nullish data then
    (sock, [Emit (identification_error
                    "Cannot destructure property 'storeId'");
            Disconnect])
  else
    let sid := Js.prop data "storeId" in
    let aid := Js.prop data "appId" in
    let stype := Js.prop data "serviceType" in
    let bind (info : option License.store_info) :=
      ({| storeId := sid; appId := aid; serviceType := stype;
          licenseInfo := info;
          csvChunkStorage := csvChunkStorage sock |},
       [Emit (identified info)]) in
    if is_string stype "advanced_online_report" then
      if negb (Js.truthy sid) || negb (Js.truthy aid) then
        (sock,
         [Emit (license_error 400
                  "Missing storeId or appId for Advanced Online Report");
          Disconnect])
      else
        let licenseValidation :=
          License.validateAdvancedReportLicense license now sid aid in
        if negb (License.isValid licenseValidation)
           || License.isExpired licenseValidation
        then
          (sock,
           [Emit (license_expired 410
                    (License.storeInfo licenseValidation));
            SetTimeout 1000 [Disconnect]])
        else bind (License.storeInfo licenseValidation)
    else bind (licenseInfo sock).

(** [processAdvancedSyncData(data)] *)
Definition processAdvancedSyncData (data : Js.value) : sync_report :=
  let aid := Js.prop data "appId" in
  let sid := Js.prop data "storeId" in
  match License.getDatabaseByStoreAndApp license sid aid with
  | Some database =>
      if Js.truthy database then
        match Dispatcher.executeAdvancedSyncOperation executeQuery database
                (Js.text (Js.prop data "tableName"))
                (Js.prop data "operation")
                (Js.prop data "recordData")
                (Js.text (Js.prop data "businessType")) with
        | Ok r => {| success := true; result := Some r; error := None |}
        | Thrown m =>
            {| success := false; result := None; error := Some m |}
        end
      else
        {| success := false; result := None;
           error := Some ("No database configuration found for Store "
                          ++ Js.text sid ++ ", App " ++ Js.text aid)%string
        |}
  | None =>
      {| success := false; result := None;
         error := Some ("No database configuration found for Store "
                        ++ Js.text sid ++ ", App " ++ Js.text aid)%string
      |}
  end.

(** [error.message.split(':')[1]] *)
Definition after_colon (message : string) : string :=
  match String.index 0 ":" message with
  | Some i =>
      let rest := String.substring (S i) (String.length message) message in
      match String.index 0 ":" rest with
      | Some j => String.substring 0 j rest
      | None => rest
      end
  | None => "undefined"
  end.

(** [socket.on('sync_data')]; a [null] or missing payload makes the
    handler fail inside its own [catch], and nothing is emitted. *)
Definition sync_data (sock : socket) (data : Js.value)
    : socket * list action :=
  if nullish data then (sock, [])
  else if Js.truthy (Js.prop data "appId")
          && Js.truthy (Js.prop data "storeId") then
    let r := processAdvancedSyncData data in
    (sock, [Emit (sync_response (Js.prop data "syncId") (success r)
                    (if success r then result r else None)
                    (if success r then None else error r))])
  else
    match processSyncData data with
    | Ok r =>
        (sock, [Emit (sync_response (Js.prop data "SyncId") (success r)
                        (if success r then result r else None)
                        (if success r then None else error r))])
    | Thrown m =>
        if JsString.startsWith m "TABLE_NOT_EXISTS:" then
          (sock, [Emit (request_table_schema (after_colon m)
                          (Js.prop data "SyncId"))])
        else
          (sock, [Emit (sync_response (Js.prop data "SyncId") false None
                          (Some m))])
    end.

(** The loop of [batch_sync]: the first throw abandons the batch. *)
Fixpoint batch_results (batchData : list Js.value)
    : outcome (list batch_item) :=
  match batchData with
  | [] => Ok []
  | data :: rest =>
      match processSyncData data with
      | Thrown m => Thrown m
      | Ok r =>
          match batch_results rest with
          | Thrown m => Thrown m
          | Ok items =>
              Ok ({| item_syncId := Js.prop data "syncId";
                     item_success := success r;
                     item_error := error r;
                     item_result := result r |} :: items)
          end
      end
  end.

(** [socket.on('batch_sync')] for an array payload *)
Definition batch_sync (sock : socket) (batchData : list Js.value)
    : socket * list action :=
  match batch_results batchData with
  | Ok results => (sock, [Emit (batch_sync_response results)])
  | Thrown _ => (sock, [Emit (batch_sync_failure "Internal server error")])
  end.

(** [socket.on('ping')] *)
Definition ping (sock : socket) : socket * list action :=
  (sock, [Emit pong]).

(** [socket.on('sync_ddl_operation')] *)
Definition sync_ddl_operation (sock : socket) (data : Js.value)
    : socket * list action :=
  if nullish data then (sock, [])
  else
    let syncId := Js.prop data "syncId" in
    let sid := Js.prop data "storeId" in
    let no_database :=
      (sock, [Emit (ddl_sync_error syncId
                      ("No database configuration found for Store "
                       ++ Js.text sid)%string)]) in
    match License.getDatabaseByStoreAndApp license sid
            (Js.prop data "appId") with
    | None => no_database
    | Some database =>
        if negb (Js.truthy database) then no_database
        else
          match Ddl.convertSqlServerDDLToMySQL (Js.prop data "sqlCommand")
                  (Js.text (Js.prop data "tableName"))
                  (Js.text (Js.prop data "operation")) with
          | None => (sock, [Emit (ddl_sync_success syncId true)])
          | Some mysqlDDL =>
              if String.eqb mysqlDDL EmptyString
              then (sock, [Emit (ddl_sync_success syncId true)])
              else
                match executeQuery database
                        {| sql := mysqlDDL; params := [] |} with
                | Ok _ => (sock, [Emit (ddl_sync_success syncId false)])
                | Thrown m =>
                    (sock, [Emit (ddl_sync_error syncId
                                    ("DDL execution failed: " ++ m)%string)])
                end
          end
    end.

(** [!socket.storeId || !socket.appId], the guard that opens the handlers
    which work on the database of the session *)
Definition unidentified (sock : socket) : bool :=
  negb (Js.truthy (storeId sock)) || negb (Js.truthy (appId sock)).

(** [socket.on('table_schema_response')] *)
Definition table_schema_response (sock : socket) (data : Js.value)
    : socket * list action :=
  if nullish data then (sock, [])
  else
    let tableName := Js.prop data "tableName" in
    let originalSyncId := Js.prop data "originalSyncId" in
    if unidentified sock then
      (sock, [Emit (table_schema_error "Client not properly identified"
                      originalSyncId)])
    else
      let no_database :=
        (sock, [Emit (table_schema_error
                        ("No database configuration found for Store "
                         ++ Js.text (storeId sock))%string
                        originalSyncId)]) in
      match License.getDatabaseByStoreAndApp license (storeId sock)
              (appId sock) with
      | None => no_database
      | Some database =>
          if negb (Js.truthy database) then no_database
          else
            match createTableWithSchema database tableName
                    (Js.prop data "schema") with
            | Ok _ =>
                (sock, [Emit (request_full_data_sync tableName
                                originalSyncId)])
            | Thrown m =>
                (sock, [Emit (table_created tableName false (Some m))])
            end
      end.

(** The payloads of the three upload events. *)
Record upload_start : Type := {
  start_tableName : string;
  start_fileName : string;
  start_totalChunks : nat;
  start_fileSizeBytes : Z;
  start_rowCount : Z
}.

Record upload_chunk : Type := {
  chunk_tableName : string;
  chunk_fileName : string;
  chunkIndex : nat;
  totalChunks : nat;
  chunkContent : string;
  isLastChunk : bool
}.

Record upload_file : Type := {
  file_tableName : string;
  file_fileName : string;
  fileContent : string;
  file_fileSizeBytes : Z;
  file_rowCount : Z
}.

(** [`${socket.appId}_${fileName}`] *)
Definition chunkKey (sock : socket) (fileName : string) : string :=
  (Js.text (appId sock) ++ "_" ++ fileName)%string.

Definition with_storage (sock : socket) (st : gmap string upload_info)
    : socket :=
  {| storeId := storeId sock; appId := appId sock;
     serviceType := serviceType sock; licenseInfo := licenseInfo sock;
     csvChunkStorage := st |}.

(** [socket.on('csv_bulk_upload_start')] *)
Definition csv_bulk_upload_start (sock : socket) (data : upload_start)
    : socket * list action :=
  (with_storage sock
     (<[chunkKey sock (start_fileName data) :=
          {| upload_appId := appId sock;
             upload_tableName := start_tableName data;
             upload_fileName := start_fileName data;
             upload_totalChunks := start_totalChunks data;
             upload_fileSizeBytes := start_fileSizeBytes data;
             upload_rowCount := start_rowCount data;
             chunks := ∅ |}]> (csvChunkStorage sock)),
   []).

(** The [for] loop that writes the chunks [from], [from + 1], ... in
    order: the bytes written, and the index of the first chunk that is
    missing or empty, if any. *)
Fixpoint write_chunks (count from : nat) (received : gmap nat string)
    : Base64.bytes * option nat :=
  match count with
  | O => ([], None)
  | S count' =>
      match received !! from with
      | Some chunk =>
          if String.eqb chunk EmptyString then ([], Some from)
          else
            let '(written, missing) :=
              write_chunks count' (S from) received in
            (Base64.decode chunk ++ written, missing)
      | None => ([], Some from)
      end
  end.

(** The import that both upload paths start, with the events it causes. *)
Definition import_file (sid aid : Js.value) (tableName fileName : string)
    : list action :=
  let importResult := processSingleCSVFile sid aid tableName fileName in
  map (fun p => Emit (csv_bulk_import_progress tableName fileName
                        (fst p) (snd p)))
      (progress importResult)
  ++ [Emit (csv_file_import_complete fileName tableName
              (import_success importResult)
              (import_processedRows importResult)
              (import_error importResult))].

Definition with_chunk (info : upload_info) (i : nat) (content : string)
    : upload_info :=
  {| upload_appId := upload_appId info;
     upload_tableName := upload_tableName info;
     upload_fileName := upload_fileName info;
     upload_totalChunks := upload_totalChunks info;
     upload_fileSizeBytes := upload_fileSizeBytes info;
     upload_rowCount := upload_rowCount info;
     chunks := <[i := content]> (chunks info) |}.

(** [socket.on('csv_bulk_upload_chunk')]; the count that triggers the
    reassembly is the [totalChunks] of the chunk at hand. *)
Definition csv_bulk_upload_chunk (sock : socket) (data : upload_chunk)
    : socket * list action :=
  let key := chunkKey sock (chunk_fileName data) in
  match csvChunkStorage sock !! key with
  | None => (sock, [])
  | Some uploadInfo =>
      let uploadInfo :=
        with_chunk uploadInfo (chunkIndex data) (chunkContent data) in
      let stored := <[key := uploadInfo]> (csvChunkStorage sock) in
      if (size (chunks uploadInfo) =? totalChunks data)%nat then
        match disk (chunk_fileName data) with
        | Thrown m =>
            (with_storage sock stored,
             [Emit (csv_bulk_upload_response (upload_fileName uploadInfo)
                      false (Some m))])
        | Ok _ =>
            match write_chunks (totalChunks data) 0 (chunks uploadInfo)
            with
            | (written, Some i) =>
                (with_storage sock stored,
                 [WriteFile (chunk_fileName data) written;
                  Emit (csv_bulk_upload_response
                          (upload_fileName uploadInfo) false
                          (Some ("Missing chunk "
                                 ++ Js.text (Js.Num (Z.of_nat i)))%string))])
            | (written, None) =>
                (with_storage sock (delete key stored),
                 [WriteFile (chunk_fileName data) written;
                  Emit (csv_bulk_upload_response
                          (upload_fileName uploadInfo) true None);
                  SetTimeout 2000
                    (import_file (storeId sock) (upload_appId uploadInfo)
                       (upload_tableName uploadInfo)
                       (upload_fileName uploadInfo))])
            end
        end
      else (with_storage sock stored, [])
  end.

(** [socket.on('csv_bulk_upload')], with [handleCSVBulkUpload] in line *)
Definition csv_bulk_upload (sock : socket) (data : upload_file)
    : socket * list action :=
  match disk (file_fileName data) with
  | Thrown m =>
      (sock, [Emit (csv_bulk_upload_response (file_fileName data) false
                      (Some m))])
  | Ok _ =>
      (sock,
       WriteFile (file_fileName data) (Base64.decode (fileContent data))
       :: Emit (csv_bulk_upload_response (file_fileName data) true None)
       :: import_file (storeId sock) (appId sock) (file_tableName data)
            (file_fileName data))
  end.

(** Events handled one after the other on the same socket. *)
Definition handle_all {D : Type}
    (handler : socket -> D -> socket * list action)
    (sock : socket) (events : list D) : socket * list action :=
  fold_left (fun st ev =>
               let '(sock', done) := st in
               let '(sock'', more) := handler sock' ev in
               (sock'', done ++ more))
            events (sock, []).

(** Events that may reach a session which has not identified itself:
    [identified], [pong], the error events and the responses that report
    a failure. *)
Definition is_error_variant (e : event) : bool :=
  match e with
  | license_error _ _ | license_expired _ _ | identification_error _
  | batch_sync_failure _ | ddl_sync_error _ _ | table_schema_error _ _ =>
      true
  | sync_response _ ok _ _ | table_created _ ok _
  | csv_bulk_upload_response _ ok _
  | csv_file_import_complete _ _ ok _ _ => negb ok
  | _ => false
  end.

Definition allowed_before_identification (e : event) : bool :=
  match e with
  | identified _ | pong => true
  | _ => is_error_variant e
  end.

(** The events a list of actions sends at once, timers left aside. *)
Definition emitted (l : list action) : list event :=
  flat_map (fun a => match a with Emit e => [e] | _ => [] end) l.

End Handlers.

End Server.

(** ** The target store, as far as replaying an INSERT goes

    One table with its primary key, which is its only unique key; a table
    without a key has the empty list.  What else the table declares (its
    columns, their types, NOT NULL) is kept as the test [admits] on a row.
    The store is handed the statement that [executeQuery] receives, text and
    parameters, and reads the text: [INSERT INTO t (`c1`, ..., `cn`) VALUES
    (?, ..., ?)], alone or followed by [ON DUPLICATE KEY UPDATE `c` =
    VALUES(`c`), ...].  A row whose key no stored row has is added; on a
    duplicate key the plain INSERT is refused and the other form overwrites
    the listed columns of the stored row. *)

Module Store.

Import JsString.

Definition row := Js.object.

Record table : Type := {
  primary_key : list string;
  admits : row -> bool;
  rows : list row
}.

Definition key_of (pk : list string) (r : row) : list Js.value :=
  map (Js.get r) pk.

Definition value_eqb (a b : Js.value) : bool :=
  match a, b with
  | Js.Undefined, Js.Undefined | Js.Null, Js.Null => true
  | Js.Bool x, Js.Bool y => Bool.eqb x y
  | Js.Num x, Js.Num y => (x =? y)%Z
  | Js.Str x, Js.Str y => String.eqb x y
  | _, _ => false
  end.

Fixpoint key_eqb (a b : list Js.value) : bool :=
  match a, b with
  | [], [] => true
  | x :: a', y :: b' => value_eqb x y && key_eqb a' b'
  | _, _ => false
  end.

(** A value the store can keep in a key column. *)
Definition storable (v : Js.value) : bool :=
  match v with
  | Js.Bool _ | Js.Num _ | Js.Str _ => true
  | _ => false
  end.

(** A value that can be bound to a placeholder: a scalar or [null]. *)
Definition bindable (v : Js.value) : bool :=
  match v with
  | Js.Undefined | Js.Obj _ => false
  | _ => true
  end.


(** *** Reading the text of a statement *)

Record command : Type := {
  columns : list string;
  placeholders : nat;
  (** the columns of [ON DUPLICATE KEY UPDATE], [None] for a plain INSERT *)
  updates : option (list string)
}.

(** The text behind the prefix [p]. *)
Fixpoint behind (p s : chars) : option chars :=
  match p, s with
  | [], _ => Some s
  | a :: p', b :: s' => if Ascii.eqb a b then behind p' s' else None
  | _ :: _, [] => None
  end.

(** The text before the first [stop] and the text behind it. *)
Fixpoint split_at (stop s : chars) : option (chars * chars) :=
  match behind stop s with
  | Some rest => Some ([], rest)
  | None =>
      match s with
      | [] => None
      | c :: s' =>
          match split_at stop s' with
          | Some (before, rest) => Some (c :: before, rest)
          | None => None
          end
      end
  end.

(** [`c1`, `c2`, ..., `cn`] and the text behind it. *)
Fixpoint quoted_names (fuel : nat) (s : chars)
    : option (list string * chars) :=
  match fuel, s with
  | S fuel', "`"%char :: s1 =>
      match split_at ["`"%char] s1 with
      | Some (name, ","%char :: " "%char :: s2) =>
          match quoted_names fuel' s2 with
          | Some (names, rest) => Some (to_string name :: names, rest)
          | None => None
          end
      | Some (name, rest) => Some ([to_string name], rest)
      | None => None
      end
  | _, _ => None
  end.

(** [?, ?, ..., ?] and the text behind it. *)
Fixpoint marks (s : chars) : option (nat * chars) :=
  match s with
  | "?"%char :: ","%char :: " "%char :: s' =>
      match marks s' with
      | Some (n, rest) => Some (S n, rest)
      | None => None
      end
  | "?"%char :: rest => Some (1%nat, rest)
  | _ => None
  end.

(** [`c1` = VALUES(`c1`), ..., `cn` = VALUES(`cn`)] up to the end of the
    text. *)
Fixpoint assignments (fuel : nat) (s : chars) : option (list string) :=
  match fuel, s with
  | S fuel', "`"%char :: s1 =>
      match split_at (of_string "` = VALUES(`") s1 with
      | Some (name, s2) =>
          match behind (name ++ of_string "`)") s2 with
          | Some [] => Some [to_string name]
          | Some (","%char :: " "%char :: s3) =>
              match assignments fuel' s3 with
              | Some names => Some (to_string name :: names)
              | None => None
              end
          | _ => None
          end
      | None => None
      end
  | _, _ => None
  end.

Definition parse (text : string) : option command :=
  match behind (of_string "INSERT INTO ") (of_string text) with
  | Some s1 =>
      match split_at (of_string " (") s1 with
      | Some (_ :: _, s2) =>
          match quoted_names (length s2) s2 with
          | Some (cols, s3) =>
              match behind (of_string ") VALUES (") s3 with
              | Some s4 =>
                  match marks s4 with
                  | Some (n, [")"%char]) =>
                      Some {| columns := cols; placeholders := n;
                              updates := None |}
                  | Some (n, ")"%char :: s5) =>
                      match behind (of_string " ON DUPLICATE KEY UPDATE ")
                                   s5 with
                      | Some s6 =>
                          match assignments (length s6) s6 with
                          | Some names =>
                              Some {| columns := cols; placeholders := n;
                                      updates := Some names |}
                          | None => None
                          end
                      | None => None
                      end
                  | _ => None
                  end
              | None => None
              end
          | None => None
          end
      | _ => None
      end
  | None => None
  end.

(** *** Running it *)

Inductive answer : Type :=
| Stored (t : table)
| Refused (error : string)
(** what the store does is not in the model *)
| Undetermined.

(** The column [c] of a row set to [v]. *)
Fixpoint write (r : row) (c : string) (v : Js.value) : row :=
  match r with
  | [] => [(c, v)]
  | (c', v') :: r' =>
      if String.eqb c' c then (c, v) :: r' else (c', v') :: write r' c v
  end.

(** [c = VALUES(c)] for every column of [changes]. *)
Definition overwrite (old changes : row) : row :=
  fold_left (fun r cv => write r (fst cv) (snd cv)) changes old.

(** The columns [cols] of a row. *)
Definition restrict (cols : list string) (r : row) : row :=
  List.filter (fun cv => existsb (String.eqb (fst cv)) cols) r.

Definition has_key (pk : list string) (key : list Js.value)
    (l : list row) : bool :=
  existsb (fun r => key_eqb (key_of pk r) key) l.

(** The stored row with the key [key] overwritten by [changes]. *)
Fixpoint update_rows (pk : list string) (key : list Js.value)
    (changes : row) (l : list row) : list row :=
  match l with
  | [] => []
  | r :: l' =>
      if key_eqb (key_of pk r) key
      then overwrite r changes :: l'
      else r :: update_rows pk key changes l'
  end.

Definition run (t : table) (c : command) (values : list Js.value)
    : answer :=
  if negb ((placeholders c =? length (columns c))%nat
           && (length values =? placeholders c)%nat)
  then Refused "Column count doesn't match value count"
  else if negb (forallb bindable values)
  then Refused "Bind parameters must not contain undefined"
  else
    let new := combine (columns c) values in
    let stored (l : list row) :=
      Stored {| primary_key := primary_key t; admits := admits t;
                rows := l |} in
    if negb (admits t new) then Refused "The table does not take the row"
    else
      match primary_key t with
      | [] => stored (rows t ++ [new])
      | pk =>
          let key := key_of pk new in
          if negb (forallb storable key) then
            (* a default, AUTO_INCREMENT or a refusal, by the declaration
               of the column *)
            Undetermined
          else if has_key pk key (rows t) then
            match updates c with
            | Some cols =>
                stored (update_rows pk key (restrict cols new) (rows t))
            | None => Refused "Duplicate entry"
            end
          else stored (rows t ++ [new])
      end.

(** [executeQuery(database, sql, params)] on the table that the statement
    names. *)
Definition execute (t : table) (stmt : statement) : answer :=
  match parse (sql stmt) with
  | Some c => run t c (params stmt)
  | None => Undetermined
  end.

End Store.

(** ** The primary-key policy of the specification

    Written from the table of the specification, to compare the dispatcher
    with: the key columns of a (table, business type) pair, [None] where the
    table has a dash. *)

Module Policy.

Definition named_tables : list string :=
  ["Sales"; "SalesDetail"; "StockItems"; "MenuItem"; "SubMenuLinkDetail";
   "PaymentReceived"; "Payment"].

Definition primary_key (table businessType : string) : option (list string) :=
  let retail := String.eqb businessType "retail" in
  let hospitality := String.eqb businessType "hospitality" in
  if String.eqb table "Sales" then
    if retail then Some ["InvoiceNo"]
    else if hospitality then Some ["OrderNo"] else None
  else if String.eqb table "SalesDetail" then
    if retail then Some ["InvoiceNo"; "StockId"]
    else if hospitality then Some ["OrderNo"; "ItemCode"] else None
  else if String.eqb table "StockItems" then
    if retail then Some ["StockId"] else None
  else if String.eqb table "MenuItem" then
    if hospitality then Some ["ItemCode"] else None
  else if String.eqb table "SubMenuLinkDetail" then
    if hospitality then Some ["ItemCode"] else None
  else if String.eqb table "PaymentReceived" then
    if retail then Some ["InvoiceNo"; "Id"]
    else if hospitality then Some ["OrderNo"; "Id"] else None
  else if String.eqb table "Payment" then
    if retail || hospitality then Some ["Payment"] else None
  else
    if retail || hospitality then Some ["id"] else None.

End Policy.


(** ** The wire grammar of the specification

    Written from the words of the specification, to compare the decoder
    with: a document is a sequence of pairs, or a [new] element followed by
    an [old] element, each holding a sequence of pairs.  A tag is a
    non-empty name without angle brackets or slash; a value is text of the
    7-bit character set without an opening angle bracket. *)

Module Wire.

Import JsString.

Definition pair : Type := string * string.

Definition pair_text (p : pair) : string :=
  ("<" ++ fst p ++ ">" ++ snd p ++ "</" ++ fst p ++ ">")%string.

Definition document (ps : list pair) : string :=
  String.concat EmptyString (map pair_text ps).

Definition enveloped (news olds : list pair) : string :=
  ("<new>" ++ document news ++ "</new><old>" ++ document olds
   ++ "</old>")%string.

Definition none_of (bad : list ascii) (s : string) : bool :=
  forallb (fun c => negb (existsb (Ascii.eqb c) bad)) (of_string s).

Definition tag_ok (t : string) : bool :=
  negb (String.eqb t EmptyString)
  && none_of ["<"%char; ">"%char; "/"%char] t.

(** Text of the 7-bit character set, on which [JsString.trim] takes away
    what [String.prototype.trim] takes away; beyond it the method also
    removes the no-break space and the other Unicode spaces. *)
Definition seven_bit (s : string) : bool :=
  forallb (fun c => (nat_of_ascii c <? 128)%nat) (of_string s).

Definition value_ok (v : string) : bool :=
  none_of ["<"%char] v && seven_bit v.

Definition pair_ok (p : pair) : bool := tag_ok (fst p) && value_ok (snd p).

Definition tag_is_not (name : string) (p : pair) : Prop := fst p <> name.

(** A value that the decoder drops: empty once trimmed. *)
Definition blank (p : pair) : Prop := trim (snd p) = EmptyString.

(** The flat map the pairs stand for: each pair whose value is not blank
    sets the key [prefix ++ tag] to the trimmed value, in document order. *)
Definition decoded (prefix : string) (ps : list pair) (result : Js.object)
    : Js.object :=
  fold_left (fun o p =>
               let value := trim (snd p) in
               if String.eqb value EmptyString then o
               else Js.set o (prefix ++ fst p)%string (Js.Str value))
            ps result.

(** The characters of a pair, and what the tag pattern captures on it. *)
Definition pair_chars (t v : chars) : chars :=
  "<"%char :: t ++ ">"%char :: v ++ "<"%char :: "/"%char :: t ++ [">"%char].

Definition pair_of (p : pair) : chars :=
  pair_chars (of_string (fst p)) (of_string (snd p)).

Definition pair_captures (p : pair) : Regex.captures :=
  [(2, of_string (snd p)); (1, of_string (fst p))].

Record pair_facts (p : pair) : Prop := {
  tag_nonempty : of_string (fst p) <> [];
  tag_no_lt : Forall (fun c => c <> "<"%char) (of_string (fst p));
  tag_no_gt : Forall (fun c => c <> ">"%char) (of_string (fst p));
  tag_no_slash : Forall (fun c => c <> "/"%char) (of_string (fst p));
  value_no_lt : Forall (fun c => c <> "<"%char) (of_string (snd p))
}.

End Wire.

(** ** Notions used to reason about the matcher *)

Module Matching.

Import JsString Regex.

(** [a] takes [xs] off the input as its first choice, turning the captures
    [cs] into [cs']: whenever the rest of the pattern matches from there,
    that is the match found. *)
Definition takes (ci : bool) (a : re) (xs rest : chars)
    (cs cs' : captures) : Prop :=
  forall (R : Type) (k : cont (R := R)) (x : R),
    k rest cs' = Some x -> run ci a (xs ++ rest) cs k = Some x.

(** No suffix of [s], followed by [X], starts with [pat]. *)
Definition clear (pat s X : chars) : Prop :=
  forall a b, s = a ++ b -> b <> [] -> starts_with pat (b ++ X) = false.


End Matching.

(** ** A client that uploads a file in chunks *)

Module Upload.

Import Server.

Section Client.
Variable start : upload_start.
(** the consecutive slices of the file *)
Variable pieces : list Base64.bytes.

(** The content of chunk [i]: slice [i], encoded on its own. *)
Definition content (i : nat) : string :=
  Base64.encode_string (nth i pieces []).

Definition chunk_event (i : nat) : upload_chunk :=
  {| chunk_tableName := start_tableName start;
     chunk_fileName := start_fileName start;
     chunkIndex := i;
     totalChunks := length pieces;
     chunkContent := content i;
     isLastChunk := Nat.eqb (S i) (length pieces) |}.

(** The chunks stored once those of indices [l] have arrived. *)
Definition received (m : gmap nat string) (l : list nat) : gmap nat string :=
  fold_left (fun m i => <[i := content i]> m) l m.
End Client.

Definition with_chunks (info : upload_info) (m : gmap nat string)
    : upload_info :=
  {| upload_appId := upload_appId info;
     upload_tableName := upload_tableName info;
     upload_fileName := upload_fileName info;
     upload_totalChunks := upload_totalChunks info;
     upload_fileSizeBytes := upload_fileSizeBytes info;
     upload_rowCount := upload_rowCount info;
     chunks := m |}.

End Upload.

(** ** Sample inputs *)

Module Sample.

Import License.
Local Open Scope Z_scope.

Definition store : store_row :=
  {| StoreId := "239"; AdvancedReportAppId := "A";
     AdvancedReportLicenseExpire := 1577836800000;
     StoreName := "Corner shop" |}.

(** The tenant directory of scenario E1: one store, whose license ends with
    the year 2019. *)
Definition directory : env :=
  {| pool_ready := true; init_ok := true;
     select_store := fun sid aid =>
       match sid, aid with
       | Js.Str "239", Js.Str "A" => Rows [store]
       | _, _ => Rows []
       end |}.

(** A target store that accepts every statement. *)
Definition accepting (database : Js.value) (stmt : statement)
    : outcome unit := Ok tt.

(** A legacy service that refuses every payload at validation. *)
Definition refusing (data : Js.value)
    : outcome (Server.sync_report (answer := unit)) :=
  Ok {| Server.success := false; Server.result := None;
        Server.error := Some "Validation failed"%string |}.

Definition creating (database tableName schema : Js.value) : outcome unit :=
  Ok tt.

Definition disk (fileName : string) : outcome unit := Ok tt.

Definition importing (sid aid : Js.value) (tableName fileName : string)
    : Server.import_report :=
  {| Server.progress := []; Server.import_success := true;
     Server.import_processedRows := 3; Server.import_error := None |}.

(** Scenario E2 sent by a client that never identified itself. *)
Definition insert_event : Js.value :=
  Js.Obj [("appId", Js.Str "A"); ("storeId", Js.Str "239");
          ("tableName", Js.Str "SalesDetail"); ("operation", Js.Str "INSERT");
          ("businessType", Js.Str "retail"); ("syncId", Js.Str "s1");
          ("recordData",
           Js.Str "<row><InvoiceNo>7</InvoiceNo><StockId>S1</StockId><Qty>2</Qty></row>")].

Definition upload : Server.upload_file :=
  {| Server.file_tableName := "StockItems";
     Server.file_fileName := "stock.csv";
     Server.fileContent := "QUJD";
     Server.file_fileSizeBytes := 3;
     Server.file_rowCount := 1 |}.

Definition upload_start : Server.upload_start :=
  {| Server.start_tableName := "StockItems";
     Server.start_fileName := "stock.csv";
     Server.start_totalChunks := 2;
     Server.start_fileSizeBytes := 5;
     Server.start_rowCount := 3 |}.

Definition text (s : string) : Base64.bytes := list_ascii_of_string s.

(** Scenario E4. *)
Definition alter_command : string :=
  "ALTER TABLE [dbo].[Sales] Add [Note] [NVARCHAR](50) NULL".

Definition alter_event : Js.value :=
  Js.Obj [("appId", Js.Str "A"); ("storeId", Js.Str "239");
          ("tableName", Js.Str "Sales");
          ("operation", Js.Str "DDL_ALTER_TABLE");
          ("sqlCommand", Js.Str alter_command); ("syncId", Js.Str "d1")].

(** An UPDATE whose pre-image of the key column [Id] is the number 0. *)
Definition payment_update : Js.object :=
  [("InvoiceNo", Js.Str "A1"); ("Id", Js.Num 7); ("old_Id", Js.Num 0);
   ("Amount", Js.Num 5)].

Definition sale : Js.object :=
  [("InvoiceNo", Js.Num 7); ("TransactionDate", Js.Str "2024-01-01");
   ("Total", Js.Num 3)].

End Sample.


(** ** Shapes of decoded payloads *)

Module Decoded.

(** A value the decoder stores: a string that is not empty and has no
    white space at either end. *)
Definition stored (v : Js.value) : Prop :=
  exists s, v = Js.Str s /\ s <> EmptyString /\ JsString.trim s = s.

(** [old_<col>] when the payload has that key, [<col>] otherwise. *)
Definition pre_image (parsedData : Js.object) (col : string) : Js.value :=
  match Js.get_own parsedData ("old_" ++ col) with
  | Some v => v
  | None => Js.get parsedData col
  end.

End Decoded.

(** ** Handlers that talk to the store: effects as a log

    The handlers below await the database manager between their steps.  A
    run threads the state of the outside world through the calls and keeps
    a log of what the handler did, in order: the calls it made, the events
    it emitted and the timers it set.  A call answers with a value or throws
    an error, of which the handlers read the message. *)

Module Effect.

(** What [dbManager.executeQuery] resolves to, as far as the handlers read
    it: the rows of a SELECT and the number of affected rows. *)
Record query_result : Type := {
  rows : list Js.object;
  affectedRows : Z
}.

Inductive call : Type :=
| TableExists (database tableName : Js.value)
| ExecuteQuery (database : Js.value) (stmt : statement)
| GetConnection
| BeginTransaction
| Execute (stmt : statement)
| Commit
| Rollback
| Release.

(** A statement sent to [database] through the manager; a statement sent
    on the pooled connection. *)
Definition query_on (database : Js.value) (c : call) : Prop :=
  exists stmt, c = ExecuteQuery database stmt.
Definition on_connection (c : call) : Prop :=
  exists stmt, c = Execute stmt.

Section World.
Variable W : Type.
Variable event : Type.

(** The database manager and a pooled connection, as the world answers
    them. *)
Record store : Type := {
  db_tableExists : W -> Js.value -> Js.value -> W * outcome bool;
  db_executeQuery : W -> Js.value -> statement -> W * outcome query_result;
  db_getConnection : W -> W * outcome unit;
  conn_beginTransaction : W -> W * outcome unit;
  conn_execute : W -> statement -> W * outcome (list Js.object);
  conn_commit : W -> W * outcome unit;
  conn_rollback : W -> W * outcome unit;
  conn_release : W -> W
}.

Inductive entry : Type :=
| Call (c : call)
| Emit (e : event)
| SetTimeout (ms : Z) (e : event).

Record state : Type := {
  world : W;
  log : list entry
}.

Definition M (A : Type) : Type := state -> state * outcome A.

Definition ret {A : Type} (a : A) : M A := fun s => (s, Ok a).

(** [throw new Error(message)] *)
Definition throw {A : Type} (message : string) : M A :=
  fun s => (s, Thrown message).

(** [await m], then the rest *)
Definition bind {A B : Type} (m : M A) (k : A -> M B) : M B :=
  fun s =>
    match m s with
    | (s', Ok a) => k a s'
    | (s', Thrown message) => (s', Thrown message)
    end.

(** [try { m } catch (error) { handler(error.message) }] *)
Definition try_catch {A : Type} (m : M A) (handler : string -> M A) : M A :=
  fun s =>
    match m s with
    | (s', Thrown message) => handler message s'
    | done => done
    end.

(** [try { m } finally { after }], for an [after] that does not throw *)
Definition try_finally {A : Type} (m : M A) (after : state -> state) : M A :=
  fun s => let '(s', r) := m s in (after s', r).

Definition record (e : entry) (s : state) : state :=
  {| world := world s; log := log s ++ [e] |}.

(** [socket.emit(e)] and [setTimeout(() => socket.emit(e), ms)] *)
Definition emit (e : event) : M unit := fun s => (record (Emit e) s, Ok tt).
Definition set_timeout (ms : Z) (e : event) : M unit :=
  fun s => (record (SetTimeout ms e) s, Ok tt).

(** A call of the database manager: logged, then answered by the world. *)
Definition perform {A : Type} (c : call) (answer : W -> W * outcome A)
    : M A :=
  fun s =>
    let '(w, r) := answer (world s) in
    ({| world := w; log := log s ++ [Call c] |}, r).

Variable db : store.

Definition tableExists (database tableName : Js.value) : M bool :=
  perform (TableExists database tableName)
          (fun w => db_tableExists db w database tableName).
Definition executeQuery (database : Js.value) (stmt : statement)
    : M query_result :=
  perform (ExecuteQuery database stmt)
          (fun w => db_executeQuery db w database stmt).
Definition getConnection : M unit :=
  perform GetConnection (db_getConnection db).
Definition beginTransaction : M unit :=
  perform BeginTransaction (conn_beginTransaction db).
Definition execute (stmt : statement) : M (list Js.object) :=
  perform (Execute stmt) (fun w => conn_execute db w stmt).
Definition commit : M unit := perform Commit (conn_commit db).
Definition rollback : M unit := perform Rollback (conn_rollback db).
Definition release (s : state) : state :=
  {| world := conn_release db (world s); log := log s ++ [Call Release] |}.

(** [for (const x of l) { await body(x) }] *)
Fixpoint for_each {A : Type} (l : list A) (body : A -> M unit) : M unit :=
  match l with
  | [] => ret tt
  | x :: l' => bind (body x) (fun _ => for_each l' body)
  end.

(** The run of a handler from a world: the world it leaves and its log. *)
Definition run {A : Type} (m : M A) (w : W) : state * outcome A :=
  m {| world := w; log := [] |}.

Definition calls (l : list entry) : list call :=
  flat_map (fun e => match e with Call c => [c] | _ => [] end) l.
Definition emitted (l : list entry) : list event :=
  flat_map (fun e => match e with Emit e => [e] | _ => [] end) l.
Definition timers (l : list entry) : list (Z * event) :=
  flat_map (fun e => match e with SetTimeout ms e => [(ms, e)] | _ => [] end)
           l.

(** What a property says of a run: every entry it adds to the log is a
    call that satisfies [P]; it ends without an error. *)
Definition issues {A : Type} (P : call -> Prop) (m : M A) : Prop :=
  forall s, exists added,
    log (fst (m s)) = log s ++ map Call added /\ Forall P added.
Definition succeeds (m : M unit) : Prop :=
  forall s, snd (m s) = Ok tt.

End World.

Arguments db_tableExists {W} s.
Arguments db_executeQuery {W} s.
Arguments db_getConnection {W} s.
Arguments conn_beginTransaction {W} s.
Arguments conn_execute {W} s.
Arguments conn_commit {W} s.
Arguments conn_rollback {W} s.
Arguments conn_release {W} s.
Arguments Call {event} c.
Arguments Emit {event} e.
Arguments SetTimeout {event} ms e.
Arguments ret {W event A} a.
Arguments throw {W event A} message.
Arguments bind {W event A B} m k.
Arguments try_catch {W event A} m handler.
Arguments try_finally {W event A} m after.
Arguments emit {W event} e.
Arguments set_timeout {W event} ms e.
Arguments for_each {W event A} l body.
Arguments run {W event A} m w.
Arguments calls {event} l.
Arguments emitted {event} l.
Arguments timers {event} l.
Arguments issues {W event A} P m.
Arguments succeeds {W event} m.
Arguments world {W event} s.
Arguments log {W event} s.

Declare Scope effect_scope.
Delimit Scope effect_scope with effect.
Notation "'await' x <- m ;; k" := (bind m (fun x => k))
  (at level 10, x name, m at level 99, k at level 200) : effect_scope.
Notation "'after' m ;; k" := (bind m (fun _ => k))
  (at level 10, m at level 99, k at level 200) : effect_scope.

End Effect.

(** ** services/syncService.js: createTableWithSchema and its helpers *)

Module Schema.

Import JsString Regex.
Local Open Scope string_scope.

Definition nl : string := SyncService.nl.
Definition sp16 : string := "                ".
Definition sp20 : string := "                    ".
Definition sp12 : string := "            ".

(** [s.toLowerCase()] *)
Definition toLowerCase (s : string) : string :=
  to_string (map to_lower (of_string s)).

(** [column.DATA_TYPE.toLowerCase()], which only a string supports. *)
Definition lower_data_type (column : Js.object) : outcome string :=
  match Js.get column "DATA_TYPE" with
  | Js.Str s => Ok (toLowerCase s)
  | (Js.Undefined | Js.Null) as v =>
      Thrown ("Cannot read properties of " ++ Js.text v
              ++ " (reading 'toLowerCase')")
  | _ => Thrown "column.DATA_TYPE.toLowerCase is not a function"
  end.

Definition among (dataType : string) (names : list string) : bool :=
  existsb (String.eqb dataType) names.

(** [convertToMySQLType(column)] *)
Definition convertToMySQLType (column : Js.object) : outcome string :=
  match lower_data_type column with
  | Thrown m => Thrown m
  | Ok dataType =>
      let maxLength := Js.get column "CHARACTER_MAXIMUM_LENGTH" in
      let precision := Js.get column "NUMERIC_PRECISION" in
      let scale := Js.get column "NUMERIC_SCALE" in
      Ok (if among dataType ["int"; "integer"] then "INT"
          else if among dataType ["bigint"] then "BIGINT"
          else if among dataType ["smallint"] then "SMALLINT"
          else if among dataType ["tinyint"] then "TINYINT"
          else if among dataType ["decimal"; "numeric"] then
            "DECIMAL(" ++ Js.text (Js.or precision (Js.Num 18)) ++ ","
            ++ Js.text (Js.or scale (Js.Num 0)) ++ ")"
          else if among dataType ["float"] then "FLOAT"
          else if among dataType ["real"] then "DOUBLE"
          else if among dataType ["varchar"; "nvarchar"] then
            "VARCHAR(" ++ Js.text (Js.or maxLength (Js.Num 255)) ++ ")"
          else if among dataType ["char"; "nchar"] then
            "CHAR(" ++ Js.text (Js.or maxLength (Js.Num 1)) ++ ")"
          else if among dataType ["text"; "ntext"] then "TEXT"
          else if among dataType ["datetime"; "datetime2"] then "DATETIME"
          else if among dataType ["date"] then "DATE"
          else if among dataType ["time"] then "TIME"
          else if among dataType ["timestamp"] then "TIMESTAMP"
          else if among dataType ["bit"] then "BOOLEAN"
          else "TEXT")
  end.

(** The pattern of a plain number: an optional minus, digits, and
    optionally a point and digits, from start to end. *)
Definition re_number : re :=
  seqs [Alt (Lit "-") Eps; Plus Digit;
        Alt (Seq (Lit ".") (Plus Digit)) Eps; Eos].

Definition test (r : re) (s : string) : bool :=
  match match_here false r (of_string s) with
  | Some _ => true
  | None => false
  end.

(** [valueStr.replace(/'/g, "''")] between two quotes *)
Definition quote (valueStr : string) : string :=
  "'" ++ replace_all false (Lit "'") [PText "''"] valueStr ++ "'".

(** [formatDefaultValue(defaultValue, dataType)] for the data type of a
    column, a string; [None] is [null]. *)
Definition formatDefaultValue (defaultValue : Js.value) (dataType : string)
    : option string :=
  match defaultValue with
  | Js.Undefined | Js.Null | Js.Obj _ => None
  | _ =>
      let lowerDataType := toLowerCase dataType in
      let valueStr := Js.text defaultValue in
      if includes valueStr "getdate()" || includes valueStr "GETDATE()"
      then Some "CURRENT_TIMESTAMP"
      else if includes valueStr "newid()" || includes valueStr "NEWID()"
      then None
      else if includes lowerDataType "varchar"
              || includes lowerDataType "char"
              || includes lowerDataType "text"
      then Some (quote valueStr)
      else if includes lowerDataType "int"
              || includes lowerDataType "decimal"
              || includes lowerDataType "float"
      then if test re_number valueStr then Some valueStr else None
      else if String.eqb lowerDataType "bit"
      then Some (if String.eqb valueStr "1"
                    || String.eqb (toLowerCase valueStr) "true"
                 then "1" else "0")
      else None
  end.

(** [v === s] for a string literal [s], [v === 1] *)
Definition is_string (v : Js.value) (s : string) : bool :=
  match v with
  | Js.Str t => String.eqb t s
  | _ => false
  end.
Definition is_one (v : Js.value) : bool :=
  match v with
  | Js.Num 1 => true
  | _ => false
  end.

(** The default of a column as it enters the definition, if any. *)
Definition column_default (column : Js.object) : option string :=
  match Js.get column "COLUMN_DEFAULT" with
  | Js.Undefined | Js.Null => None
  | v =>
      match Js.get column "DATA_TYPE" with
      | Js.Str dataType => formatDefaultValue v dataType
      | _ => None
      end
  end.

Definition is_primary (column : Js.object) : bool :=
  is_string (Js.get column "COLUMN_KEY") "PRI".

(** The body of the [forEach] over the columns: the definition of one
    column. *)
Definition column_definition (column : Js.object) : outcome string :=
  match convertToMySQLType column with
  | Thrown m => Thrown m
  | Ok mysqlType =>
      let colDef :=
        "`" ++ Js.text (Js.get column "COLUMN_NAME") ++ "` " ++ mysqlType in
      let default := column_default column in
      let colDef :=
        match default with
        | Some defaultValue => colDef ++ " DEFAULT " ++ defaultValue
        | None => colDef
        end in
      let hasDefault :=
        match default with Some _ => true | None => false end in
      let colDef :=
        if is_string (Js.get column "IS_NULLABLE") "NO"
           && (hasDefault || is_one (Js.get column "IS_IDENTITY")
               || is_primary column)
        then colDef ++ " NOT NULL"
        else colDef ++ " NULL DEFAULT NULL" in
      Ok (if is_one (Js.get column "IS_IDENTITY")
          then colDef ++ " AUTO_INCREMENT" else colDef)
  end.

(** The definitions of the columns in order; the first column that throws
    ends the loop. *)
Fixpoint column_definitions (columns : list Js.object)
    : outcome (list string) :=
  match columns with
  | [] => Ok []
  | column :: rest =>
      match column_definition column with
      | Thrown m => Thrown m
      | Ok colDef =>
          match column_definitions rest with
          | Thrown m => Thrown m
          | Ok defs => Ok (colDef :: defs)
          end
      end
  end.

(** An element of an array as [join] prints it. *)
Definition join_text (v : Js.value) : string :=
  match v with
  | Js.Undefined | Js.Null => EmptyString
  | _ => Js.text v
  end.

Definition primaryKeyColumns (columns : list Js.object) : list Js.value :=
  map (fun column => Js.get column "COLUMN_NAME")
      (List.filter is_primary columns).

Definition pkConstraint (names : list Js.value) : string :=
  "PRIMARY KEY (`" ++ join "`, `" (map join_text names) ++ "`)".

Definition createQuery (tableName : Js.value)
    (columnDefinitions : list string) : string :=
  nl ++ sp16 ++ "CREATE TABLE `" ++ Js.text tableName ++ "` (" ++ nl
  ++ sp20 ++ join ("," ++ nl ++ sp20) columnDefinitions ++ nl
  ++ sp16 ++ ")" ++ nl ++ sp12.

(** The statement that creates the table, or the error of the column that
    could not be defined. *)
Definition create_statement (tableName : Js.value)
    (columns : list Js.object) : outcome statement :=
  match column_definitions columns with
  | Thrown m => Thrown m
  | Ok defs =>
      let names := primaryKeyColumns columns in
      let columnDefinitions :=
        (defs ++ (if (0 <? length names)%nat then [pkConstraint names]
                  else []))%list in
      Ok {| sql := createQuery tableName columnDefinitions; params := [] |}
  end.

(** An index of the schema; [COLUMNS] is empty when the field is missing. *)
Record index : Type := {
  INDEX_NAME : Js.value;
  IS_UNIQUE : Js.value;
  COLUMNS : list Js.object
}.

Definition index_column (col : Js.object) : string :=
  "`" ++ Js.text (Js.get col "COLUMN_NAME") ++ "` "
  ++ (if Js.truthy (Js.get col "IS_DESCENDING") then "DESC" else "ASC").

Definition createIndexQuery (tableName : Js.value) (i : index) : string :=
  nl ++ sp20 ++ "CREATE "
  ++ (if Js.truthy (IS_UNIQUE i) then "UNIQUE" else EmptyString)
  ++ " INDEX `" ++ Js.text (INDEX_NAME i) ++ "` " ++ nl
  ++ sp20 ++ "ON `" ++ Js.text tableName ++ "` ("
  ++ join ", " (map index_column (COLUMNS i)) ++ ")" ++ nl ++ sp16.

(** The schema as the client sends it: the array of columns and the array
    of indexes (none in the older format, where the schema is the array of
    columns itself). *)
Record schema : Type := {
  columns : list Js.object;
  indexes : list index
}.

Definition hospitalityIndexes (tableName : string) : list string :=
  if String.eqb tableName "MenuItem" then
    ["ALTER TABLE `MenuItem` ADD PRIMARY KEY (ItemCode)";
     "ALTER TABLE `MenuItem` ADD INDEX idx_category (Category)";
     "ALTER TABLE `MenuItem` ADD FULLTEXT INDEX idx_desc_ngram (Description1, Description2) WITH PARSER ngram"]
  else if String.eqb tableName "SalesDetail" then
    ["ALTER TABLE `SalesDetail` ADD INDEX idx_item_orderno (ItemCode, OrderNo)";
     "ALTER TABLE `SalesDetail` ADD INDEX idx_orderno (OrderNo)"]
  else if String.eqb tableName "Sales" then
    ["ALTER TABLE `Sales` ADD PRIMARY KEY (OrderNo)";
     "ALTER TABLE `Sales` ADD INDEX idx_orderdate (OrderDate)";
     "ALTER TABLE `Sales` ADD INDEX idx_orderdate_orderno (OrderDate, OrderNo)"]
  else [].

Definition retailIndexes (tableName : string) : list string :=
  if String.eqb tableName "StockItems" then
    ["ALTER TABLE `StockItems` ADD PRIMARY KEY (StockId)";
     "ALTER TABLE `StockItems` ADD INDEX idx_category (Category)";
     "ALTER TABLE `StockItems` ADD INDEX idx_category_stockid (Category, StockId)";
     "ALTER TABLE `StockItems` ADD FULLTEXT INDEX idx_desc_ngram (Description, Description1, Description2, Description3) WITH PARSER ngram"]
  else if String.eqb tableName "SalesDetail" then
    ["ALTER TABLE `SalesDetail` ADD INDEX idx_invoiceno_stockid (InvoiceNo, StockId)";
     "ALTER TABLE `SalesDetail` ADD INDEX idx_stockid (StockId)";
     "ALTER TABLE `SalesDetail` ADD INDEX idx_invoiceno (InvoiceNo)"]
  else if String.eqb tableName "Sales" then
    ["ALTER TABLE `Sales` ADD PRIMARY KEY (InvoiceNo)";
     "ALTER TABLE `Sales` ADD INDEX idx_transactiondate (TransactionDate)";
     "ALTER TABLE `Sales` ADD INDEX idx_transactiondate_invoiceno (TransactionDate, InvoiceNo)"]
  else [].

Section Effects.
Import Effect.
Local Open Scope effect_scope.
Variable W : Type.
Variable event : Type.
Variable db : store W.

Definition plain (text : string) : statement :=
  {| sql := text; params := [] |}.

(** [createTableIndexes(database, tableName, indexes)]: the first index
    that fails ends the loop, and the error stays inside. *)
Definition createTableIndexes (database tableName : Js.value)
    (indexes : list index) : M W event unit :=
  try_catch
    (for_each indexes (fun i =>
       if (length (COLUMNS i) =? 0)%nat then ret tt
       else after executeQuery W event db database
                    (plain (createIndexQuery tableName i)) ;; ret tt))
    (fun _ => ret tt).

(** The loop of [addHospitalitySpecificIndexes] and of
    [addRetailSpecificIndexes]: each statement in a [try] of its own. *)
Definition add_indexes (database : Js.value) (queries : list string)
    : M W event unit :=
  for_each queries (fun indexQuery =>
    try_catch
      (after executeQuery W event db database (plain indexQuery) ;; ret tt)
      (fun _ => ret tt)).

(** [createTableWithSchema(database, tableName, schema, databaseType)] *)
Definition createTableWithSchema (database tableName : Js.value)
    (s : schema) (databaseType : Js.value) : M W event unit :=
  match create_statement tableName (columns s) with
  | Thrown m => throw m
  | Ok create =>
      after executeQuery W event db database create ;;
      after (if (0 <? length (indexes s))%nat
             then createTableIndexes database tableName (indexes s)
             else ret tt) ;;
      if is_string databaseType "hospitality"
      then add_indexes database (hospitalityIndexes (Js.text tableName))
      else if is_string databaseType "retail"
      then add_indexes database (retailIndexes (Js.text tableName))
      else ret tt
  end.
End Effects.

End Schema.

(** ** app.js: the handlers of table maintenance *)

Module Maintenance.

Import Effect.
Local Open Scope string_scope.
Local Open Scope effect_scope.

Inductive event : Type :=
| force_sync_error (error : string)
| force_sync_response (success : bool) (error : option string)
    (droppedTables : list string)
| verify_and_sync_error (error : string)
| verify_and_sync_response (tableName : Js.value) (exists_ needsSync : bool)
    (rowCount : Js.value)
| verify_and_sync_failure (tableName : Js.value) (error : string)
| csv_bulk_sync_request (tableName appId : Js.value)
| table_creation_error (error : string) (tableName : Js.value)
| table_created (tableName : Js.value) (success : bool)
    (error : option string)
| clear_database_response (success : bool) (error : option string)
    (clearedTables : list string).

(** What a handler throws when it takes the fields of a payload that is
    [null] or [undefined]. *)
Definition destructure_error (field : string) (data : Js.value) : string :=
  "Cannot destructure property '" ++ field ++ "' of 'data' as it is "
  ++ Js.text data ++ ".".

(** Reading an identifier that no enclosing scope binds. *)
Definition not_defined {W A : Type} (name : string) : M W event A :=
  throw (name ++ " is not defined").

Definition plain (text : string) : statement :=
  {| sql := text; params := [] |}.

Section Handlers.
Variable W : Type.
Variable db : store W.
Variable license : License.env.
(** [Number(s) > 0] for a string [s], as the runtime converts it *)
Variable string_positive : string -> bool.

(** [licenseService.getDatabaseByStoreAndApp(socket.storeId, socket.appId)]
    followed by the test [!database] *)
Definition database_of (sock : Server.socket) : option Js.value :=
  match License.getDatabaseByStoreAndApp license (Server.storeId sock)
          (Server.appId sock) with
  | Some database => if Js.truthy database then Some database else None
  | None => None
  end.

Definition tablesToDrop : list string := ["SalesDetail"; "StockItems"].

(** One turn of the loop of [force_sync_request].  The three log lines
    interpolate [machineName], which the handler does not bind: each of
    them throws, the one in the [catch] clause included. *)
Definition drop_table (database : Js.value) (tableName : string)
    : M W event unit :=
  try_catch
    (await exists_ <- tableExists W event db database (Js.Str tableName) ;;
     if exists_ : bool then
       after executeQuery W event db database
               (plain ("DROP TABLE `" ++ tableName ++ "`")) ;;
       not_defined "machineName"
     else not_defined "machineName")
    (fun _ => not_defined "machineName").

(** [socket.on('force_sync_request')] *)
Definition force_sync_request (sock : Server.socket) (data : Js.value)
    : M W event unit :=
  try_catch
    (if Server.nullish data then throw (destructure_error "action" data)
     else
       let action := Js.prop data "action" in
       if Server.unidentified sock then
         emit (force_sync_error "Client not properly identified")
       else if Server.is_string action "drop_all_tables" then
         match database_of sock with
         | None =>
             emit (force_sync_error
                     ("No database configuration found for Store "
                      ++ Js.text (Server.storeId sock)))
         | Some database =>
             after for_each tablesToDrop (drop_table database) ;;
             after emit (force_sync_response true None tablesToDrop) ;;
             not_defined "machineName"
         end
       else
         emit (force_sync_response false
                 (Some ("Unknown action: " ++ Js.text action)) []))
    (fun message => emit (force_sync_response false (Some message) [])).

(** [rowCount === 0] *)
Definition is_zero (v : Js.value) : bool :=
  match v with
  | Js.Num 0 => true
  | _ => false
  end.

(** The inner [try] of [verify_and_sync_table]: the row count of a table
    that exists, and whether it is the number 0. *)
Definition count_rows (database tableName : Js.value)
    : M W event (bool * Js.value) :=
  try_catch
    (await result <- executeQuery W event db database
                       (plain ("SELECT COUNT(*) as count FROM `"
                               ++ Js.text tableName ++ "`")) ;;
     match rows result with
     | [] => throw "Cannot read properties of undefined (reading 'count')"
     | row :: _ =>
         let rowCount := Js.get row "count" in
         ret (is_zero rowCount, rowCount)
     end)
    (fun _ => ret (false, Js.Num 0)).

(** [socket.on('verify_and_sync_table')] *)
Definition verify_and_sync_table (sock : Server.socket) (data : Js.value)
    : M W event unit :=
  try_catch
    (if Server.nullish data then throw (destructure_error "tableName" data)
     else
       let tableName := Js.prop data "tableName" in
       if Server.unidentified sock then
         emit (verify_and_sync_error
                 "Client not properly identified. Missing storeId or appId.")
       else
         match database_of sock with
         | None =>
             emit (verify_and_sync_error
                     ("No database configuration found for Store "
                      ++ Js.text (Server.storeId sock) ++ " with App "
                      ++ Js.text (Server.appId sock)))
         | Some database =>
             await exists_ <- tableExists W event db database tableName ;;
             await counted <- (if exists_ : bool
                               then count_rows database tableName
                               else ret (false, Js.Num 0)) ;;
             let needsSync := fst counted in
             after emit (verify_and_sync_response tableName exists_
                           needsSync (snd counted)) ;;
             if exists_ && needsSync
             then set_timeout 100
                    (csv_bulk_sync_request tableName (Server.appId sock))
             else ret tt
         end)
    (fun message =>
       if Server.nullish data
       then throw ("Cannot read properties of " ++ Js.text data
                   ++ " (reading 'tableName')")
       else emit (verify_and_sync_failure
                    (Js.or (Js.prop data "tableName") (Js.Str "unknown"))
                    message)).

(** The payload of [create_table_from_schema]; [schema] is [None] when the
    field is missing. *)
Record create_request : Type := {
  tableName : Js.value;
  schema : option Schema.schema;
  isInitialSync : Js.value;
  databaseType : Js.value
}.

(** [socket.on('create_table_from_schema')] *)
Definition create_table_from_schema (sock : Server.socket)
    (data : create_request) : M W event unit :=
  try_catch
    (if Server.unidentified sock then
       emit (table_creation_error "Client not properly identified"
               (tableName data))
     else
       match database_of sock with
       | None =>
           emit (table_creation_error
                   ("No database configuration found for Store "
                    ++ Js.text (Server.storeId sock))
                   (tableName data))
       | Some database =>
           after match schema data with
                 | None =>
                     throw
                       "Cannot read properties of undefined (reading 'columns')"
                 | Some s =>
                     Schema.createTableWithSchema W event db database
                       (tableName data) s (databaseType data)
                 end ;;
           after emit (table_created (tableName data) true None) ;;
           if Js.truthy (isInitialSync data)
           then set_timeout 500
                  (csv_bulk_sync_request (tableName data)
                     (Server.appId sock))
           else ret tt
       end)
    (fun message =>
       emit (table_created (Js.or (tableName data) (Js.Str "unknown")) false
               (Some message))).

Definition tablesToClear : list string :=
  ["SalesDetail"; "StockItems"; "Sales"; "MenuItem"; "SubMenuLinkDetail";
   "PaymentReceived"; "Payment"].

(** [count > 0] *)
Definition positive (v : Js.value) : bool :=
  match v with
  | Js.Num z => (0 <? z)%Z
  | Js.Bool b => b
  | Js.Str s => string_positive s
  | _ => false
  end.

(** One turn of the loop of [clear_database_tables]. *)
Definition clear_table (database : Js.value) (tableName : string)
    : M W event unit :=
  try_catch
    (await tableExists_ <-
       execute W event db
         {| sql := "SELECT COUNT(*) as count FROM information_schema.tables WHERE table_schema = ? AND table_name = ?";
            params := [database; Js.Str tableName] |} ;;
     match tableExists_ with
     | [] => throw "Cannot read properties of undefined (reading 'count')"
     | row :: _ =>
         if positive (Js.get row "count") then
           after execute W event db (plain "SET FOREIGN_KEY_CHECKS = 0") ;;
           after execute W event db
                   (plain ("DROP TABLE IF EXISTS `" ++ Js.text database
                           ++ "`.`" ++ tableName ++ "`")) ;;
           after execute W event db (plain "SET FOREIGN_KEY_CHECKS = 1") ;;
           ret tt
         else ret tt
     end)
    (fun _ => ret tt).

(** [socket.on('clear_database_tables')] *)
Definition clear_database_tables (sock : Server.socket) (data : Js.value)
    : M W event unit :=
  try_catch
    (if Server.nullish data
     then throw (destructure_error "machineName" data)
     else if Server.unidentified sock then
       emit (clear_database_response false
               (Some "Client missing store or app identification") [])
     else
       match database_of sock with
       | None =>
           emit (clear_database_response false
                   (Some ("No database configuration found for Store "
                          ++ Js.text (Server.storeId sock))) [])
       | Some database =>
           after getConnection W event db ;;
           try_finally
             (try_catch
                (after beginTransaction W event db ;;
                 after for_each tablesToClear (clear_table database) ;;
                 after commit W event db ;;
                 emit (clear_database_response true None tablesToClear))
                (fun message =>
                   after rollback W event db ;; throw message))
             (release W event db)
       end)
    (fun message =>
       emit (clear_database_response false (Some message) [])).

End Handlers.

End Maintenance.

(** ** app.js: the batches of a full or initial data sync *)

Module FullSync.

Local Open Scope string_scope.

(** The counters of one batch. *)
Record counts : Type := {
  successCount : nat;
  errorCount : nat;
  insertCount : nat;
  updateCount : nat;
  skipCount : nat
}.

Definition zero : counts :=
  {| successCount := 0; errorCount := 0; insertCount := 0;
     updateCount := 0; skipCount := 0 |}.

(** The store as one row of the batch finds it: the answers to the
    existence check and to the statement of that row. *)
Record view : Type := {
  tableExists : string -> string -> bool;
  executeQuery : string -> statement -> SyncService.db_result
}.

(** The body of the loop: one more success, counted by the operation the
    service reports, or one more error. *)
Definition count_row (c : counts) (r : SyncService.handled) : counts :=
  match r with
  | SyncService.Done result =>
      let op := SyncService.operation result in
      {| successCount := S (successCount c);
         errorCount := errorCount c;
         insertCount := if String.eqb op "INSERT" then S (insertCount c)
                        else insertCount c;
         updateCount := if String.eqb op "INSERT" then updateCount c
                        else if String.eqb op "UPDATE"
                        then S (updateCount c) else updateCount c;
         skipCount := if String.eqb op "INSERT" then skipCount c
                      else if String.eqb op "UPDATE" then skipCount c
                      else if String.eqb op "SKIP" then S (skipCount c)
                      else skipCount c |}
  | SyncService.Raised _ =>
      {| successCount := successCount c;
         errorCount := S (errorCount c);
         insertCount := insertCount c;
         updateCount := updateCount c;
         skipCount := skipCount c |}
  end.

(** [for (const row of tableData)] with
    [syncService.handleInsert(database, tableName, row, true)]; row [i] of
    the batch meets the store in the state [views i]. *)
Fixpoint insert_rows (views : nat -> view) (i : nat)
    (database tableName : string) (tableData : list Js.object) (c : counts)
    : counts :=
  match tableData with
  | [] => c
  | row :: rest =>
      insert_rows views (S i) database tableName rest
        (count_row c
           (SyncService.handleInsert (tableExists (views i))
              (executeQuery (views i)) database tableName row true))
  end.

(** The payload of [full_data_sync_response] and of
    [initial_sync_data_response]; [tableData] is the array of rows under
    [data]. *)
Record batch : Type := {
  tableName : Js.value;
  tableData : list Js.object;
  originalSyncId : Js.value;
  isLastBatch : Js.value;
  currentBatch : Js.value;
  totalBatches : Js.value;
  totalRows : Js.value
}.

Inductive event : Type :=
| full_data_sync_error (error : string) (originalSyncId : Js.value)
| full_data_sync_progress (tableName currentBatch totalBatches : Js.value)
    (batch : counts) (originalSyncId : Js.value)
| full_data_sync_complete (tableName : Js.value) (success : bool)
    (originalSyncId totalRows : Js.value)
| sync_response (syncId : Js.value) (success : bool)
| initial_sync_error (error : string) (tableName : Js.value)
| initial_sync_progress (tableName currentBatch totalBatches : Js.value)
    (batch : counts)
| initial_sync_complete (tableName : Js.value) (success : bool)
    (totalRows : Js.value).

Section Handlers.
Variable license : License.env.
Variable views : nat -> view.

Definition database_of (sock : Server.socket) : option Js.value :=
  match License.getDatabaseByStoreAndApp license (Server.storeId sock)
          (Server.appId sock) with
  | Some database => if Js.truthy database then Some database else None
  | None => None
  end.

(** [socket.on('full_data_sync_response')] *)
Definition full_data_sync_response (sock : Server.socket) (data : batch)
    : list event :=
  if Server.unidentified sock then
    [full_data_sync_error "Client not properly identified"
       (originalSyncId data)]
  else
    match database_of sock with
    | None =>
        [full_data_sync_error
           ("No database configuration found for Store "
            ++ Js.text (Server.storeId sock))
           (originalSyncId data)]
    | Some database =>
        let c := insert_rows views 0 (Js.text database)
                   (Js.text (tableName data)) (tableData data) zero in
        full_data_sync_progress (tableName data) (currentBatch data)
          (totalBatches data) c (originalSyncId data)
        :: (if Js.truthy (isLastBatch data)
            then [full_data_sync_complete (tableName data) true
                    (originalSyncId data) (totalRows data);
                  sync_response (originalSyncId data) true]
            else [])
    end.

(** [socket.on('initial_sync_data_response')] *)
Definition initial_sync_data_response (sock : Server.socket) (data : batch)
    : list event :=
  if Server.unidentified sock then
    [initial_sync_error "Client not properly identified" (tableName data)]
  else
    match database_of sock with
    | None =>
        [initial_sync_error
           ("No database configuration found for Store "
            ++ Js.text (Server.storeId sock))
           (tableName data)]
    | Some database =>
        let c := insert_rows views 0 (Js.text database)
                   (Js.text (tableName data)) (tableData data) zero in
        initial_sync_progress (tableName data) (currentBatch data)
          (totalBatches data) c
        :: (if Js.truthy (isLastBatch data)
            then [initial_sync_complete (tableName data) true
                    (totalRows data)]
            else [])
    end.

End Handlers.

End FullSync.

(** ** A store for the examples *)

Module Fixture.

Import Effect.
Local Open Scope string_scope.

(** A row that counts nothing. *)
Definition no_rows : Js.object := [("count", Js.Num 0)].

(** A store where every table exists and is empty, and which accepts every
    statement; its world has no state. *)
Definition empty_store : store unit :=
  {| db_tableExists := fun w _ _ => (w, Ok true);
     db_executeQuery := fun w _ _ =>
       (w, Ok {| rows := [no_rows]; affectedRows := 0 |});
     db_getConnection := fun w => (w, Ok tt);
     conn_beginTransaction := fun w => (w, Ok tt);
     conn_execute := fun w _ => (w, Ok [no_rows]);
     conn_commit := fun w => (w, Ok tt);
     conn_rollback := fun w => (w, Ok tt);
     conn_release := fun w => w |}.

(** The socket of the store of [Sample.directory] once identified. *)
Definition session : Server.socket :=
  {| Server.storeId := Js.Str "239"; Server.appId := Js.Str "A";
     Server.serviceType := Js.Undefined; Server.licenseInfo := None;
     Server.csvChunkStorage := ∅ |}.

End Fixture.

(** ** Character tests used to state what the text functions keep *)

Module Chars.

Import JsString.

(** A letter of the ASCII alphabet or a digit: what [[a-zA-Z0-9]] matches. *)
Definition alphanumeric (c : ascii) : bool :=
  is_lower c || is_upper c || is_digit c.

(** The text with every character that [p] accepts replaced by [t]. *)
Definition substitute (p : ascii -> bool) (t : chars) (s : chars) : chars :=
  flat_map (fun c => if p c then t else [c]) s.



(** A character of a plain number: a digit, the minus sign or the point. *)
Definition numeric (c : ascii) : bool :=
  is_digit c || Ascii.eqb c "-" || Ascii.eqb c ".".

(** Every character that a pattern can take, read without the [i] flag,
    satisfies [P]; a pattern with a back reference is not confined. *)
Fixpoint confined (P : ascii -> Prop) (r : Regex.re) : Prop :=
  match r with
  | Regex.Eps | Regex.Eos => True
  | Regex.Lit c => P c
  | Regex.Cls negated items =>
      forall d, Regex.class_matches false negated items d = true -> P d
  | Regex.Seq a b | Regex.Alt a b => confined P a /\ confined P b
  | Regex.Star _ a | Regex.Group _ a => confined P a
  | Regex.Backref _ => False
  end.

End Chars.

(** ** routes/updateRoutes.js: basicAuth *)

Module UpdateRoutes.

Import JsString.
Local Open Scope string_scope.

(** [s.split(sep)] for a separator of one character: the fields between
    the separators, at least one. *)
Fixpoint split (sep : ascii) (s : chars) : list chars :=
  match s with
  | [] => [[]]
  | c :: s' =>
      if Ascii.eqb c sep then [] :: split sep s'
      else match split sep s' with
           | field :: fields => (c :: field) :: fields
           | [] => [[c]]
           end
  end.

(** [buffer.toString('ascii')] keeps the low seven bits of each byte. *)
Definition seven_bits (c : ascii) : ascii :=
  let '(Ascii b0 b1 b2 b3 b4 b5 b6 _) := c in
  Ascii b0 b1 b2 b3 b4 b5 b6 false.

(** [process.env.NAME || fallback] *)
Definition env_or (value : option string) (fallback : string) : string :=
  match value with
  | Some s => if String.eqb s EmptyString then fallback else s
  | None => fallback
  end.

(** What the middleware does: it hands over to the route, or answers 401
    with the [WWW-Authenticate] header and one of its two errors; [Throws]
    is an exception that escapes it. *)
Inductive failure : Type :=
| authentication_required
| authentication_failed.

Inductive response : Type :=
| Next
| Unauthorized (error : failure)
| Throws (message : string).

(** [basicAuth(req, res, next)] for the two environment variables and the
    [authorization] header of the request, if any. *)
Definition basicAuth (UPDATE_ADMIN_USERNAME UPDATE_ADMIN_PASSWORD
    authorization : option string) : response :=
  match authorization with
  | None => Unauthorized authentication_required
  | Some authHeader =>
      if String.eqb authHeader EmptyString
         || negb (startsWith authHeader "Basic ")
      then Unauthorized authentication_required
      else
        match split " " (of_string authHeader) with
        | _ :: base64Credentials :: _ =>
            let credentials :=
              map seven_bits (Base64.decode (to_string base64Credentials)) in
            let fields := split ":" credentials in
            let username := nth_error fields 0 in
            let password := nth_error fields 1 in
            let validUsername := env_or UPDATE_ADMIN_USERNAME "admin" in
            let validPassword :=
              env_or UPDATE_ADMIN_PASSWORD "updatepassword123" in
            match username, password with
            | Some u, Some p =>
                if String.eqb (to_string u) validUsername
                   && String.eqb (to_string p) validPassword
                then Next
                else Unauthorized authentication_failed
            | _, _ => Unauthorized authentication_failed
            end
        | _ =>
            Throws "The first argument must be of type string or an instance of Buffer, ArrayBuffer, or Array or an Array-like Object. Received undefined"
        end
  end.

(** The header a client builds from a user name and a password. *)
Definition basic_header (credentials : string) : string :=
  "Basic " ++ Base64.encode_string (of_string credentials).

End UpdateRoutes.

(** ** services/syncService.js: processSyncData *)

Module Legacy.

Import JsString.
Local Open Scope string_scope.

(** The members that an object literal inherits from [Object.prototype].
    A lookup [tableWhereFields[tableName]] by one of these names finds the
    inherited member, which is not a list of columns, where
    [SyncService.getWhereFields] answers [ID]. *)
Definition inherited : list string :=
  ["constructor"; "__defineGetter__"; "__defineSetter__"; "hasOwnProperty";
   "__lookupGetter__"; "__lookupSetter__"; "isPrototypeOf";
   "propertyIsEnumerable"; "toString"; "valueOf"; "__proto__";
   "toLocaleString"].

(** The value that [validateSyncData] returns, with the fields that
    [processSyncData] takes from it. *)
Record sync_data : Type := {
  MachineName : string;
  TableName : string;
  Operation : string;
  Data : Js.object;
  SyncId : string
}.

(** What [processSyncData] returns under [result]: the result of one of
    the three handlers, or the note that schema changes are disabled. *)
Inductive sync_result : Type :=
| Handled (r : SyncService.op_result)
| SchemaChangeDisabled.

Definition report : Type := Server.sync_report (answer := sync_result).

Definition failure (message : string) : report :=
  {| Server.success := false; Server.result := None;
     Server.error := Some message |}.

Section Service.
(** [syncDataSchema.validate(data)], which throws
    [Validation failed: ...] through [validateSyncData] *)
Variable validateSyncData : Js.value -> outcome sync_data.
(** [dbConfig.machineMapping[appId]], the database of the entry *)
Variable machineMapping : string -> option string.
Variable tableExists : string -> string -> bool.
Variable executeQuery : string -> statement -> SyncService.db_result.

(** [dbManager.getDatabaseByMachine(appId)] *)
Definition getDatabaseByMachine (appId : string) : outcome string :=
  match machineMapping appId with
  | Some database => Ok database
  | None => Thrown ("App ID " ++ appId ++ " not found in configuration")
  end.

(** The [switch] on the operation. *)
Definition dispatch (database : string) (v : sync_data)
    : outcome sync_result :=
  let handled (h : SyncService.handled) : outcome sync_result :=
    match h with
    | SyncService.Done r => Ok (Handled r)
    | SyncService.Raised e => Thrown (SyncService.message e)
    end in
  if String.eqb (Operation v) "INSERT" then
    handled (SyncService.handleInsert tableExists executeQuery database
               (TableName v) (Data v) false)
  else if String.eqb (Operation v) "UPDATE" then
    handled (SyncService.handleUpdate tableExists executeQuery database
               (TableName v) (Data v))
  else if String.eqb (Operation v) "DELETE" then
    handled (SyncService.handleDelete tableExists executeQuery database
               (TableName v) (Data v))
  else if String.eqb (Operation v) "SCHEMA_CHANGE" then
    Ok SchemaChangeDisabled
  else Thrown ("Unsupported operation: " ++ Operation v).

(** The outer [catch]: an error that reports a missing table goes on to
    the caller, any other becomes the answer. *)
Definition caught (message : string) : outcome report :=
  if startsWith message "TABLE_NOT_EXISTS:" then Thrown message
  else Ok (failure message).

(** [processSyncData(syncData)] for the processing queue as the call
    finds it; the queue as the call leaves it comes first. *)
Definition processSyncData (processingQueue : gset string)
    (syncData : Js.value) : gset string * outcome report :=
  match validateSyncData syncData with
  | Thrown message => (processingQueue, caught message)
  | Ok v =>
      if decide (SyncId v ∈ processingQueue) then
        (processingQueue, Ok (failure "Sync already in progress"))
      else
        let queued := {[SyncId v]} ∪ processingQueue in
        let done :=
          match getDatabaseByMachine (MachineName v) with
          | Thrown message => Thrown message
          | Ok database => dispatch database v
          end in
        (queued ∖ {[SyncId v]},
         match done with
         | Ok result =>
             Ok {| Server.success := true; Server.result := Some result;
                   Server.error := None |}
         | Thrown message => caught message
         end)
  end.

End Service.

End Legacy.
(** * Properties *)

(** ** License service *)

Section LicenseFacts.
Import License.
Local Open Scope Z_scope.

Lemma ceil_div_bounds (a b : Z) :
  0 < b -> (ceil_div a b - 1) * b < a <= ceil_div a b * b.
Proof.
  intros Hb. unfold ceil_div.
  pose proof (Z.div_mod (- a) b ltac:(lia)) as Hdm.
  pose proof (Z.mod_pos_bound (- a) b Hb) as Hm.
  nia.
Qed.

Lemma ceil_div_least (a b k : Z) :
  0 < b -> a <= k * b -> ceil_div a b <= k.
Proof.
  intros Hb Hk. pose proof (ceil_div_bounds a b Hb). nia.
Qed.

(** C6.  When the lookup answers with no row the result is invalid and
    expired and carries the store-not-found error; when it answers with a
    row, [isExpired] is [licenseExpire <= now] for the clock value read in
    the call, [isValid] is its negation, and the snapshot carries
    [daysRemaining = ceil((licenseExpire - now) / 1 day)] when valid and
    [0] when expired, the ceiling being the least number of whole days
    that covers the remaining time. *)
Theorem validate_license_outcome
    (e : env) (now : Z) (sid aid : Js.value) (rows : list store_row) :
  pool_ready e = true \/ init_ok e = true ->
  select_store e sid aid = Rows rows ->
  let v := validateAdvancedReportLicense e now sid aid in
  match rows with
  | [] =>
      isValid v = false /\ isExpired v = true
      /\ error v = Some "Store not found or invalid AppId"%string
      /\ storeInfo v = None
  | store :: _ =>
      let expire := AdvancedReportLicenseExpire store in
      isExpired v = (expire <=? now)
      /\ isValid v = negb (isExpired v)
      /\ (isValid v = true <-> now < expire)
      /\ error v = None
      /\ exists info,
           storeInfo v = Some info
           /\ storeId info = StoreId store
           /\ storeName info = StoreName store
           /\ appId info = AdvancedReportAppId store
           /\ expireDate info = expire
           /\ (isValid v = true ->
               daysRemaining info = ceil_div (expire - now) ms_per_day
               /\ (daysRemaining info - 1) * ms_per_day
                  < expire - now <= daysRemaining info * ms_per_day)
           /\ (isExpired v = true -> daysRemaining info = 0)
  end.
Proof.
  intros Hconn Hsel v. subst v. unfold validateAdvancedReportLicense.
  assert (Hgate : negb (pool_ready e) && negb (init_ok e) = false)
    by (destruct Hconn as [-> | ->]; destruct (pool_ready e); reflexivity).
  rewrite Hgate, Hsel. destruct rows as [| store rest]; cbn.
  - repeat split.
  - destruct (Z.leb_spec (AdvancedReportLicenseExpire store) now) as [Hle | Hgt];
      cbn.
    + repeat split; try (intros; discriminate); try lia.
      eexists. repeat split; cbn; intros; try discriminate; reflexivity.
    + repeat split; try lia.
      eexists. repeat split; cbn; intros; try discriminate; try reflexivity.
      * apply ceil_div_bounds. reflexivity.
      * apply ceil_div_bounds. reflexivity.
Qed.

(** The tenant of scenario E1, one hour and one millisecond before its
    license ends: valid, with one day remaining. *)
Lemma validate_license_outcome_witness :
  let v := validateAdvancedReportLicense Sample.directory 1577833199999
             (Js.Str "239") (Js.Str "A") in
  isExpired v = false /\ isValid v = true
  /\ (exists info, storeInfo v = Some info /\ daysRemaining info = 1).
Proof.
  pose proof (validate_license_outcome Sample.directory 1577833199999
                (Js.Str "239") (Js.Str "A") [Sample.store]
                (or_introl eq_refl) eq_refl) as H.
  cbn zeta in H. destruct H as (He & Hv & _ & _ & info & Hi & _).
  split; [exact He |]. split; [rewrite Hv, He; reflexivity |].
  exists info. split; [exact Hi |].
  vm_compute in Hi. injection Hi as <-. reflexivity.
Defined.

End LicenseFacts.

(** ** Base64 *)

Section Base64Facts.
Import Base64.

Lemma sextet_of_char_of_sextet (x : sextet) :
  sextet_of_char (char_of_sextet x) = Some x.
Proof.
  destruct x as [[[[[b5 b4] b3] b2] b1] b0].
  destruct b5, b4, b3, b2, b1, b0; reflexivity.
Qed.

Lemma char_of_sextet_not_padding (x : sextet) :
  Ascii.eqb (char_of_sextet x) "="%char = false.
Proof.
  destruct x as [[[[[b5 b4] b3] b2] b1] b0].
  destruct b5, b4, b3, b2, b1, b0; reflexivity.
Qed.

Lemma sextets_cons_char (x : sextet) (s : list ascii) :
  sextets (char_of_sextet x :: s) = x :: sextets s.
Proof.
  cbn [sextets]. rewrite char_of_sextet_not_padding.
  now rewrite sextet_of_char_of_sextet.
Qed.

Lemma bytes_of_split3 (x y z : ascii) :
  let '(s1, s2, s3, s4) := split3 x y z in
  byte1 s1 s2 = x /\ byte2 s2 s3 = y /\ byte3 s3 s4 = z.
Proof. destruct x, y, z. cbn. auto. Qed.

(** Induction three elements at a time, the way the encoder reads. *)
Lemma list_ind3 {A : Type} (P : list A -> Prop) :
  P [] -> (forall x, P [x]) -> (forall x y, P [x; y]) ->
  (forall x y z l, P l -> P (x :: y :: z :: l)) ->
  forall l, P l.
Proof.
  intros H0 H1 H2 H3.
  assert (forall l, P l /\ (forall x, P (x :: l))
                    /\ (forall x y, P (x :: y :: l))) as H.
  { induction l as [| a l (IH0 & IH1 & IH2)]; [auto |].
    repeat split; auto. }
  intros l. apply H.
Qed.

Lemma sextets_encode (b : bytes) :
  bytes_of_sextets (sextets (encode b)) = b.
Proof.
  induction b as [| x | x y | x y z l IH] using list_ind3.
  - reflexivity.
  - cbn [encode]. pose proof (bytes_of_split3 x zero zero) as H.
    destruct (split3 x zero zero) as [[[s1 s2] s3] s4].
    rewrite !sextets_cons_char. cbn. destruct H as (-> & _). reflexivity.
  - cbn [encode]. pose proof (bytes_of_split3 x y zero) as H.
    destruct (split3 x y zero) as [[[s1 s2] s3] s4].
    rewrite !sextets_cons_char. cbn. destruct H as (-> & -> & _).
    reflexivity.
  - cbn [encode]. pose proof (bytes_of_split3 x y z) as H.
    destruct (split3 x y z) as [[[s1 s2] s3] s4].
    rewrite !sextets_cons_char. cbn [bytes_of_sextets].
    destruct H as (-> & -> & ->). now rewrite IH.
Qed.

(** Decoding what was encoded gives the bytes back. *)
Lemma decode_encode (b : bytes) : decode (encode_string b) = b.
Proof.
  unfold decode, encode_string.
  rewrite list_ascii_of_string_of_list_ascii. apply sextets_encode.
Qed.

Lemma encode_nonempty (b : bytes) :
  b <> [] -> encode_string b <> EmptyString.
Proof.
  intros Hb. unfold encode_string.
  destruct b as [| x [| y [| z l]]]; [congruence | | |]; cbn [encode].
  - destruct (split3 x zero zero) as [[[s1 s2] s3] s4]. discriminate.
  - destruct (split3 x y zero) as [[[s1 s2] s3] s4]. discriminate.
  - destruct (split3 x y z) as [[[s1 s2] s3] s4]. discriminate.
Qed.

End Base64Facts.

(** ** Chunked upload *)

Section UploadFacts.
Import Server Upload.
Context {answer : Type}.
Variable disk : string -> outcome unit.
Variable processSingleCSVFile :
  Js.value -> Js.value -> string -> string -> import_report.

Lemma handle_all_nil {D}
    (h : socket -> D -> socket * list (action (answer := answer))) sock :
  handle_all h sock [] = (sock, []).
Proof. reflexivity. Qed.

Lemma handle_all_from {D}
    (h : socket -> D -> socket * list (action (answer := answer)))
    (events : list D) (sock : socket) (done : list action) :
  fold_left (fun st ev =>
               let '(sock', done) := st in
               let '(sock'', more) := h sock' ev in
               (sock'', done ++ more))
            events (sock, done)
  = (fst (handle_all h sock events), done ++ snd (handle_all h sock events)).
Proof.
  revert sock done. induction events as [| ev events IH]; intros sock done.
  - cbn. now rewrite app_nil_r.
  - unfold handle_all. cbn [fold_left].
    destruct (h sock ev) as [sock' more].
    rewrite (IH sock' (done ++ more)), (IH sock' ([] ++ more)).
    cbn. now rewrite app_assoc.
Qed.

Lemma handle_all_cons {D}
    (h : socket -> D -> socket * list (action (answer := answer)))
    (ev : D) (events : list D) (sock : socket) :
  handle_all h sock (ev :: events)
  = (fst (handle_all h (fst (h sock ev)) events),
     snd (h sock ev) ++ snd (handle_all h (fst (h sock ev)) events)).
Proof.
  unfold handle_all at 1. cbn [fold_left].
  destruct (h sock ev) as [sock' more]. cbn [fst snd].
  now rewrite handle_all_from.
Qed.

Lemma handle_all_app {D}
    (h : socket -> D -> socket * list (action (answer := answer)))
    (l1 l2 : list D) (sock : socket) :
  handle_all h sock (l1 ++ l2)
  = (fst (handle_all h (fst (handle_all h sock l1)) l2),
     snd (handle_all h sock l1)
     ++ snd (handle_all h (fst (handle_all h sock l1)) l2)).
Proof.
  revert sock. induction l1 as [| ev l1 IH]; intros sock.
  - cbn [app]. rewrite handle_all_nil. cbn.
    now destruct (handle_all h sock l2).
  - cbn [app]. rewrite !handle_all_cons, IH. cbn [fst snd].
    now rewrite app_assoc.
Qed.

Variable start : upload_start.
Variable pieces : list Base64.bytes.

Lemma received_lookup (l : list nat) (m : gmap nat string) (i : nat) :
  received pieces m l !! i
  = if decide (i ∈ l) then Some (content pieces i) else m !! i.
Proof.
  revert m. induction l as [| j l IH]; intros m; cbn [received fold_left].
  - case_decide as H; [by apply elem_of_nil in H | done].
  - fold (received pieces (<[j:=content pieces j]> m) l). rewrite IH.
    destruct (decide (i ∈ l)) as [Hl | Hl].
    + rewrite decide_True; [done | by right].
    + destruct (decide (i = j)) as [-> | Hne].
      * rewrite decide_True; [| by left]. by rewrite lookup_insert_eq.
      * rewrite decide_False.
        -- by rewrite lookup_insert_ne.
        -- intros [? | ?]%elem_of_cons; done.
Qed.

Lemma received_size (l : list nat) (m : gmap nat string) :
  NoDup l -> (forall i, i ∈ l -> m !! i = None) ->
  size (received pieces m l) = (size m + length l)%nat.
Proof.
  revert m. induction l as [| j l IH]; intros m Hnd Hfresh;
    cbn [received fold_left length].
  - lia.
  - fold (received pieces (<[j:=content pieces j]> m) l).
    apply NoDup_cons in Hnd as [Hj Hnd].
    rewrite IH; [| done |].
    + rewrite map_size_insert_None; [lia |]. apply Hfresh. by left.
    + intros i Hi. rewrite lookup_insert_ne.
      * apply Hfresh. by right.
      * intros ->. done.
Qed.

Lemma chunkKey_with_storage sock st f :
  chunkKey (with_storage sock st) f = chunkKey sock f.
Proof. reflexivity. Qed.

(** While fewer chunks have arrived than the upload has, a chunk is only
    stored. *)
Lemma chunks_pending (l : list nat) (sock : socket) (info : upload_info) :
  csvChunkStorage sock !! chunkKey sock (start_fileName start) = Some info ->
  NoDup l -> (forall i, i ∈ l -> chunks info !! i = None) ->
  (size (chunks info) + length l < length pieces)%nat ->
  handle_all (csv_bulk_upload_chunk (answer := answer) disk
                processSingleCSVFile) sock
             (map (chunk_event start pieces) l)
  = (with_storage sock
       (<[chunkKey sock (start_fileName start) :=
            with_chunks info (received pieces (chunks info) l)]>
          (csvChunkStorage sock)),
     @nil (action (answer := answer))).
Proof.
  revert sock info.
  induction l as [| j l IH]; intros sock info Hinfo Hnd Hfresh Hlt.
  - cbn. f_equal. destruct sock, info; cbn in *.
    unfold with_storage, with_chunks; cbn.
    f_equal. symmetry. by apply insert_id.
  - apply NoDup_cons in Hnd as [Hj Hnd]. cbn [map length] in *.
    rewrite handle_all_cons.
    assert (Hstep :
              csv_bulk_upload_chunk (answer := answer) disk
                processSingleCSVFile sock (chunk_event start pieces j)
              = (with_storage sock
                   (<[chunkKey sock (start_fileName start) :=
                        with_chunk info j (content pieces j)]>
                      (csvChunkStorage sock)), [])).
    { unfold csv_bulk_upload_chunk.
      cbn [chunk_fileName chunkIndex chunkContent totalChunks chunk_event].
      rewrite Hinfo. cbn [chunks with_chunk].
      rewrite map_size_insert_None by (apply Hfresh; by left).
      destruct (Nat.eqb_spec (S (size (chunks info))) (length pieces))
        as [He | _]; [lia | done]. }
    rewrite Hstep. cbn [fst snd app].
    rewrite (IH _ (with_chunk info j (content pieces j))).
    + cbn [fst snd]. rewrite chunkKey_with_storage.
      unfold with_storage.
      cbn [storeId appId serviceType licenseInfo csvChunkStorage].
      by rewrite insert_insert_eq.
    + rewrite chunkKey_with_storage. cbn. by rewrite lookup_insert_eq.
    + done.
    + intros i Hi. cbn. rewrite lookup_insert_ne; [apply Hfresh; by right |].
      intros ->; done.
    + cbn [chunks with_chunk].
      rewrite map_size_insert_None by (apply Hfresh; by left). lia.
Qed.

(** With every chunk there and none of them empty, the loop writes the
    slices in index order. *)
Lemma write_chunks_complete (m : gmap nat string) (count from : nat) :
  (forall i, (from <= i < from + count)%nat ->
             m !! i = Some (content pieces i) /\ nth i pieces [] <> []) ->
  write_chunks count from m
  = (concat (map (fun i => nth i pieces []) (seq from count)), None).
Proof.
  revert from.
  induction count as [| count IH]; intros from H;
    cbn [write_chunks seq map concat].
  - done.
  - destruct (H from ltac:(lia)) as [-> Hne].
    destruct (String.eqb_spec (content pieces from) EmptyString) as [He | _].
    + by apply encode_nonempty in He.
    + rewrite IH by (intros i Hi; apply H; lia).
      unfold content at 1. by rewrite decode_encode.
Qed.

Lemma nth_seq_all {A} (l : list A) (d : A) :
  map (fun i => nth i l d) (seq 0 (length l)) = l.
Proof.
  induction l as [| x l IH]; [done |].
  cbn [length seq map nth]. f_equal.
  rewrite <- seq_shift, map_map. exact IH.
Qed.

(** C8, as amended.  A file cut into non-empty slices, each encoded on its
    own and sent under its index together with the number of slices: in
    whatever order the chunks arrive after the start event, nothing happens
    until the last one, which writes the slices in ascending index order
    (the bytes of the file) under the file name, removes the accumulator,
    reports success and schedules the import. *)
Theorem chunked_upload_reassembles (sock : socket) (order : list nat) :
  pieces <> [] ->
  Forall (fun p => p <> []) pieces ->
  Permutation order (seq 0 (length pieces)) ->
  disk (start_fileName start) = Ok tt ->
  handle_all (csv_bulk_upload_chunk (answer := answer) disk
                processSingleCSVFile)
             (fst (csv_bulk_upload_start (answer := answer) sock start))
             (map (chunk_event start pieces) order)
  = (with_storage sock
       (delete (chunkKey sock (start_fileName start))
               (csvChunkStorage sock)),
     [WriteFile (start_fileName start) (concat pieces);
      Emit (csv_bulk_upload_response (start_fileName start) true None);
      SetTimeout 2000
        (import_file processSingleCSVFile (storeId sock) (appId sock)
           (start_tableName start) (start_fileName start))]).
Proof.
  intros Hne Hpieces Hperm Hdisk.
  assert (Hnd : NoDup order).
  { apply NoDup_ListNoDup.
    eapply Permutation_NoDup; [symmetry; exact Hperm |]. apply seq_NoDup. }
  assert (Hlen : length order = length pieces).
  { rewrite (Permutation_length Hperm). apply length_seq. }
  assert (Hin : forall i, i ∈ order <-> (i < length pieces)%nat).
  { intros i. rewrite list_elem_of_In.
    split; intros H.
    - eapply Permutation_in in H; [| exact Hperm]. apply in_seq in H. lia.
    - eapply Permutation_in; [symmetry; exact Hperm |]. apply in_seq. lia. }
  destruct (exists_last (l := order)) as (init & last & ->).
  { intros ->. destruct pieces; [done | discriminate]. }
  apply NoDup_app in Hnd as (Hnd_init & Hsep & _).
  rewrite length_app in Hlen. cbn in Hlen.
  rewrite map_app, handle_all_app.
  set (key := chunkKey sock (start_fileName start)).
  set (info0 := {| upload_appId := appId sock;
                   upload_tableName := start_tableName start;
                   upload_fileName := start_fileName start;
                   upload_totalChunks := start_totalChunks start;
                   upload_fileSizeBytes := start_fileSizeBytes start;
                   upload_rowCount := start_rowCount start;
                   chunks := ∅ |}).
  assert (Hstart :
            fst (csv_bulk_upload_start (answer := answer) sock start)
            = with_storage sock (<[key := info0]> (csvChunkStorage sock)))
    by reflexivity.
  rewrite Hstart.
  rewrite (chunks_pending init _ info0).
  2:{ rewrite chunkKey_with_storage. cbn. fold key.
      by rewrite lookup_insert_eq. }
  2:{ done. }
  2:{ intros i _. done. }
  2:{ cbn. rewrite map_size_empty. lia. }
  cbn [fst snd app map]. rewrite handle_all_cons, handle_all_nil.
  cbn [fst snd]. rewrite app_nil_r, chunkKey_with_storage. fold key.
  cbn [csvChunkStorage with_storage]. rewrite insert_insert_eq.
  unfold csv_bulk_upload_chunk.
  cbn [chunk_event chunk_fileName chunkIndex chunkContent totalChunks].
  rewrite chunkKey_with_storage. fold key.
  cbn [csvChunkStorage with_storage]. rewrite lookup_insert_eq.
  cbn [with_chunk with_chunks chunks upload_appId upload_tableName
       upload_fileName upload_totalChunks upload_fileSizeBytes
       upload_rowCount info0].
  assert (Hall : <[last := content pieces last]> (received pieces ∅ init)
                 = received pieces ∅ (init ++ [last])).
  { unfold received. by rewrite fold_left_app. }
  rewrite Hall.
  assert (Hsize : size (received pieces ∅ (init ++ [last])) = length pieces).
  { rewrite received_size.
    - rewrite map_size_empty, length_app. cbn. lia.
    - apply NoDup_app. split; [done |]. split; [done | apply NoDup_singleton].
    - intros i _. done. }
  rewrite Hsize, Nat.eqb_refl, Hdisk.
  rewrite write_chunks_complete.
  2:{ intros i Hi. rewrite received_lookup.
      rewrite decide_True by (apply Hin; lia). split; [done |].
      rewrite Forall_forall in Hpieces. apply Hpieces.
      apply list_elem_of_In, nth_In. lia. }
  rewrite nth_seq_all.
  f_equal. unfold with_storage.
  cbn [storeId appId serviceType licenseInfo csvChunkStorage].
  f_equal. by rewrite !delete_insert_eq.
Qed.

End UploadFacts.

(** A file of five bytes sent as two chunks, the second one first. *)
Lemma chunked_upload_reassembles_witness :
  let pieces := [Sample.text "ABC"; Sample.text "DE"] in
  Server.handle_all
    (Server.csv_bulk_upload_chunk (answer := unit) Sample.disk
       Sample.importing)
    (fst (Server.csv_bulk_upload_start (answer := unit) Server.fresh
            Sample.upload_start))
    (map (Upload.chunk_event Sample.upload_start pieces) [1; 0]%nat)
  = (Server.fresh,
     [Server.WriteFile "stock.csv" (Sample.text "ABCDE");
      Server.Emit (Server.csv_bulk_upload_response "stock.csv" true None);
      Server.SetTimeout 2000
        (Server.import_file Sample.importing Js.Undefined Js.Undefined
           "StockItems" "stock.csv")]).
Proof.
  intros pieces.
  refine (eq_trans
            (chunked_upload_reassembles (answer := unit) Sample.disk
               Sample.importing Sample.upload_start pieces Server.fresh
               [1; 0]%nat _ _ _ eq_refl) _).
  - discriminate.
  - repeat constructor; discriminate.
  - apply perm_swap.
  - reflexivity.
Defined.

(** C8, counterexample.  The same upload with an empty second slice: the
    chunks carry the indices 0 and 1 and both arrive, but the empty chunk is
    taken for a missing one; the upload is reported as failed, the
    accumulator stays and no import is scheduled. *)
Lemma empty_chunk_is_reported_missing :
  let pieces := [Sample.text "ABC"; []] in
  let result :=
    Server.handle_all
      (Server.csv_bulk_upload_chunk (answer := unit) Sample.disk
       Sample.importing)
      (fst (Server.csv_bulk_upload_start (answer := unit) Server.fresh
              Sample.upload_start))
      (map (Upload.chunk_event Sample.upload_start pieces) [0; 1]%nat) in
  snd result
  = [Server.WriteFile "stock.csv" (Sample.text "ABC");
     Server.Emit
       (Server.csv_bulk_upload_response "stock.csv" false
          (Some "Missing chunk 1"%string))]
  /\ Server.csvChunkStorage (fst result) !! "undefined_stock.csv"%string
     <> None.
Proof.
  split; [vm_compute; reflexivity |].
  vm_compute. discriminate.
Qed.

(** ** The store model *)

Section StoreFacts.
Import Store.










End StoreFacts.

(** ** The dispatcher and the key policy *)

Section DispatcherFacts.
Import Dispatcher.
Local Open Scope string_scope.

Ltac on_table t :=
  destruct (String.eqb_spec t "SalesDetail") as [-> | ?];
  [| destruct (String.eqb_spec t "Sales") as [-> | ?];
  [| destruct (String.eqb_spec t "StockItems") as [-> | ?];
  [| destruct (String.eqb_spec t "MenuItem") as [-> | ?];
  [| destruct (String.eqb_spec t "SubMenuLinkDetail") as [-> | ?];
  [| destruct (String.eqb_spec t "PaymentReceived") as [-> | ?];
  [| destruct (String.eqb_spec t "Payment") as [-> | ?]]]]]]].

Ltac on_business bt :=
  destruct (String.eqb_spec bt "retail") as [-> | ?];
  [| destruct (String.eqb_spec bt "hospitality") as [-> | ?]].

Ltac join_texts :=
  repeat match goal with
         | |- context [String.append ?a ?b] =>
             let r := eval compute in (String.append a b) in
             change (String.append a b) with r
         end.

Ltac on_lookups pd :=
  unfold lacks_both, old_or_new, Js.has, Js.get, Js.or; cbn; join_texts;
  repeat match goal with
         | |- context [Js.get_own pd ?c] =>
             destruct (Js.get_own pd c) as [? |] eqn:?
         end;
  cbn.

Ltac on_truthy :=
  repeat match goal with
         | |- context [Js.truthy ?v] => destruct (Js.truthy v) eqn:?
         end;
  cbn.

Lemma update_where_thrown (t bt : string) (pd : Js.object)
    (cols : list string) :
  Policy.primary_key t bt = Some cols ->
  existsb (lacks_both pd) cols = true ->
  exists m, update_where t bt pd = Thrown m.
Proof.
  unfold Policy.primary_key, update_where, require_update.
  on_table t; on_business bt; cbn; intros [= <-]; on_lookups pd;
    try discriminate; eauto.
Qed.

Lemma update_where_ok (t bt : string) (pd : Js.object)
    (cols fields : list string) (values : list Js.value) :
  Policy.primary_key t bt = Some cols ->
  update_where t bt pd = Ok (fields, values) ->
  fields = cols /\ values = map (old_or_new pd) cols
  /\ existsb (lacks_both pd) cols = false.
Proof.
  unfold Policy.primary_key, update_where, require_update.
  on_table t; on_business bt; cbn; intros [= <-]; on_lookups pd;
    on_truthy; try discriminate; intros [= <- <-]; auto.
Qed.

Lemma update_where_present (t bt : string) (pd : Js.object)
    (cols : list string) :
  Policy.primary_key t bt = Some cols ->
  In t Policy.named_tables ->
  existsb (lacks_both pd) cols = false ->
  update_where t bt pd = Ok (cols, map (old_or_new pd) cols).
Proof.
  unfold Policy.primary_key, update_where, require_update.
  intros Hp Hnamed. revert Hp.
  on_table t; on_business bt; cbn; intros [= <-]; on_lookups pd;
    try discriminate; try reflexivity.
  all: cbn in Hnamed; intuition congruence.
Qed.

Lemma delete_where_thrown (t bt : string) (pd : Js.object)
    (cols : list string) :
  Policy.primary_key t bt = Some cols ->
  t <> "SubMenuLinkDetail" ->
  forallb (Js.has pd) cols = false ->
  exists m, delete_where t bt pd = Thrown m.
Proof.
  unfold Policy.primary_key, delete_where, require_delete.
  on_table t; on_business bt; cbn; intros [= <-] Hsub; on_lookups pd;
    try discriminate; try congruence; eauto.
Qed.

Lemma delete_where_ok (t bt : string) (pd : Js.object)
    (cols fields : list string) (values : list Js.value) :
  Policy.primary_key t bt = Some cols ->
  t <> "SubMenuLinkDetail" ->
  delete_where t bt pd = Ok (fields, values) ->
  fields = cols /\ values = map (Js.get pd) cols
  /\ forallb (Js.has pd) cols = true.
Proof.
  unfold Policy.primary_key, delete_where, require_delete.
  on_table t; on_business bt; cbn; intros [= <-] Hsub; on_lookups pd;
    try discriminate; try congruence; intros [= <- <-]; auto.
Qed.

Lemma delete_where_present (t bt : string) (pd : Js.object)
    (cols : list string) :
  Policy.primary_key t bt = Some cols ->
  t <> "SubMenuLinkDetail" ->
  forallb (Js.has pd) cols = true ->
  delete_where t bt pd = Ok (cols, map (Js.get pd) cols).
Proof.
  unfold Policy.primary_key, delete_where, require_delete.
  on_table t; on_business bt; cbn; intros [= <-] Hsub; on_lookups pd;
    try discriminate; try congruence; try reflexivity.
Qed.

Lemma policy_columns_nonempty (t bt : string) (cols : list string) :
  Policy.primary_key t bt = Some cols -> cols <> [].
Proof.
  unfold Policy.primary_key.
  repeat match goal with
         | |- context [if ?b then _ else _] => destruct b
         end; intros [= <-]; discriminate.
Qed.

Lemma join_assign_nonempty (sep : string) (l : list string) :
  l <> [] -> JsString.join sep (map assign l) <> EmptyString.
Proof.
  destruct l as [| k [| k' l]]; [congruence | |]; intros _; discriminate.
Qed.

Lemma update_statement_ok (t bt : string) (pd : Js.object)
    (stmt : statement) :
  update_statement t bt pd = Ok stmt ->
  exists fields values,
    update_where t bt pd = Ok (fields, values)
    /\ sql stmt
       = "UPDATE " ++ t ++ " SET "
         ++ JsString.join ", "
              (map assign (List.filter not_old (Js.keys pd)))
         ++ " WHERE " ++ JsString.join " AND " (map assign fields)
    /\ params stmt
       = (map (Js.get pd) (List.filter not_old (Js.keys pd)) ++ values)%list.
Proof.
  unfold update_statement.
  destruct (update_where t bt pd) as [[fields values] | m]; [| discriminate].
  destruct (String.eqb _ EmptyString); [discriminate |].
  destruct (length fields =? 0)%nat; [discriminate |].
  intros [= <-]. exists fields, values. auto.
Qed.

Lemma update_statement_thrown (t bt : string) (pd : Js.object) (m : string) :
  update_where t bt pd = Thrown m -> update_statement t bt pd = Thrown m.
Proof. unfold update_statement. now intros ->. Qed.

Lemma update_statement_present (t bt : string) (pd : Js.object)
    (fields : list string) (values : list Js.value) :
  update_where t bt pd = Ok (fields, values) ->
  fields <> [] ->
  List.filter not_old (Js.keys pd) <> [] ->
  exists stmt, update_statement t bt pd = Ok stmt.
Proof.
  intros Hw Hf Hset. unfold update_statement. rewrite Hw.
  destruct (String.eqb_spec
              (JsString.join ", "
                 (map assign (List.filter not_old (Js.keys pd))))
              EmptyString) as [He | _].
  - now apply join_assign_nonempty in He.
  - destruct fields; [congruence |]. cbn. eauto.
Qed.

Lemma delete_statement_ok (t bt : string) (pd : Js.object)
    (stmt : statement) :
  delete_statement t bt pd = Ok stmt ->
  exists fields values,
    delete_where t bt pd = Ok (fields, values)
    /\ sql stmt = "DELETE FROM " ++ t ++ " WHERE "
                  ++ JsString.join " AND " (map assign fields)
    /\ params stmt = values.
Proof.
  unfold delete_statement.
  destruct (delete_where t bt pd) as [[fields values] | m]; [| discriminate].
  destruct (length fields =? 0)%nat; [discriminate |].
  intros [= <-]. exists fields, values. auto.
Qed.

Lemma build_update (t bt : string) (pd : Js.object) :
  build_statement t (Js.Str "UPDATE") (Js.Obj pd) bt
  = update_statement t bt pd.
Proof. reflexivity. Qed.

Lemma build_delete (t bt : string) (pd : Js.object) :
  build_statement t (Js.Str "DELETE") (Js.Obj pd) bt
  = delete_statement t bt pd.
Proof. reflexivity. Qed.

(** C3, as amended.  In the advanced dispatcher, for a table and business
    type with an entry in the policy table: a statement built for an UPDATE
    has exactly the columns of the entry in its WHERE clause, bound to the
    pre-image or the value of each, and is built only when each column is
    there in one of the two forms; when one is absent in both, the
    operation is refused with an error.  For a DELETE on a table other than
    SubMenuLinkDetail likewise, with the values of the payload itself: the
    statement is built exactly when every column of the entry is there. *)
Theorem advanced_where_follows_policy
    (t bt : string) (pd : Js.object) (cols : list string) :
  Policy.primary_key t bt = Some cols ->
  let update := build_statement t (Js.Str "UPDATE") (Js.Obj pd) bt in
  let delete := build_statement t (Js.Str "DELETE") (Js.Obj pd) bt in
  (forall stmt, update = Ok stmt ->
     sql stmt
     = "UPDATE " ++ t ++ " SET "
       ++ JsString.join ", " (map assign (List.filter not_old (Js.keys pd)))
       ++ " WHERE " ++ JsString.join " AND " (map assign cols)
     /\ params stmt
        = (map (Js.get pd) (List.filter not_old (Js.keys pd))
           ++ map (old_or_new pd) cols)%list
     /\ existsb (lacks_both pd) cols = false)
  /\ (existsb (lacks_both pd) cols = true -> exists m, update = Thrown m)
  /\ (In t Policy.named_tables ->
      existsb (lacks_both pd) cols = false ->
      List.filter not_old (Js.keys pd) <> [] ->
      exists stmt, update = Ok stmt)
  /\ (t <> "SubMenuLinkDetail" ->
      (forall stmt, delete = Ok stmt ->
         sql stmt = "DELETE FROM " ++ t ++ " WHERE "
                    ++ JsString.join " AND " (map assign cols)
         /\ params stmt = map (Js.get pd) cols
         /\ forallb (Js.has pd) cols = true)
      /\ (forallb (Js.has pd) cols = false -> exists m, delete = Thrown m)
      /\ (forallb (Js.has pd) cols = true -> exists stmt, delete = Ok stmt)).
Proof.
  intros Hp update delete. subst update delete.
  rewrite build_update, build_delete.
  split; [| split; [| split]].
  - intros stmt Hs.
    destruct (update_statement_ok _ _ _ _ Hs) as (f & v & Hw & Hsql & Hpar).
    destruct (update_where_ok _ _ _ _ _ _ Hp Hw) as (-> & -> & Hall).
    auto.
  - intros Hmiss.
    destruct (update_where_thrown _ _ pd _ Hp Hmiss) as [m Hm].
    exists m. now apply update_statement_thrown.
  - intros Hnamed Hall Hset.
    eapply update_statement_present;
      [apply (update_where_present _ _ _ _ Hp Hnamed Hall) | | exact Hset].
    eapply policy_columns_nonempty, Hp.
  - intros Hsub. split; [| split].
    + intros stmt Hs.
      destruct (delete_statement_ok _ _ _ _ Hs) as (f & v & Hw & Hsql & Hpar).
      destruct (delete_where_ok _ _ _ _ _ _ Hp Hsub Hw) as (-> & -> & Hall).
      auto.
    + intros Hmiss.
      destruct (delete_where_thrown _ _ pd _ Hp Hsub Hmiss) as [m Hm].
      exists m. unfold delete_statement. now rewrite Hm.
    + intros Hall. unfold delete_statement.
      rewrite (delete_where_present _ _ _ _ Hp Hsub Hall).
      pose proof (policy_columns_nonempty _ _ _ Hp) as Hne.
      destruct cols; [congruence |]. cbn. eauto.
Qed.
End DispatcherFacts.

(** ** The matcher *)

Section RegexFacts.
Import JsString Regex.
Context {R : Type}.

Lemma firstn_consumed {A} (a b : list A) :
  firstn (length (a ++ b) - length b) (a ++ b) = a.
Proof.
  rewrite length_app, Nat.add_sub.
  rewrite firstn_app, Nat.sub_diag, firstn_all. cbn. apply app_nil_r.
Qed.

(** A greedy quantifier over a character class runs to the end of the
    stretch of characters of the class, when the rest of the pattern matches
    from there. *)
Lemma star_class_greedy (ci negated : bool) (items : list class_item)
    (xs rest : chars) (cs : captures) (k : cont (R := R)) (x : R) (n : nat) :
  Forall (fun c => class_matches ci negated items c = true) xs ->
  match rest with
  | [] => True
  | c :: _ => class_matches ci negated items c = false
  end ->
  (length (xs ++ rest) <= n)%nat ->
  k rest cs = Some x ->
  star_loop true (run ci (Cls negated items)) k n (xs ++ rest) cs = Some x.
Proof.
  intros Hxs Hrest. revert n.
  induction Hxs as [| c xs Hc Hxs IH]; intros n Hn Hk; cbn [app] in *.
  - destruct n as [| n]; cbn [star_loop]; [exact Hk |].
    destruct rest as [| c rest']; cbn [run]; [now rewrite Hk |].
    now rewrite Hrest, Hk.
  - destruct n as [| n]; cbn [length] in Hn; [lia |].
    cbn [star_loop run]. rewrite Hc.
    assert (Hlt : (length (xs ++ rest) <? length (c :: xs ++ rest))%nat = true)
      by (apply Nat.ltb_lt; cbn; lia).
    rewrite Hlt, IH; [reflexivity | lia | exact Hk].
Qed.

(** A lazy quantifier over any character stops at the first place from
    which the rest of the pattern matches. *)
Lemma star_any_lazy (ci : bool) (xs rest : chars) (cs : captures)
    (k : cont (R := R)) (x : R) (n : nat) :
  (forall a b, xs = a ++ b -> b <> [] -> k (b ++ rest) cs = None) ->
  (length (xs ++ rest) <= n)%nat ->
  k rest cs = Some x ->
  star_loop false (run ci AnyChar) k n (xs ++ rest) cs = Some x.
Proof.
  revert n. induction xs as [| c xs IH]; intros n Hnone Hn Hk; cbn [app] in *.
  - destruct n as [| n]; cbn [star_loop]; now rewrite Hk.
  - destruct n as [| n]; cbn [length] in Hn; [lia |].
    cbn [star_loop].
    pose proof (Hnone [] (c :: xs) eq_refl ltac:(discriminate)) as H0.
    cbn [app] in H0. rewrite H0.
    unfold AnyChar at 1. cbn [run class_matches existsb xorb].
    assert (Hlt : (length (xs ++ rest) <? length (c :: xs ++ rest))%nat = true)
      by (apply Nat.ltb_lt; cbn; lia).
    rewrite Hlt. apply IH; [| lia | exact Hk].
    intros a b -> Hb. apply (Hnone (c :: a) b eq_refl Hb).
Qed.

End RegexFacts.

Section FirstChoice.
Import JsString Regex Matching.

Lemma takes_eps ci rest cs : takes ci Eps [] rest cs cs.
Proof. intros R k x Hk. exact Hk. Qed.

Lemma takes_lit (c : ascii) rest cs : takes false (Lit c) [c] rest cs cs.
Proof. intros R k x Hk. cbn. now rewrite Ascii.eqb_refl. Qed.

Lemma takes_seq ci a b xs ys rest cs cs1 cs2 :
  takes ci a xs (ys ++ rest) cs cs1 ->
  takes ci b ys rest cs1 cs2 ->
  takes ci (Seq a b) (xs ++ ys) rest cs cs2.
Proof.
  intros Ha Hb R k x Hk. cbn [run]. rewrite <- app_assoc.
  apply Ha. now apply Hb.
Qed.

Lemma takes_star_class ci negated items xs rest cs :
  Forall (fun c => class_matches ci negated items c = true) xs ->
  match rest with
  | [] => True
  | c :: _ => class_matches ci negated items c = false
  end ->
  takes ci (Star true (Cls negated items)) xs rest cs cs.
Proof.
  intros Hxs Hrest R k x Hk. cbn [run].
  now apply star_class_greedy.
Qed.

Lemma takes_plus_class ci negated items c xs rest cs :
  class_matches ci negated items c = true ->
  Forall (fun c => class_matches ci negated items c = true) xs ->
  match rest with
  | [] => True
  | c :: _ => class_matches ci negated items c = false
  end ->
  takes ci (Plus (Cls negated items)) (c :: xs) rest cs cs.
Proof.
  intros Hc Hxs Hrest. unfold Plus.
  apply (takes_seq ci _ _ [c] xs rest cs cs cs).
  - intros R k x Hk. cbn. now rewrite Hc.
  - now apply takes_star_class.
Qed.

Lemma takes_group ci i a xs rest cs cs' :
  takes ci a xs rest cs cs' ->
  takes ci (Group i a) xs rest cs ((i, xs) :: cs').
Proof.
  intros Ha R k x Hk. cbn [run]. apply Ha.
  now rewrite firstn_consumed.
Qed.

Lemma strip_prefix_app (t rest : chars) :
  strip_prefix false t (t ++ rest) = Some rest.
Proof.
  induction t as [| c t IH]; cbn; [reflexivity |].
  now rewrite Ascii.eqb_refl.
Qed.

Lemma takes_backref i t rest cs :
  capture cs i = Some t -> takes false (Backref i) t rest cs cs.
Proof.
  intros Hc R k x Hk. cbn [run]. now rewrite Hc, strip_prefix_app.
Qed.

Lemma takes_lits (cl rest : chars) cs :
  takes false (seqs (map Lit cl)) cl rest cs cs.
Proof.
  induction cl as [| c cl IH]; cbn [map seqs fold_right].
  - apply takes_eps.
  - change (c :: cl) with ([c] ++ cl).
    eapply takes_seq; [apply takes_lit | exact IH].
Qed.

Lemma run_lits_fail {R} (cl s : chars) cs (k : cont (R := R)) (tail : re) :
  starts_with cl s = false ->
  run false (fold_right Seq tail (map Lit cl)) s cs k = None.
Proof.
  revert s. induction cl as [| c cl IH]; intros s H; cbn in H; [discriminate |].
  cbn [map fold_right run]. destruct s as [| d s]; [reflexivity |].
  destruct (Ascii.eqb c d); [| reflexivity]. cbn in H. now apply IH.
Qed.

Lemma search_found ci r s cs rest :
  match_here ci r s = Some (cs, rest) -> search ci r s = Some ([], cs, rest).
Proof. intros H. destruct s; cbn [search]; now rewrite H. Qed.

Lemma search_skip ci r (s X : chars) :
  (forall a b, s = a ++ b -> b <> [] -> match_here ci r (b ++ X) = None) ->
  search ci r (s ++ X)
  = match search ci r X with
    | Some (skipped, cs, rest) => Some (s ++ skipped, cs, rest)
    | None => None
    end.
Proof.
  induction s as [| c s IH]; intros H; cbn [app].
  - now destruct (search ci r X) as [[[? ?] ?] |].
  - cbn [search].
    pose proof (H [] (c :: s) eq_refl ltac:(discriminate)) as H0.
    cbn [app] in H0. rewrite H0, IH.
    + now destruct (search ci r X) as [[[? ?] ?] |].
    + intros a b -> Hb. apply (H (c :: a) b eq_refl Hb).
Qed.

Lemma includes_chars_app (p a b : chars) :
  includes_chars p (a ++ p ++ b) = true.
Proof.
  assert (Hp : forall q r, starts_with q (q ++ r) = true).
  { induction q as [| c q IHq]; intros r; cbn; [reflexivity |].
    now rewrite Ascii.eqb_refl, IHq. }
  induction a as [| c a IH]; cbn [app].
  - destruct (p ++ b) eqn:E; cbn [includes_chars]; rewrite <- ?E, Hp; reflexivity.
  - cbn [includes_chars]. rewrite IH. apply orb_true_r.
Qed.

Lemma takes_match_here ci a xs rest cs' :
  takes ci a xs rest [] cs' ->
  match_here ci a (xs ++ rest) = Some (cs', rest).
Proof. intros Ha. unfold match_here. now apply Ha. Qed.
End FirstChoice.

Section Clear.
Import JsString Regex Matching.

Lemma clear_nil pat X : clear pat [] X.
Proof.
  intros a b H Hb. symmetry in H. apply app_eq_nil in H as [_ ->]. congruence.
Qed.

Lemma clear_cons pat c s X :
  starts_with pat (c :: s ++ X) = false ->
  clear pat s X -> clear pat (c :: s) X.
Proof.
  intros Hc Hs a b H Hb. destruct a as [| c' a]; cbn [app] in H.
  - subst b. exact Hc.
  - injection H as -> ->. now apply (Hs a b).
Qed.

Lemma clear_app pat s1 s2 X :
  clear pat s1 (s2 ++ X) -> clear pat s2 X -> clear pat (s1 ++ s2) X.
Proof.
  induction s1 as [| c s1 IH]; intros H1 H2; cbn [app]; [exact H2 |].
  apply clear_cons.
  - pose proof (H1 [] (c :: s1) eq_refl ltac:(discriminate)) as H.
    cbn [app] in H. now rewrite <- app_assoc.
  - apply IH; [| exact H2].
    intros a b -> Hb. apply (H1 (c :: a) b eq_refl Hb).
Qed.

Lemma clear_other_head (p0 : ascii) pat s X :
  Forall (fun c => c <> p0) s -> clear (p0 :: pat) s X.
Proof.
  induction 1 as [| c s Hc Hs IH]; [apply clear_nil |].
  apply clear_cons; [| exact IH]. cbn [starts_with].
  destruct (Ascii.eqb_spec p0 c); [congruence | reflexivity].
Qed.

(** A tag that is not [name] does not spell [name] before its closing
    sign. *)
Lemma starts_with_other_name (name t X : chars) :
  Forall (fun c => c <> ">"%char) name ->
  Forall (fun c => c <> ">"%char) t ->
  t <> name ->
  starts_with (name ++ [">"%char]) (t ++ ">"%char :: X) = false.
Proof.
  intros Hname. revert t.
  induction Hname as [| n0 name Hn0 Hname IH]; intros t Ht Hne; cbn [app].
  - destruct t as [| t0 t]; [congruence |]. apply Forall_cons in Ht as [Ht0 _].
    cbn [starts_with app].
    destruct (Ascii.eqb_spec ">"%char t0); [congruence | reflexivity].
  - destruct t as [| t0 t]; cbn [starts_with app].
    + destruct (Ascii.eqb_spec n0 ">"%char); [congruence | reflexivity].
    + apply Forall_cons in Ht as [_ Ht].
      destruct (Ascii.eqb_spec n0 t0) as [-> | _]; [| reflexivity].
      cbn [andb]. apply IH; [exact Ht | congruence].
Qed.
End Clear.

(** ** The decoder *)

Section XmlFacts.
Import JsString Regex Xml Wire Matching.

Lemma not_char_matches (d c : ascii) :
  c <> d -> class_matches false true [CChar d] c = true.
Proof.
  intros H. unfold class_matches. cbn [existsb item_matches xorb orb].
  destruct (Ascii.eqb_spec d c); [congruence | reflexivity].
Qed.

Lemma not_char_stops (d : ascii) :
  class_matches false true [CChar d] d = false.
Proof.
  unfold class_matches. cbn [existsb item_matches xorb orb].
  now rewrite Ascii.eqb_refl.
Qed.

Lemma match_tag_pair (t v rest : chars) :
  t <> [] ->
  Forall (fun c => c <> ">"%char) t ->
  Forall (fun c => c <> "<"%char) v ->
  match_here false tagRegex (pair_chars t v ++ rest)
  = Some ([(2, v); (1, t)], rest).
Proof.
  intros Ht Htag Hval.
  destruct t as [| t0 t]; [congruence |]. clear Ht.
  apply Forall_cons in Htag as [Ht0 Htag].
  set (name := t0 :: t).
  assert (Hshape : pair_chars name v
                   = ["<"%char] ++ name ++ [">"%char] ++ v ++ ["<"%char]
                     ++ ["/"%char] ++ name ++ [">"%char] ++ [])
    by reflexivity.
  rewrite Hshape. clear Hshape.
  apply takes_match_here. unfold tagRegex, seqs. cbn [fold_right].
  repeat (eapply takes_seq).
  - apply takes_lit.
  - apply takes_group. subst name. apply takes_plus_class.
    + now apply not_char_matches.
    + eapply Forall_impl; [exact Htag |]. intros c Hc. now apply not_char_matches.
    + apply not_char_stops.
  - apply takes_lit.
  - apply takes_group. apply takes_star_class.
    + eapply Forall_impl; [exact Hval |]. intros c Hc. now apply not_char_matches.
    + apply not_char_stops.
  - apply takes_lit.
  - apply takes_lit.
  - apply takes_backref. reflexivity.
  - apply takes_lit.
  - apply takes_eps.
Qed.

Lemma of_string_app (a b : string) :
  of_string (a ++ b)%string = of_string a ++ of_string b.
Proof.
  unfold of_string. induction a as [| c a IH]; [reflexivity |].
  change (String c a ++ b)%string with (String c (a ++ b)%string).
  cbn [list_ascii_of_string app]. now rewrite IH.
Qed.

Lemma to_of_string (s : string) : to_string (of_string s) = s.
Proof. apply string_of_list_ascii_of_string. Qed.

Lemma of_to_string (l : chars) : of_string (to_string l) = l.
Proof. apply list_ascii_of_string_of_list_ascii. Qed.

Lemma of_string_pair_text (p : pair) : of_string (pair_text p) = pair_of p.
Proof.
  unfold pair_text, pair_of, pair_chars.
  rewrite !of_string_app. reflexivity.
Qed.

Lemma of_string_document (ps : list pair) :
  of_string (document ps) = flat_map pair_of ps.
Proof.
  unfold document. induction ps as [| p ps IH]; [reflexivity |].
  cbn [map String.concat flat_map].
  destruct ps as [| q ps].
  - cbn [map flat_map]. rewrite app_nil_r. apply of_string_pair_text.
  - change (map pair_text (q :: ps))
      with (pair_text q :: map pair_text ps) at 1. cbn iota.
    rewrite !of_string_app. change (of_string EmptyString) with (@nil ascii).
    cbn [app]. rewrite of_string_pair_text. f_equal. exact IH.
Qed.

Lemma none_of_Forall (bad : list ascii) (s : string) (c : ascii) :
  none_of bad s = true -> In c bad -> Forall (fun d => d <> c) (of_string s).
Proof.
  unfold none_of. intros H Hc. apply Forall_forall. intros d Hd%list_elem_of_In Hdc.
  rewrite forallb_forall in H. specialize (H d Hd).
  apply negb_true_iff in H.
  assert (existsb (Ascii.eqb d) bad = true); [| congruence].
  apply existsb_exists. exists c. split; [exact Hc |].
  subst d. apply Ascii.eqb_refl.
Qed.

Lemma pair_ok_facts (p : pair) : pair_ok p = true -> pair_facts p.
Proof.
  unfold pair_ok, tag_ok, value_ok.
  intros [[Hne Htag]%andb_prop [Hval _]%andb_prop]%andb_prop.
  split.
  - destruct (fst p); [discriminate | cbn; discriminate].
  - apply (none_of_Forall _ _ _ Htag). cbn. auto.
  - apply (none_of_Forall _ _ _ Htag). cbn. auto.
  - apply (none_of_Forall _ _ _ Htag). cbn. auto.
  - apply (none_of_Forall _ _ _ Hval). cbn. auto.
Qed.

Lemma pair_of_length (p : pair) : (0 < length (pair_of p))%nat.
Proof. unfold pair_of, pair_chars. cbn. lia. Qed.

Lemma exec_all_pairs (ps : list pair) (n : nat) :
  Forall (fun p => pair_ok p = true) ps ->
  (length ps < n)%nat ->
  exec_all n false tagRegex (flat_map pair_of ps) = map pair_captures ps.
Proof.
  intros Hps. revert n. induction Hps as [| p ps Hp Hps IH]; intros n Hn.
  - destruct n; [lia |]. reflexivity.
  - destruct n as [| n]; [lia |]. cbn [length] in Hn.
    cbn [flat_map map exec_all].
    apply pair_ok_facts in Hp. destruct Hp.
    pose proof (match_tag_pair _ _ (flat_map pair_of ps)
                  tag_nonempty0 tag_no_gt0 value_no_lt0) as Hm.
    change (pair_chars (of_string (fst p)) (of_string (snd p)))
      with (pair_of p) in Hm.
    rewrite (search_found _ _ _ _ _ Hm).
    assert (Hlt : (length (flat_map pair_of ps)
                   <? length (pair_of p ++ flat_map pair_of ps) - length (@nil ascii))%nat
                  = true).
    { apply Nat.ltb_lt. rewrite length_app. pose proof (pair_of_length p).
      cbn [length]. lia. }
    rewrite Hlt. fold (pair_captures p).
    f_equal. apply IH. lia.
Qed.

Lemma flat_map_length_le (ps : list pair) :
  (length ps <= length (flat_map pair_of ps))%nat.
Proof.
  induction ps as [| p ps IH]; cbn [flat_map length]; [lia |].
  rewrite length_app. pose proof (pair_of_length p). lia.
Qed.

Lemma store_pair_decoded (prefix : string) (o : Js.object) (p : pair) :
  store_pair prefix o (pair_captures p)
  = (let value := trim (snd p) in
     if String.eqb value EmptyString then o
     else Js.set o (prefix ++ fst p)%string (Js.Str value)).
Proof.
  unfold store_pair, pair_captures, group_text. cbn [capture Nat.eqb].
  rewrite !to_of_string. cbn zeta.
  now destruct (String.eqb (trim (snd p)) EmptyString).
Qed.

Lemma scan_pairs_decoded (prefix : string) (ps : list pair)
    (result : Js.object) :
  Forall (fun p => pair_ok p = true) ps ->
  scan_pairs prefix (flat_map pair_of ps) result = decoded prefix ps result.
Proof.
  intros Hps. unfold scan_pairs, decoded.
  rewrite exec_all_pairs by (auto; pose proof (flat_map_length_le ps); lia).
  revert result. induction ps as [| p ps IH]; intros result; [reflexivity |].
  cbn [map fold_left]. apply Forall_cons in Hps as [_ Hps].
  rewrite store_pair_decoded. now apply IH.
Qed.

(** A document that does not hold both envelope markers is read as a plain
    sequence of pairs. *)
Lemma flat_document_decoded (ps : list pair) :
  Forall (fun p => pair_ok p = true) ps ->
  includes (document ps) "<new>" && includes (document ps) "<old>" = false ->
  parseXMLToObject (document ps) = decoded EmptyString ps [].
Proof.
  intros Hps Hflat. unfold parseXMLToObject. rewrite Hflat.
  rewrite of_string_document. now apply scan_pairs_decoded.
Qed.

Lemma clear_pair (pat t v X : chars) :
  Forall (fun c => c <> "<"%char) t ->
  Forall (fun c => c <> "<"%char) v ->
  starts_with pat (t ++ ">"%char :: v ++ "<"%char :: "/"%char :: t
                     ++ [">"%char] ++ X) = false ->
  starts_with pat ("/"%char :: t ++ [">"%char] ++ X) = false ->
  clear ("<"%char :: pat) (pair_chars t v) X.
Proof.
  intros Ht Hv Hopen Hclose. unfold pair_chars.
  apply clear_cons.
  { cbn [starts_with]. rewrite Ascii.eqb_refl. cbn [andb].
    repeat first [rewrite <- app_assoc | progress cbn [app]].
    exact Hopen. }
  apply clear_app; [now apply clear_other_head |].
  apply clear_cons; [reflexivity |].
  apply clear_app; [now apply clear_other_head |].
  apply clear_cons.
  { cbn [starts_with]. rewrite Ascii.eqb_refl. cbn [andb].
    repeat first [rewrite <- app_assoc | progress cbn [app]].
    exact Hclose. }
  apply clear_cons; [reflexivity |].
  apply clear_app; [now apply clear_other_head |].
  apply clear_cons; [reflexivity | apply clear_nil].
Qed.

(** Among pairs none of whose tags is [name], neither the opening nor the
    closing tag of [name] begins anywhere. *)
Lemma clear_pairs_closing (name : chars) (ps : list pair) (X : chars) :
  Forall (fun c => c <> ">"%char) name ->
  Forall (fun p => pair_ok p = true) ps ->
  Forall (fun p => of_string (fst p) <> name) ps ->
  clear ("<"%char :: "/"%char :: name ++ [">"%char]) (flat_map pair_of ps) X.
Proof.
  intros Hname Hps Hne. revert X.
  induction Hps as [| p ps Hp Hps IH]; intros X; [apply clear_nil |].
  apply Forall_cons in Hne as [Hp_ne Hne]. cbn [flat_map].
  apply clear_app; [| now apply IH].
  apply pair_ok_facts in Hp. destruct Hp. unfold pair_of.
  apply clear_pair; try assumption.
  - destruct (of_string (fst p)) as [| t0 t]; [congruence |].
    apply Forall_cons in tag_no_slash0 as [Hslash _].
    cbn [app starts_with].
    destruct (Ascii.eqb_spec "/"%char t0); [congruence | reflexivity].
  - cbn [starts_with]. rewrite Ascii.eqb_refl. cbn [andb].
    apply starts_with_other_name; assumption.
Qed.

Lemma clear_pairs_opening (n0 : ascii) (name : chars) (ps : list pair)
    (X : chars) :
  n0 <> "/"%char ->
  Forall (fun c => c <> ">"%char) (n0 :: name) ->
  Forall (fun p => pair_ok p = true) ps ->
  Forall (fun p => of_string (fst p) <> n0 :: name) ps ->
  clear ("<"%char :: (n0 :: name) ++ [">"%char]) (flat_map pair_of ps) X.
Proof.
  intros Hn0 Hname Hps Hne. revert X.
  induction Hps as [| p ps Hp Hps IH]; intros X; [apply clear_nil |].
  apply Forall_cons in Hne as [Hp_ne Hne]. cbn [flat_map].
  apply clear_app; [| now apply IH].
  apply pair_ok_facts in Hp. destruct Hp. unfold pair_of.
  apply clear_pair; try assumption.
  - apply starts_with_other_name; assumption.
  - cbn [app starts_with].
    destruct (Ascii.eqb_spec n0 "/"%char); [congruence | reflexivity].
Qed.

Lemma envelope_match (name : string) (body rest : chars) :
  clear (of_string ("</" ++ name ++ ">")%string) body
        (of_string ("</" ++ name ++ ">")%string ++ rest) ->
  match_here false (envelope name)
    (of_string ("<" ++ name ++ ">")%string ++ body
     ++ of_string ("</" ++ name ++ ">")%string ++ rest)
  = Some ([(1, body)], rest).
Proof.
  intros Hclear. unfold match_here, envelope, seqs, lits.
  cbn [fold_right run].
  apply (takes_lits (of_string ("<" ++ name ++ ">")%string)).
  apply star_any_lazy.
  - intros a b Hab Hb. apply run_lits_fail. now apply (Hclear a b).
  - lia.
  - apply (takes_lits (of_string ("</" ++ name ++ ">")%string)).
    cbn [run]. now rewrite firstn_consumed.
Qed.

Lemma of_string_enveloped (news olds : list pair) :
  of_string (enveloped news olds)
  = of_string "<new>" ++ flat_map pair_of news ++ of_string "</new>"
    ++ of_string "<old>" ++ flat_map pair_of olds ++ of_string "</old>" ++ [].
Proof.
  unfold enveloped. rewrite !of_string_app, !of_string_document.
  rewrite app_nil_r. change (of_string "</new><old>")
    with (of_string "</new>" ++ of_string "<old>").
  now rewrite <- !app_assoc.
Qed.

Lemma tag_chars_differ (name : string) (ps : list pair) :
  Forall (tag_is_not name) ps ->
  Forall (fun p => of_string (fst p) <> of_string name) ps.
Proof.
  intros H. eapply Forall_impl; [exact H |]. intros p Hp He. apply Hp.
  rewrite <- (to_of_string (fst p)), He. apply to_of_string.
Qed.

(** The two halves of an envelope are read apart and prefixed. *)
Lemma envelope_decoded (news olds : list pair) :
  Forall (fun p => pair_ok p = true) news ->
  Forall (fun p => pair_ok p = true) olds ->
  Forall (tag_is_not "new") news ->
  Forall (tag_is_not "old") news ->
  Forall (tag_is_not "old") olds ->
  parseXMLToObject (enveloped news olds)
  = decoded "old_" olds (decoded EmptyString news []).
Proof.
  intros Hnews Holds Hnn Hno Hoo.
  apply tag_chars_differ in Hnn, Hno, Hoo.
  unfold parseXMLToObject.
  assert (Hsplit :
            of_string "<new>" ++ flat_map pair_of news
            ++ of_string "</new>" ++ of_string "<old>"
            ++ flat_map pair_of olds ++ of_string "</old>" ++ []
            = (of_string "<new>" ++ flat_map pair_of news
               ++ of_string "</new>")
              ++ of_string "<old>" ++ flat_map pair_of olds
              ++ of_string "</old>" ++ [])
    by (now rewrite <- !app_assoc).
  assert (Hinc : includes (enveloped news olds) "<new>"
                 && includes (enveloped news olds) "<old>" = true).
  { unfold includes. rewrite of_string_enveloped. apply andb_true_intro. split.
    - apply (includes_chars_app _ []).
    - rewrite Hsplit. apply includes_chars_app. }
  rewrite Hinc. rewrite of_string_enveloped.
  assert (Hnew : envelope_body "new"
                   (of_string "<new>" ++ flat_map pair_of news
                    ++ of_string "</new>" ++ of_string "<old>"
                    ++ flat_map pair_of olds ++ of_string "</old>" ++ [])
                 = Some (flat_map pair_of news)).
  { unfold envelope_body.
    rewrite (search_found false _ _ [(1, flat_map pair_of news)]
               (of_string "<old>" ++ flat_map pair_of olds
                ++ of_string "</old>" ++ [])); [reflexivity |].
    apply (envelope_match "new").
    apply (clear_pairs_closing (of_string "new")); try assumption.
    repeat constructor; discriminate. }
  assert (Hold : envelope_body "old"
                   (of_string "<new>" ++ flat_map pair_of news
                    ++ of_string "</new>" ++ of_string "<old>"
                    ++ flat_map pair_of olds ++ of_string "</old>" ++ [])
                 = Some (flat_map pair_of olds)).
  { unfold envelope_body. rewrite Hsplit.
    rewrite search_skip.
    - rewrite (search_found false _ _ [(1, flat_map pair_of olds)] []);
        [reflexivity |].
      apply (envelope_match "old").
      apply (clear_pairs_closing (of_string "old")); try assumption.
      repeat constructor; discriminate.
    - intros a b Hab Hb. unfold match_here, Xml.envelope, seqs, lits.
      cbn [fold_right run]. apply run_lits_fail.
      revert a b Hab Hb.
      change (clear (of_string "<old>")
                ((of_string "<new>" ++ flat_map pair_of news)
                 ++ of_string "</new>")
                (of_string "<old>" ++ flat_map pair_of olds
                 ++ of_string "</old>" ++ [])).
      rewrite <- app_assoc.
      apply clear_app; [| apply clear_app].
      + apply clear_cons; [reflexivity |].
        apply clear_other_head. repeat constructor; discriminate.
      + apply (clear_pairs_opening "o"%char (of_string "ld"));
          try assumption; [discriminate |].
        repeat constructor; discriminate.
      + apply clear_cons; [reflexivity |].
        apply clear_other_head. repeat constructor; discriminate. }
  rewrite Hnew, Hold.
  now rewrite !scan_pairs_decoded.
Qed.
End XmlFacts.

(** ** Reading the decoded map *)

Section ObjectFacts.
Import Js.

Lemma get_own_replace_own (o : object) (k k' : string) (v : value) :
  get_own (replace_own o k v) k'
  = if String.eqb k k'
    then (if has o k then Some v else None)
    else get_own o k'.
Proof.
  unfold has.
  induction o as [| [k0 v0] o IH]; cbn [replace_own get_own].
  - now destruct (String.eqb k k').
  - destruct (String.eqb_spec k0 k) as [-> | Hne]; cbn [get_own].
    + now destruct (String.eqb k k').
    + rewrite IH. destruct (String.eqb_spec k k') as [<- | Hkk'].
      * destruct (String.eqb_spec k0 k); [congruence | reflexivity].
      * reflexivity.
Qed.

Lemma get_own_insert_index (n : N) (o : object) (k k' : string) (v : value) :
  get_own o k = None ->
  get_own (insert_index n k v o) k'
  = if String.eqb k k' then Some v else get_own o k'.
Proof.
  induction o as [| [k0 v0] o IH]; cbn [insert_index get_own]; intros Hk.
  - reflexivity.
  - destruct (String.eqb_spec k0 k) as [-> | Hne]; [discriminate |].
    assert (Hcons : get_own ((k, v) :: (k0, v0) :: o) k'
                    = if String.eqb k k' then Some v
                      else if String.eqb k0 k' then Some v0
                           else get_own o k') by reflexivity.
    destruct (array_index k0) as [m |]; [destruct (n <? m)%N |];
      try exact Hcons.
    cbn [get_own]. rewrite IH by assumption.
    destruct (String.eqb_spec k0 k') as [<- | _]; [| reflexivity].
    destruct (String.eqb_spec k k0); [congruence | reflexivity].
Qed.

Lemma get_own_app_last (o : object) (k k' : string) (v : value) :
  get_own o k = None ->
  get_own (o ++ [(k, v)]) k'
  = if String.eqb k k' then Some v else get_own o k'.
Proof.
  induction o as [| [k0 v0] o IH]; cbn [app get_own]; intros Hk.
  - reflexivity.
  - destruct (String.eqb_spec k0 k) as [-> | Hne]; [discriminate |].
    rewrite IH by assumption.
    destruct (String.eqb_spec k0 k') as [<- | _]; [| reflexivity].
    destruct (String.eqb_spec k k0); [congruence | reflexivity].
Qed.

(** Reading a property back after an assignment. *)
Lemma get_own_set (o : object) (k k' : string) (v : value) :
  k <> "__proto__"%string ->
  get_own (set o k v) k'
  = if String.eqb k k' then Some v else get_own o k'.
Proof.
  intros Hk. unfold set.
  destruct (String.eqb_spec k "__proto__"); [congruence |].
  unfold has. destruct (get_own o k) as [old |] eqn:Hown.
  - rewrite get_own_replace_own. unfold has. now rewrite Hown.
  - destruct (array_index k).
    + now apply get_own_insert_index.
    + now apply get_own_app_last.
Qed.

Lemma get_own_set_other (o : object) (k k' : string) (v : value) :
  k <> k' -> get_own (set o k v) k' = get_own o k'.
Proof.
  intros Hne. destruct (String.eqb_spec k "__proto__") as [-> | Hk].
  - reflexivity.
  - rewrite get_own_set by assumption.
    destruct (String.eqb_spec k k'); [congruence | reflexivity].
Qed.
End ObjectFacts.

Section DecodedFacts.
Import JsString Wire.

Lemma decoded_cons (prefix : string) (p : pair) (ps : list pair)
    (o : Js.object) :
  decoded prefix (p :: ps) o
  = decoded prefix ps
      (if String.eqb (trim (snd p)) EmptyString then o
       else Js.set o (prefix ++ fst p)%string (Js.Str (trim (snd p)))).
Proof. reflexivity. Qed.

Lemma append_inj (a b c : string) : (a ++ b = a ++ c)%string -> b = c.
Proof.
  induction a as [| x a IH]; [auto |].
  change (String x a ++ b)%string with (String x (a ++ b)%string).
  change (String x a ++ c)%string with (String x (a ++ c)%string).
  intros [= H]. auto.
Qed.

(** Pairs that are blank, or write another key, leave a key alone. *)
Lemma decoded_untouched (prefix k : string) (ps : list pair)
    (o : Js.object) :
  Forall (fun q => (prefix ++ fst q)%string <> k \/ blank q) ps ->
  Js.get_own (decoded prefix ps o) k = Js.get_own o k.
Proof.
  intros H. revert o. induction H as [| q ps Hq Hps IH]; intros o.
  - reflexivity.
  - rewrite decoded_cons, IH.
    destruct (String.eqb_spec (trim (snd q)) EmptyString) as [_ | Hnb];
      [reflexivity |].
    destruct Hq as [Hq | Hq]; [| unfold blank in Hq; congruence].
    now apply get_own_set_other.
Qed.

Lemma other_tag_other_key (prefix t : string) (ps : list pair) :
  Forall (fun q => fst q <> t \/ blank q) ps ->
  Forall (fun q => (prefix ++ fst q)%string <> (prefix ++ t)%string
                   \/ blank q) ps.
Proof.
  intros H. eapply Forall_impl; [exact H |].
  intros q [Hq | Hq]; [left | now right].
  intros He. now apply append_inj in He.
Qed.

(** The pair that is the last one of its tag with a value that is not
    blank decides the entry. *)
Lemma decoded_entry (prefix : string) (before after : list pair) (p : pair)
    (o : Js.object) :
  ~ blank p ->
  (prefix ++ fst p)%string <> "__proto__"%string ->
  Forall (fun q => fst q <> fst p \/ blank q) after ->
  Js.get (decoded prefix (before ++ p :: after) o)
         (prefix ++ fst p)%string
  = Js.Str (trim (snd p)).
Proof.
  intros Hp Hproto Hafter. unfold Js.get. revert o.
  induction before as [| q before IH]; intros o; cbn [app].
  - rewrite decoded_cons, decoded_untouched
      by now apply other_tag_other_key.
    destruct (String.eqb_spec (trim (snd p)) EmptyString) as [Hb | _];
      [contradiction |].
    rewrite get_own_set by assumption. now rewrite String.eqb_refl.
  - rewrite decoded_cons. apply IH.
Qed.

Lemma old_key_not_proto (t : string) :
  ("old_" ++ t)%string <> "__proto__"%string.
Proof. discriminate. Qed.
End DecodedFacts.

(** ** The CSV coercion *)

Section CsvFacts.
Import JsString Regex CsvMapping Matching.



Lemma digit_not_dash (c : ascii) : is_digit c = true -> c <> "-"%char.
Proof. intros H ->. discriminate. Qed.
















End CsvFacts.

(** ** Sessions that never identified themselves *)

Section SessionFacts.
Import Server.
Context {answer : Type}.
Variable license : License.env.
Variable executeQuery : Js.value -> statement -> outcome answer.
Variable processSyncData :
  Js.value -> outcome (sync_report (answer := answer)).

(** The four handlers below never read the fields that [identify] binds on
    the socket: what they emit is what they emit on a fresh one. *)
Lemma sync_data_ignores_session (sock : socket) (data : Js.value) :
  sync_data license executeQuery processSyncData sock data
  = (sock,
     snd (sync_data license executeQuery processSyncData fresh data)).
Proof. unfold sync_data. repeat case_match; reflexivity. Qed.

Lemma batch_sync_ignores_session (sock : socket) (batch : list Js.value) :
  batch_sync processSyncData sock batch
  = (sock, snd (batch_sync processSyncData fresh batch)).
Proof. unfold batch_sync. case_match; reflexivity. Qed.

Lemma sync_ddl_operation_ignores_session (sock : socket) (data : Js.value) :
  sync_ddl_operation license executeQuery sock data
  = (sock, snd (sync_ddl_operation license executeQuery fresh data)).
Proof. unfold sync_ddl_operation. repeat case_match; reflexivity. Qed.

Lemma empty_batch_is_answered (sock : socket) :
  batch_sync processSyncData sock []
  = (sock, [Emit (batch_sync_response [])]).
Proof. reflexivity. Qed.

End SessionFacts.

(** C1, at the failing inputs.  A socket on which no [identify] has bound
    [storeId] and [appId] sends scenario E2 as [sync_data], an empty
    [batch_sync], scenario E4 as [sync_ddl_operation] and a [csv_bulk_upload]:
    each is processed and answered with its normal response, none of which is
    [identified], [pong] or an error variant.  The same socket is turned away
    by [table_schema_response], which carries the guard.  What [sync_data]
    and [sync_ddl_operation] emit does not depend on the socket at all. *)
Theorem unidentified_session_is_served :
  let sock := Server.fresh in
  let sync :=
    snd (Server.sync_data Sample.directory Sample.accepting Sample.refusing
           sock Sample.insert_event) in
  let batch := snd (Server.batch_sync Sample.refusing sock []) in
  let ddl :=
    snd (Server.sync_ddl_operation Sample.directory Sample.accepting sock
           Sample.alter_event) in
  let csv :=
    snd (Server.csv_bulk_upload Sample.disk Sample.importing sock
           Sample.upload) in
  Server.unidentified sock = true
  /\ sync = [Server.Emit
               (Server.sync_response (Js.Str "s1") true (Some tt) None)]
  /\ batch = [Server.Emit (Server.batch_sync_response [])]
  /\ ddl = [Server.Emit (Server.ddl_sync_success (Js.Str "d1") false)]
  /\ csv = [Server.WriteFile "stock.csv" (Sample.text "ABC");
            Server.Emit
              (Server.csv_bulk_upload_response "stock.csv" true None);
            Server.Emit
              (Server.csv_file_import_complete "stock.csv" "StockItems"
                 true 3 None)]
  /\ existsb Server.allowed_before_identification
       (Server.emitted (sync ++ batch ++ ddl ++ csv)) = false
  /\ snd (Server.table_schema_response (answer := unit) Sample.directory
            Sample.creating sock
            (Js.Obj [("tableName", Js.Str "Sales");
                     ("originalSyncId", Js.Str "s1")]))
     = [Server.Emit
          (Server.table_schema_error "Client not properly identified"
             (Js.Str "s1"))]
  /\ (forall (answer : Type) license
        (executeQuery : Js.value -> statement -> outcome answer)
        processSyncData (s : Server.socket) data,
         snd (Server.sync_data license executeQuery processSyncData s data)
         = snd (Server.sync_data license executeQuery processSyncData sock
                  data)
         /\ snd (Server.sync_ddl_operation license executeQuery s data)
            = snd (Server.sync_ddl_operation license executeQuery sock data)).
Proof.
  intros sock sync batch ddl csv.
  do 7 (split; [vm_compute; reflexivity |]).
  intros answer license executeQuery processSyncData s data. split.
  - rewrite sync_data_ignores_session. reflexivity.
  - rewrite sync_ddl_operation_ignores_session. reflexivity.
Qed.

(** ** The license gate of [identify] *)

(** C7, at the failing inputs.  An [identify] for the advanced report
    service that lacks [storeId] or [appId] is answered with
    [license_error] of code 400 and the connection is closed in the same
    turn, with no timer in between; the sibling branch for a license that
    does not validate answers [license_expired] of code 410 and leaves the
    disconnect to a timer of one second. *)
Theorem missing_credentials_close_at_once {answer : Type}
    (license : License.env) (now : Z) (sock : Server.socket)
    (data : Js.object) :
  Js.get data "serviceType" = Js.Str "advanced_online_report" ->
  let sid := Js.get data "storeId" in
  let aid := Js.get data "appId" in
  let validation :=
    License.validateAdvancedReportLicense license now sid aid in
  (Js.truthy sid && Js.truthy aid = false ->
   Server.identify (answer := answer) license now sock (Js.Obj data)
   = (sock,
      [Server.Emit
         (Server.license_error 400
            "Missing storeId or appId for Advanced Online Report");
       Server.Disconnect]))
  /\ (Js.truthy sid && Js.truthy aid = true ->
      negb (License.isValid validation) || License.isExpired validation
      = true ->
      Server.identify (answer := answer) license now sock (Js.Obj data)
      = (sock,
         [Server.Emit
            (Server.license_expired 410 (License.storeInfo validation));
          Server.SetTimeout 1000 [Server.Disconnect]])).
Proof.
  intros Htype sid aid validation. unfold Server.identify.
  cbn [Server.nullish Js.prop]. rewrite Htype.
  change (Server.is_string (Js.Str "advanced_online_report")
            "advanced_online_report") with true.
  cbv iota. fold sid aid. split.
  - intros Hmissing.
    destruct (Js.truthy sid), (Js.truthy aid); try discriminate; reflexivity.
  - intros [Hsid Haid]%andb_prop Hbad. rewrite Hsid, Haid. cbn [negb orb].
    fold validation. now rewrite Hbad.
Qed.

Lemma missing_credentials_close_at_once_witness :
  Server.identify (answer := unit) Sample.directory 0 Server.fresh
    (Js.Obj [("serviceType", Js.Str "advanced_online_report");
             ("appId", Js.Str "A")])
  = (Server.fresh,
     [Server.Emit
        (Server.license_error 400
           "Missing storeId or appId for Advanced Online Report");
      Server.Disconnect]).
Proof.
  apply (missing_credentials_close_at_once (answer := unit)
           Sample.directory 0 Server.fresh
           [("serviceType", Js.Str "advanced_online_report");
            ("appId", Js.Str "A")]).
  - reflexivity.
  - reflexivity.
Defined.

(** ** The translation of scenario E4 *)

(** C5, at the failing input.  The command of scenario E4 comes out with
    the column in backticks and the table name still in brackets; it is that
    text which goes to the store, and the session reports success or
    failure as the store takes it.  The DROP TABLE path does rewrite the
    table name. *)
Theorem alter_table_keeps_bracketed_table :
  let translated :=
    "ALTER TABLE [Sales] ADD COLUMN `Note` VARCHAR(50) CHARACTER SET utf8mb4 COLLATE utf8mb4_0900_ai_ci NULL" in
  Ddl.convertSqlServerDDLToMySQL (Js.Str Sample.alter_command) "Sales"
    "DDL_ALTER_TABLE" = Some translated
  /\ (forall (answer : Type)
        (executeQuery : Js.value -> statement -> outcome answer)
        (sock : Server.socket),
         snd (Server.sync_ddl_operation Sample.directory executeQuery sock
                Sample.alter_event)
         = match executeQuery (Js.Str "A")
                   {| sql := translated; params := [] |} with
           | Ok _ =>
               [Server.Emit (Server.ddl_sync_success (Js.Str "d1") false)]
           | Thrown m =>
               [Server.Emit
                  (Server.ddl_sync_error (Js.Str "d1")
                     ("DDL execution failed: " ++ m))]
           end)
  /\ Ddl.convertSqlServerDDLToMySQL (Js.Str "DROP TABLE [dbo].[Sales]")
       "Sales" "DDL_DROP_TABLE" = Some "DROP TABLE `Sales`".
Proof.
  intros translated.
  assert (Htranslated :
            Ddl.convertSqlServerDDLToMySQL (Js.Str Sample.alter_command)
              "Sales" "DDL_ALTER_TABLE" = Some translated)
    by (vm_compute; reflexivity).
  split; [exact Htranslated |]. split; [| vm_compute; reflexivity].
  intros answer executeQuery sock. unfold Server.sync_ddl_operation.
  change (Server.nullish Sample.alter_event) with false. cbv iota.
  change (License.getDatabaseByStoreAndApp Sample.directory
            (Js.prop Sample.alter_event "storeId")
            (Js.prop Sample.alter_event "appId"))
    with (Some (Js.Str "A")).
  change (negb (Js.truthy (Js.Str "A"))) with false. cbv iota.
  change (Ddl.convertSqlServerDDLToMySQL
            (Js.prop Sample.alter_event "sqlCommand")
            (Js.text (Js.prop Sample.alter_event "tableName"))
            (Js.text (Js.prop Sample.alter_event "operation")))
    with (Ddl.convertSqlServerDDLToMySQL (Js.Str Sample.alter_command)
            "Sales" "DDL_ALTER_TABLE").
  rewrite Htranslated.
  change (String.eqb translated EmptyString) with false. cbv iota.
  change (Js.prop Sample.alter_event "syncId") with (Js.Str "d1").
  destruct (executeQuery _ _); reflexivity.
Qed.

(** ** The pre-image of an UPDATE *)

(** C2, at the failing input.  An UPDATE on PaymentReceived (retail) whose
    payload carries [old_Id] with the number 0 next to [Id] with 7: the
    columns of SET are the keys without the [old_] prefix and the columns of
    WHERE are those of the policy, but the value bound to [Id] in WHERE is
    the 7 of [Id], not the 0 of [old_Id], although that key is present.  In
    general the pre-image is used only when it is truthy. *)
Theorem falsy_pre_image_is_passed_over :
  Js.has Sample.payment_update "old_Id" = true
  /\ Js.get Sample.payment_update "old_Id" = Js.Num 0
  /\ Dispatcher.build_statement "PaymentReceived" (Js.Str "UPDATE")
       (Js.Obj Sample.payment_update) "retail"
     = Ok {| sql := "UPDATE PaymentReceived SET `InvoiceNo` = ?, `Id` = ?, `Amount` = ? WHERE `InvoiceNo` = ? AND `Id` = ?";
             params := [Js.Str "A1"; Js.Num 7; Js.Num 5;
                        Js.Str "A1"; Js.Num 7] |}
  /\ (forall (pd : Js.object) (col : string),
        Dispatcher.old_or_new pd col
        = if Js.truthy (Js.get pd ("old_" ++ col))
          then Js.get pd ("old_" ++ col)
          else Js.get pd col).
Proof.
  do 3 (split; [vm_compute; reflexivity |]).
  intros pd col. reflexivity.
Qed.

(** ** The key columns of the legacy service *)

(** C3, counterexample.  On the legacy path a DELETE on Sales is keyed by
    the columns of [getWhereFields], InvoiceNo and TransactionDate, where the
    policy table lists InvoiceNo alone. *)
Lemma legacy_delete_uses_its_own_key :
  let recording (database : string) (stmt : statement) :=
    if JsString.includes (sql stmt)
         "WHERE `InvoiceNo` = ? AND `TransactionDate` = ?"
    then SyncService.Affected 1
    else SyncService.Failed
           {| SyncService.code := EmptyString;
              SyncService.message := "another statement" |} in
  Policy.primary_key "Sales" "retail" = Some ["InvoiceNo"]
  /\ SyncService.getWhereFields "Sales" = ["InvoiceNo"; "TransactionDate"]
  /\ Js.keys (SyncService.buildWhereCondition "Sales" Sample.sale false)
     = ["InvoiceNo"; "TransactionDate"]
  /\ SyncService.handleDelete (fun _ _ => true) recording "A" "Sales"
       Sample.sale
     = SyncService.Done
         {| SyncService.rowsAffected := 1;
            SyncService.operation := EmptyString;
            SyncService.wasUpdate := false |}.
Proof. repeat split; vm_compute; reflexivity. Qed.

(** A DELETE on Sales (retail) through the advanced dispatcher. *)
Lemma advanced_where_follows_policy_witness :
  exists stmt,
    Dispatcher.build_statement "Sales" (Js.Str "DELETE")
      (Js.Obj Sample.sale) "retail" = Ok stmt
    /\ sql stmt = "DELETE FROM Sales WHERE `InvoiceNo` = ?"
    /\ params stmt = [Js.Num 7].
Proof.
  destruct (advanced_where_follows_policy "Sales" "retail" Sample.sale
              ["InvoiceNo"] eq_refl) as (_ & _ & _ & Hdelete).
  destruct Hdelete as (Hok & _ & Hpresent); [discriminate |].
  destruct (Hpresent eq_refl) as [stmt Hstmt].
  destruct (Hok stmt Hstmt) as (Hsql & Hparams & _).
  exists stmt. split; [exact Hstmt |]. split; [exact Hsql | exact Hparams].
Defined.

(** ** INSERT as an upsert *)


(** ** Reading and replaying the upsert *)

Section ReplayFacts.
Import JsString Store.











Section OneRow.
Variable pk : list string.
Variable new : row.
Hypothesis new_keys : List.NoDup (Js.keys new).
Hypothesis new_key : forallb storable (key_of pk new) = true.




End OneRow.



End ReplayFacts.

(** The model tells the two forms apart: on a table keyed by [InvoiceNo] a
    plain INSERT is accepted once and refused on the replay. *)
Lemma plain_insert_is_refused_on_replay :
  let stmt := {| sql := "INSERT INTO Sales (`InvoiceNo`, `Total`) VALUES (?, ?)";
                 params := [Js.Num 7; Js.Num 3] |} in
  let sales (rows : list Store.row) :=
    {| Store.primary_key := ["InvoiceNo"]; Store.admits := fun _ => true;
       Store.rows := rows |} in
  let t := sales [] in
  let t1 := sales [[("InvoiceNo", Js.Num 7); ("Total", Js.Num 3)]] in
  Store.execute t stmt = Store.Stored t1
  /\ Store.execute t1 stmt = Store.Refused "Duplicate entry".
Proof. split; vm_compute; reflexivity. Qed.



(** ** Decoding the wire XML *)

(** C10, counterexample.  A pair with an empty value leaves no entry; a
    value comes out trimmed; of two pairs with the same tag the later one
    decides; an assignment to [__proto__] is dropped.  In an envelope, a
    pair tagged [old] under [old] and a pair tagged [new] under [new] are
    lost, a pair tagged [old] under [new] hides the pairs under [old], and
    a pair under [old] takes the place of the pair under [new] whose tag
    is its own with [old_] before it. *)
Lemma blank_value_leaves_no_entry :
  Wire.pair_ok ("Note", EmptyString) = true
  /\ Xml.parseXMLToObject (Wire.document [("Note", EmptyString)]) = []
  /\ Xml.parseXMLToObject "<Note> a </Note>" = [("Note", Js.Str "a")]
  /\ Xml.parseXMLToObject "<a>1</a><a>2</a>" = [("a", Js.Str "2")]
  /\ Xml.parseXMLToObject "<__proto__>x</__proto__>" = []
  /\ Xml.parseXMLToObject (Wire.enveloped [("a", "1")] [("old", "2")])
     = [("a", Js.Str "1")]
  /\ Xml.parseXMLToObject (Wire.enveloped [("new", "1")] [("a", "2")])
     = [("old_a", Js.Str "2")]
  /\ Xml.parseXMLToObject (Wire.enveloped [("old", "1")] [("a", "2")])
     = [("old", Js.Str "1")]
  /\ Xml.parseXMLToObject (Wire.enveloped [("old_a", "1")] [("a", "2")])
     = [("old_a", Js.Str "2")].
Proof. repeat split; vm_compute; reflexivity. Qed.

(** C10, as amended.  For pairs whose tags are non-empty and free of angle
    brackets and slash and whose values are 7-bit text without an opening
    angle bracket: a flat document that does not hold both [<new>] and
    [<old>] decodes to the map in which each pair with a value that is not
    blank sets its tag to the trimmed value, in document order; an envelope
    of a [new] and an [old] element, with no pair tagged [new] or [old]
    under [new] and none tagged [old] under [old], decodes to that map of
    the pairs under [new], then set with [old_] before the tag by the pairs
    under [old].  In either, the last pair of a tag whose value is not
    blank has its entry, a tag [__proto__] apart, and apart from a pair
    under [new] whose tag a pair under [old] that is not blank sets again
    with its prefix. *)
Theorem wire_document_decoded (news olds : list Wire.pair) :
  Forall (fun p => Wire.pair_ok p = true) news ->
  Forall (fun p => Wire.pair_ok p = true) olds ->
  let last_of (p : Wire.pair) (after : list Wire.pair) :=
    ~ Wire.blank p
    /\ Forall (fun q => fst q <> fst p \/ Wire.blank q) after in
  (JsString.includes (Wire.document news) "<new>"
   && JsString.includes (Wire.document news) "<old>" = false ->
   let flat := Xml.parseXMLToObject (Wire.document news) in
   flat = Wire.decoded EmptyString news []
   /\ forall before p after,
        news = before ++ p :: after -> last_of p after ->
        fst p <> "__proto__" ->
        Js.get flat (fst p) = Js.Str (JsString.trim (snd p)))
  /\ (Forall (Wire.tag_is_not "new") news ->
      Forall (Wire.tag_is_not "old") news ->
      Forall (Wire.tag_is_not "old") olds ->
      let both := Xml.parseXMLToObject (Wire.enveloped news olds) in
      both = Wire.decoded "old_" olds (Wire.decoded EmptyString news [])
      /\ (forall before p after,
            olds = before ++ p :: after -> last_of p after ->
            Js.get both ("old_" ++ fst p)
            = Js.Str (JsString.trim (snd p)))
      /\ (forall before p after,
            news = before ++ p :: after -> last_of p after ->
            fst p <> "__proto__" ->
            Forall (fun q => ("old_" ++ fst q)%string <> fst p
                             \/ Wire.blank q) olds ->
            Js.get both (fst p) = Js.Str (JsString.trim (snd p)))).
Proof.
  intros Hnews Holds last_of. split.
  - intros Hflat flat. subst flat.
    rewrite flat_document_decoded by assumption.
    split; [reflexivity |].
    intros before p after -> [Hp Hafter] Hproto.
    now apply (decoded_entry EmptyString).
  - intros Hnew Hold Hold'. cbv zeta.
    rewrite envelope_decoded by assumption.
    split; [reflexivity |]. split.
    + intros before p after -> [Hp Hafter].
      apply decoded_entry; [assumption | apply old_key_not_proto |
                            assumption].
    + intros before p after -> [Hp Hafter] Hproto Hother.
      unfold Js.get. rewrite decoded_untouched by assumption.
      now apply (decoded_entry EmptyString).
Qed.

(** An UPDATE of a quantity with its pre-image. *)
Lemma wire_document_decoded_witness :
  Xml.parseXMLToObject
    "<new><InvoiceNo>7</InvoiceNo><Qty> 2 </Qty></new><old><Qty>1</Qty></old>"
  = [("InvoiceNo", Js.Str "7"); ("Qty", Js.Str "2");
     ("old_Qty", Js.Str "1")].
Proof.
  pose (news := [("InvoiceNo", "7"); ("Qty", " 2 ")] : list Wire.pair).
  pose (olds := [("Qty", "1")] : list Wire.pair).
  assert (Hnews : Forall (fun p => Wire.pair_ok p = true) news)
    by (repeat constructor).
  assert (Holds : Forall (fun p => Wire.pair_ok p = true) olds)
    by (repeat constructor).
  destruct (wire_document_decoded news olds Hnews Holds) as [_ Hboth].
  destruct Hboth as [Hboth _].
  - repeat constructor; discriminate.
  - repeat constructor; discriminate.
  - repeat constructor; discriminate.
  - exact Hboth.
Defined.

(** ** Objects keep their keys apart *)

Section ObjectInvariants.
Import Js.

Lemma keys_replace_own (o : object) (k : string) (v : value) :
  keys (replace_own o k v) = keys o.
Proof.
  unfold keys. induction o as [| [k' v'] o IH]; cbn [replace_own map fst].
  - reflexivity.
  - destruct (String.eqb_spec k' k) as [-> | _]; cbn [map fst];
      [reflexivity | now rewrite IH].
Qed.

Lemma keys_insert_index (n : N) (k : string) (v : value) (o : object) :
  Permutation (keys (insert_index n k v o)) (k :: keys o).
Proof.
  unfold keys. induction o as [| [k' v'] o IH]; cbn [insert_index map fst].
  - reflexivity.
  - destruct (array_index k') as [m |]; [| reflexivity].
    destruct (n <? m)%N; [reflexivity |].
    cbn [map fst]. rewrite IH. apply perm_swap.
Qed.

Lemma has_false_not_key (o : object) (k : string) :
  has o k = false -> ~ In k (keys o).
Proof.
  unfold has, keys. induction o as [| [k' v'] o IH]; cbn; [tauto |].
  destruct (String.eqb_spec k' k) as [-> | Hne]; [discriminate |].
  intros H [He | Hin]; [congruence | now apply IH].
Qed.

(** An assignment leaves the keys of an object pairwise distinct. *)
Lemma set_keys_distinct (o : object) (k : string) (v : value) :
  List.NoDup (keys o) -> List.NoDup (keys (set o k v)).
Proof.
  intros Hnd. unfold set.
  destruct (String.eqb k "__proto__"); [exact Hnd |].
  destruct (has o k) eqn:Hhas.
  - now rewrite keys_replace_own.
  - apply has_false_not_key in Hhas.
    destruct (array_index k).
    + eapply Permutation_NoDup;
        [symmetry; apply keys_insert_index | now constructor].
    + unfold keys in *. rewrite map_app. cbn [map fst].
      eapply Permutation_NoDup;
        [apply Permutation_cons_append | now constructor].
Qed.

Lemma replace_own_values (P : value -> Prop) (o : object) (k : string)
    (v : value) :
  P v -> Forall (fun kv => P (snd kv)) o ->
  Forall (fun kv => P (snd kv)) (replace_own o k v).
Proof.
  intros Hv H. induction H as [| [k' v'] o Hk Ho IH]; cbn [replace_own].
  - constructor.
  - destruct (String.eqb k' k); constructor; auto.
Qed.

Lemma insert_index_values (P : value -> Prop) (n : N) (o : object)
    (k : string) (v : value) :
  P v -> Forall (fun kv => P (snd kv)) o ->
  Forall (fun kv => P (snd kv)) (insert_index n k v o).
Proof.
  intros Hv H. induction H as [| [k' v'] o Hk Ho IH]; cbn [insert_index].
  - repeat constructor. exact Hv.
  - destruct (array_index k') as [m |].
    + destruct (n <? m)%N; repeat constructor; auto.
    + repeat constructor; auto.
Qed.

(** What holds of the values of an object and of the value assigned holds
    of the values afterwards. *)
Lemma set_values (P : value -> Prop) (o : object) (k : string) (v : value) :
  P v -> Forall (fun kv => P (snd kv)) o ->
  Forall (fun kv => P (snd kv)) (set o k v).
Proof.
  intros Hv Ho. unfold set.
  destruct (String.eqb k "__proto__"); [exact Ho |].
  destruct (has o k).
  - now apply replace_own_values.
  - destruct (array_index k).
    + now apply insert_index_values.
    + apply Forall_app. split; [exact Ho | repeat constructor; exact Hv].
Qed.

Lemma has_get_own (o : object) (k : string) :
  has o k = true -> exists v, get_own o k = Some v /\ In (k, v) o.
Proof.
  unfold has. induction o as [| [k' v'] o IH]; cbn; [discriminate |].
  destruct (String.eqb_spec k' k) as [-> | _].
  - intros _. exists v'. auto.
  - intros H. destruct (IH H) as (v & Hv & Hin). exists v. auto.
Qed.
End ObjectInvariants.

(** ** What the decoder returns on any input *)

Section DecoderInvariants.
Import JsString Xml.

Lemma drop_spaces_suffix (l : chars) :
  exists pre, l = pre ++ drop_spaces l.
Proof.
  induction l as [| c l [pre IH]]; cbn [drop_spaces].
  - now exists [].
  - destruct (is_space c).
    + exists (c :: pre). cbn. now rewrite <- IH.
    + now exists [].
Qed.

Lemma drop_spaces_head (l : chars) :
  match drop_spaces l with
  | [] => True
  | c :: _ => is_space c = false
  end.
Proof.
  induction l as [| c l IH]; cbn [drop_spaces]; [exact I |].
  destruct (is_space c) eqn:Hc; [exact IH | exact Hc].
Qed.

Lemma drop_spaces_fixed (l : chars) :
  match l with [] => True | c :: _ => is_space c = false end ->
  drop_spaces l = l.
Proof. destruct l as [| c l]; cbn; [reflexivity | now intros ->]. Qed.

Lemma trim_chars_idempotent (l : chars) :
  trim_chars (trim_chars l) = trim_chars l.
Proof.
  unfold trim_chars.
  set (a := drop_spaces l). set (b := drop_spaces (rev a)).
  assert (Hb : drop_spaces b = b)
    by (apply drop_spaces_fixed, drop_spaces_head).
  assert (Ha : drop_spaces (rev b) = rev b).
  { apply drop_spaces_fixed.
    destruct (drop_spaces_suffix (rev a)) as [pre Hpre]. fold b in Hpre.
    assert (Hrev : a = rev b ++ rev pre).
    { rewrite <- (rev_involutive a), Hpre, rev_app_distr. reflexivity. }
    pose proof (drop_spaces_head l) as Hhead. fold a in Hhead.
    destruct (rev b) as [| c r]; [exact I |].
    rewrite Hrev in Hhead. exact Hhead. }
  now rewrite Ha, rev_involutive, Hb.
Qed.

Lemma trim_idempotent (s : string) : trim (trim s) = trim s.
Proof.
  unfold trim. now rewrite of_to_string, trim_chars_idempotent.
Qed.

Lemma store_pair_invariant (prefix : string) (o : Js.object)
    (cs : Regex.captures) :
  List.NoDup (Js.keys o) /\ Forall (fun kv => Decoded.stored (snd kv)) o ->
  List.NoDup (Js.keys (store_pair prefix o cs))
  /\ Forall (fun kv => Decoded.stored (snd kv)) (store_pair prefix o cs).
Proof.
  intros [Hnd Hst]. unfold store_pair.
  destruct (String.eqb_spec (trim (to_string (group_text cs 2))) EmptyString)
    as [_ | Hne]; cbn [negb]; [auto |].
  split; [now apply set_keys_distinct |].
  apply (set_values Decoded.stored); [| exact Hst].
  eexists. split; [reflexivity |]. split; [exact Hne | apply trim_idempotent].
Qed.

Lemma scan_pairs_invariant (prefix : string) (text : chars)
    (o : Js.object) :
  List.NoDup (Js.keys o) /\ Forall (fun kv => Decoded.stored (snd kv)) o ->
  List.NoDup (Js.keys (scan_pairs prefix text o))
  /\ Forall (fun kv => Decoded.stored (snd kv)) (scan_pairs prefix text o).
Proof.
  unfold scan_pairs.
  generalize (Regex.exec_all (S (length text)) false tagRegex text).
  intros matches. revert o.
  induction matches as [| cs matches IH]; intros o H; cbn [fold_left].
  - exact H.
  - apply IH. now apply store_pair_invariant.
Qed.

Lemma parse_invariant (xmlString : string) :
  List.NoDup (Js.keys (parseXMLToObject xmlString))
  /\ Forall (fun kv => Decoded.stored (snd kv)) (parseXMLToObject xmlString).
Proof.
  unfold parseXMLToObject.
  assert (Hempty : List.NoDup (Js.keys [])
                   /\ Forall (fun kv => Decoded.stored (snd kv))
                        ([] : Js.object))
    by (split; constructor).
  destruct (includes xmlString "<new>" && includes xmlString "<old>").
  - assert (Hnew :
      List.NoDup
        (Js.keys match envelope_body "new" (of_string xmlString) with
                 | Some newData => scan_pairs EmptyString newData []
                 | None => []
                 end)
      /\ Forall (fun kv => Decoded.stored (snd kv))
           match envelope_body "new" (of_string xmlString) with
           | Some newData => scan_pairs EmptyString newData []
           | None => []
           end).
    { destruct (envelope_body "new" (of_string xmlString));
        [now apply scan_pairs_invariant | exact Hempty]. }
    destruct (envelope_body "old" (of_string xmlString));
      [now apply scan_pairs_invariant | exact Hnew].
  - now apply scan_pairs_invariant.
Qed.

(** X1.  Whatever text it is given, the decoder returns an object whose
    keys are pairwise distinct and whose values are all strings that are
    not empty and carry no white space at either end. *)
Theorem decoded_object_well_formed (xmlString : string) :
  let parsedData := parseXMLToObject xmlString in
  List.NoDup (Js.keys parsedData)
  /\ Forall (fun kv => Decoded.stored (snd kv)) parsedData.
Proof. exact (parse_invariant xmlString). Qed.

(** Every key of a decoded payload holds a truthy value. *)
Lemma decoded_key_truthy (xmlString key : string) :
  Js.has (parseXMLToObject xmlString) key = true ->
  Js.truthy (Js.get (parseXMLToObject xmlString) key) = true.
Proof.
  intros Hhas. destruct (has_get_own _ _ Hhas) as (v & Hv & Hin).
  unfold Js.get. rewrite Hv.
  destruct (parse_invariant xmlString) as [_ Hst].
  rewrite List.Forall_forall in Hst.
  destruct (Hst _ Hin) as (s & Hs & Hne & _). cbn [snd] in Hs. subst v.
  cbn. now destruct (String.eqb_spec s EmptyString).
Qed.
End DecoderInvariants.

(** ** The pre-image on the XML path *)

Section XmlPreImage.
Import Dispatcher.

Lemma old_or_new_decoded (xmlString col : string) :
  old_or_new (Xml.parseXMLToObject xmlString) col
  = Decoded.pre_image (Xml.parseXMLToObject xmlString) col.
Proof.
  unfold old_or_new, Decoded.pre_image, Js.or.
  pose proof (decoded_key_truthy xmlString ("old_" ++ col)) as Htruthy.
  unfold Js.has, Js.get in *.
  destruct (Js.get_own (Xml.parseXMLToObject xmlString) ("old_" ++ col)).
  - now rewrite Htruthy.
  - reflexivity.
Qed.

(** X2.  When the payload of an UPDATE arrives as XML, the statement built
    for a table with a policy entry binds each key column of WHERE to the
    value under [old_<col>] whenever the decoded payload has that key, and
    to the value under [<col>] only when it has not; the parameters of SET
    come first. *)
Theorem xml_update_uses_pre_image (t bt xmlString : string)
    (cols : list string) (stmt : statement) :
  Policy.primary_key t bt = Some cols ->
  build_statement t (Js.Str "UPDATE") (Js.Str xmlString) bt = Ok stmt ->
  let parsedData := Xml.parseXMLToObject xmlString in
  params stmt
  = map (Js.get parsedData) (List.filter not_old (Js.keys parsedData))
    ++ map (Decoded.pre_image parsedData) cols.
Proof.
  intros Hpolicy Hbuild parsedData. unfold build_statement in Hbuild.
  cbn [parse_data] in Hbuild.
  destruct (JsString.startsWith (JsString.trim xmlString) "<");
    [| discriminate].
  change (upper_operation (Js.Str "UPDATE")) with (Ok "UPDATE") in Hbuild.
  change (String.eqb "UPDATE" "INSERT") with false in Hbuild.
  change (String.eqb "UPDATE" "UPDATE") with true in Hbuild.
  cbv iota in Hbuild. fold parsedData in Hbuild.
  destruct (update_statement_ok _ _ _ _ Hbuild)
    as (fields & values & Hwhere & _ & Hparams).
  destruct (update_where_ok _ _ _ _ _ _ Hpolicy Hwhere) as (_ & -> & _).
  rewrite Hparams. f_equal. apply map_ext. intros col.
  apply old_or_new_decoded.
Qed.
End XmlPreImage.

(** A payment whose pre-image of [Id] is the text 0. *)
Lemma xml_update_uses_pre_image_witness :
  exists stmt,
    Dispatcher.build_statement "PaymentReceived" (Js.Str "UPDATE")
      (Js.Str "<new><InvoiceNo>A1</InvoiceNo><Id>7</Id></new><old><Id>0</Id></old>")
      "retail" = Ok stmt
    /\ params stmt = [Js.Str "A1"; Js.Str "7"; Js.Str "A1"; Js.Str "0"].
Proof.
  eexists. split; [vm_compute; reflexivity |].
  refine (eq_trans
            (xml_update_uses_pre_image "PaymentReceived" "retail"
               "<new><InvoiceNo>A1</InvoiceNo><Id>7</Id></new><old><Id>0</Id></old>"
               ["InvoiceNo"; "Id"] _ eq_refl _) _).
  - vm_compute; reflexivity.
  - vm_compute; reflexivity.
Defined.

(** ** No UPDATE or DELETE without a key *)

Section KeyedStatements.
Import Dispatcher.
Local Open Scope string_scope.

Ltac each_branch :=
  repeat match goal with
         | |- context [if ?b then _ else _] => destruct b
         end.

Lemma update_where_balanced (t bt : string) (pd : Js.object)
    (fields : list string) (values : list Js.value) :
  update_where t bt pd = Ok (fields, values) ->
  length fields = length values.
Proof.
  unfold update_where, require_update. each_branch;
    try discriminate; intros [= <- <-]; reflexivity.
Qed.

Lemma delete_where_balanced (t bt : string) (pd : Js.object)
    (fields : list string) (values : list Js.value) :
  delete_where t bt pd = Ok (fields, values) ->
  length fields = length values.
Proof.
  unfold delete_where, require_delete. each_branch;
    try discriminate; intros [= <- <-]; reflexivity.
Qed.

Lemma update_statement_keyed (t bt : string) (pd : Js.object)
    (stmt : statement) :
  update_statement t bt pd = Ok stmt ->
  exists fields values,
    fields <> [] /\ length values = length fields
    /\ sql stmt
       = "UPDATE " ++ t ++ " SET "
         ++ JsString.join ", "
              (map assign (List.filter not_old (Js.keys pd)))
         ++ " WHERE " ++ JsString.join " AND " (map assign fields)
    /\ params stmt
       = (map (Js.get pd) (List.filter not_old (Js.keys pd)) ++ values)%list.
Proof.
  unfold update_statement.
  destruct (update_where t bt pd) as [[fields values] | m] eqn:Hwhere;
    [| discriminate].
  destruct (String.eqb _ EmptyString); [discriminate |].
  destruct fields as [| f fields]; [discriminate |].
  cbn [length Nat.eqb]. intros [= <-].
  exists (f :: fields), values. repeat split; try discriminate.
  symmetry. now apply update_where_balanced in Hwhere.
Qed.

Lemma delete_statement_keyed (t bt : string) (pd : Js.object)
    (stmt : statement) :
  delete_statement t bt pd = Ok stmt ->
  exists fields,
    fields <> [] /\ length (params stmt) = length fields
    /\ sql stmt = "DELETE FROM " ++ t ++ " WHERE "
                  ++ JsString.join " AND " (map assign fields).
Proof.
  unfold delete_statement.
  destruct (delete_where t bt pd) as [[fields values] | m] eqn:Hwhere;
    [| discriminate].
  destruct fields as [| f fields]; [discriminate |].
  cbn [length Nat.eqb]. intros [= <-].
  exists (f :: fields). repeat split; try discriminate.
  symmetry. now apply delete_where_balanced in Hwhere.
Qed.

(** X3.  Whatever the table, the business type and the payload, a statement
    that the dispatcher builds for an UPDATE or a DELETE has a WHERE clause
    over at least one column and binds exactly one parameter to each column
    of it: the parameters of an UPDATE are those of SET followed by those
    of WHERE, the parameters of a DELETE are those of WHERE. *)
Theorem update_and_delete_are_keyed (t bt : string) (data : Js.value)
    (stmt : statement) :
  (build_statement t (Js.Str "UPDATE") data bt = Ok stmt ->
   exists (parsedData : Js.object) (fields : list string)
          (values : list Js.value),
     let setKeys := List.filter not_old (Js.keys parsedData) in
     parse_data data = Ok parsedData
     /\ fields <> [] /\ length values = length fields
     /\ sql stmt
        = "UPDATE " ++ t ++ " SET " ++ JsString.join ", " (map assign setKeys)
          ++ " WHERE " ++ JsString.join " AND " (map assign fields)
     /\ params stmt = (map (Js.get parsedData) setKeys ++ values)%list)
  /\ (build_statement t (Js.Str "DELETE") data bt = Ok stmt ->
      exists fields : list string,
        fields <> [] /\ length (params stmt) = length fields
        /\ sql stmt = "DELETE FROM " ++ t ++ " WHERE "
                      ++ JsString.join " AND " (map assign fields)).
Proof.
  unfold build_statement.
  change (upper_operation (Js.Str "UPDATE")) with (Ok "UPDATE").
  change (upper_operation (Js.Str "DELETE")) with (Ok "DELETE").
  destruct (parse_data data) as [parsedData | m];
    [| split; discriminate].
  change (String.eqb "UPDATE" "INSERT") with false.
  change (String.eqb "UPDATE" "UPDATE") with true.
  change (String.eqb "DELETE" "INSERT") with false.
  change (String.eqb "DELETE" "UPDATE") with false.
  change (String.eqb "DELETE" "DELETE") with true.
  cbv iota. split.
  - intros Hstmt.
    destruct (update_statement_keyed _ _ _ _ Hstmt)
      as (fields & values & Hne & Hlen & Hsql & Hparams).
    exists parsedData, fields, values. cbv zeta. auto.
  - apply delete_statement_keyed.
Qed.
End KeyedStatements.

(** A DELETE on Sales (retail) and its one key column. *)
Lemma update_and_delete_are_keyed_witness :
  exists fields : list string,
    fields <> [] /\ length [Js.Num 7] = length fields
    /\ "DELETE FROM Sales WHERE `InvoiceNo` = ?"
       = ("DELETE FROM " ++ "Sales" ++ " WHERE "
          ++ JsString.join " AND " (map Dispatcher.assign fields))%string.
Proof.
  exact (proj2 (update_and_delete_are_keyed "Sales" "retail"
                  (Js.Obj Sample.sale)
                  {| sql := "DELETE FROM Sales WHERE `InvoiceNo` = ?";
                     params := [Js.Num 7] |})
               eq_refl).
Defined.

(** ** The legacy service: what is set and what is keyed *)

Section LegacyFacts.
Import SyncService.
Local Open Scope string_scope.

Lemma keys_remove (k : string) (o : Js.object) (c : string) :
  In c (Js.keys (remove k o)) <-> c <> k /\ In c (Js.keys o).
Proof.
  unfold Js.keys, remove. induction o as [| [k' v'] o IH]; cbn.
  - tauto.
  - destruct (String.eqb_spec k' k) as [-> | Hne]; cbn; rewrite IH.
    + intuition congruence.
    + intuition congruence.
Qed.

Lemma keys_remove_all (fields : list string) (o : Js.object) (c : string) :
  In c (Js.keys (fold_left (fun acc field => remove field acc) fields o))
  <-> ~ In c fields /\ In c (Js.keys o).
Proof.
  revert o. induction fields as [| f fields IH]; intros o; cbn.
  - tauto.
  - rewrite IH, keys_remove. intuition congruence.
Qed.

Ltac on_legacy_table t :=
  unfold getWhereFields;
  destruct (String.eqb t "SalesDetail");
  [| destruct (String.eqb t "StockItems");
  [| destruct (String.eqb t "Sales");
  [| destruct (String.eqb t "MenuItem");
  [| destruct (String.eqb t "SubMenuLinkDetail")]]]].

Ltac on_defined :=
  repeat match goal with
         | |- context [defined ?v] => destruct (defined v) eqn:?
         end.

(** The columns of the WHERE object: the key columns of the table that the
    source row defines, in the order of the table; failing any, [ID] when
    the source row has it. *)
Lemma where_columns (tableName : string) (data : Js.object)
    (isOldData : bool) :
  let source := source_data data isOldData in
  let present :=
    List.filter (fun f => defined (Js.prop source f))
                (getWhereFields tableName) in
  Js.keys (buildWhereCondition tableName data isOldData)
  = match present with
    | [] => match Js.prop source "ID" with
            | Js.Undefined => []
            | _ => ["ID"]
            end
    | _ => present
    end
  /\ Js.values (buildWhereCondition tableName data isOldData)
     = match present with
       | [] => match Js.prop source "ID" with
               | Js.Undefined => []
               | v => [v]
               end
       | _ => map (Js.prop source) present
       end.
Proof.
  cbv zeta. unfold buildWhereCondition.
  generalize (source_data data isOldData). intros source.
  on_legacy_table tableName; cbn [fold_left List.filter];
    on_defined; cbn; try (split; reflexivity);
    destruct (Js.prop source "ID"); split; reflexivity.
Qed.

Lemma filter_subset {A} (f : A -> bool) (l : list A) (x : A) :
  In x (List.filter f l) -> In x l.
Proof. intros H. now apply filter_In in H. Qed.

(** X4.  A legacy UPDATE never assigns a key column of the table: the
    columns of SET are columns of the row other than those that
    [getWhereFields] lists for the table, and the columns of WHERE are
    among the listed ones, or [ID] alone. *)
Theorem legacy_update_keeps_key_apart (tableName : string)
    (data : Js.object) :
  (forall c, In c (Js.keys (getUpdateData tableName data)) ->
             ~ In c (getWhereFields tableName))
  /\ (forall c,
        In c (Js.keys (buildWhereCondition tableName data true)) ->
        In c (getWhereFields tableName) \/ c = "ID").
Proof.
  split.
  - intros c Hc. unfold getUpdateData in Hc. cbv zeta in Hc.
    apply keys_remove_all in Hc. exact (proj1 Hc).
  - intros c. destruct (where_columns tableName data true) as [-> _].
    destruct (List.filter _ (getWhereFields tableName)) as [| f l] eqn:Hf.
    + destruct (Js.prop _ "ID"); cbn; intuition congruence.
    + rewrite <- Hf. intros Hc. left. eapply filter_subset, Hc.
Qed.

Section Store.
Variable tableExists : string -> string -> bool.
Variable executeQuery : string -> statement -> db_result.

(** X5.  A legacy DELETE on a table that exists, whose name is not a
    member inherited from [Object.prototype], is keyed by the key columns
    of the table that the row defines, or by [ID] when it defines none of
    them; when the row has neither, the operation is refused with the list
    of the required fields and the store is not asked. *)
Theorem legacy_delete_is_keyed (database TableName : string)
    (Data : Js.object) :
  ~ In TableName Legacy.inherited ->
  tableExists database TableName = true ->
  let source := source_data Data false in
  let present :=
    List.filter (fun f => defined (Js.prop source f))
                (getWhereFields TableName) in
  let columns :=
    match present with
    | [] => match Js.prop source "ID" with
            | Js.Undefined => []
            | _ => ["ID"]
            end
    | _ => present
    end in
  let values :=
    match present with
    | [] => match Js.prop source "ID" with
            | Js.Undefined => []
            | v => [v]
            end
    | _ => map (Js.prop source) present
    end in
  handleDelete tableExists executeQuery database TableName Data
  = match columns with
    | [] =>
        raise ("WHERE condition is required for DELETE operation on "
               ++ TableName ++ ". Required fields: "
               ++ JsString.join ", " (getWhereFields TableName))
    | _ =>
        match executeQuery database
                {| sql := nl ++ indent16 ++ "DELETE FROM `" ++ TableName
                          ++ "`" ++ nl ++ indent16 ++ "WHERE "
                          ++ JsString.join " AND "
                               (map Dispatcher.assign columns)
                          ++ nl ++ indent12;
                   params := values |} with
        | Affected n =>
            Done {| rowsAffected := n; operation := EmptyString;
                    wasUpdate := false |}
        | Failed e => Raised e
        end
    end.
Proof.
  intros _ Hexists source present columns values.
  unfold handleDelete. rewrite Hexists. cbn [negb].
  unfold delete_query.
  destruct (where_columns TableName Data false) as [Hkeys Hvalues].
  fold source present columns in Hkeys. fold source present values in Hvalues.
  rewrite Hkeys, Hvalues.
  destruct columns; reflexivity.
Qed.
End Store.
End LegacyFacts.

(** A sale deleted by invoice number and date. *)
Lemma legacy_delete_is_keyed_witness :
  SyncService.handleDelete (fun _ _ => true)
    (fun _ _ => SyncService.Affected 1) "A" "Sales" Sample.sale
  = SyncService.Done
      {| SyncService.rowsAffected := 1;
         SyncService.operation := EmptyString;
         SyncService.wasUpdate := false |}.
Proof.
  refine (legacy_delete_is_keyed (fun _ _ => true)
            (fun _ _ => SyncService.Affected 1) "A" "Sales" Sample.sale
            _ eq_refl).
  cbn. intuition discriminate.
Defined.

(** ** The batches of a full sync *)

Section FullSyncFacts.
Import FullSync.

Lemma full_sync_insert_or_skip tableExists executeQuery
    (database TableName : string) (row : Js.object) :
  match SyncService.handleInsert tableExists executeQuery database
          TableName row true with
  | SyncService.Done r =>
      SyncService.operation r = "INSERT"%string
      \/ SyncService.operation r = "SKIP"%string
  | SyncService.Raised _ => True
  end.
Proof.
  unfold SyncService.handleInsert.
  destruct (tableExists database TableName); cbn [negb]; [| exact I].
  destruct (executeQuery database _) as [n | e]; [cbn; auto |].
  destruct (String.eqb (SyncService.code e) "ER_DUP_ENTRY");
    [cbn; auto | exact I].
Qed.

Lemma count_row_invariant (c : counts) tableExists executeQuery
    (database TableName : string) (row : Js.object) :
  let c' :=
    count_row c
      (SyncService.handleInsert tableExists executeQuery database
         TableName row true) in
  successCount c' + errorCount c' = S (successCount c + errorCount c)
  /\ updateCount c' = updateCount c
  /\ insertCount c' + skipCount c' + successCount c
     = insertCount c + skipCount c + successCount c'.
Proof.
  cbv zeta.
  pose proof (full_sync_insert_or_skip tableExists executeQuery database
                TableName row) as H.
  destruct (SyncService.handleInsert _ _ _ _ _ _) as [r | e];
    cbn [count_row successCount errorCount insertCount updateCount
         skipCount].
  - destruct H as [H | H]; rewrite H; cbn; lia.
  - lia.
Qed.

Lemma insert_rows_invariant (views : nat -> view) (database TableName : string)
    (rows : list Js.object) (i : nat) (c : counts) :
  let c' := insert_rows views i database TableName rows c in
  successCount c' + errorCount c'
  = successCount c + errorCount c + length rows
  /\ updateCount c' = updateCount c
  /\ insertCount c' + skipCount c' + successCount c
     = insertCount c + skipCount c + successCount c'.
Proof.
  cbv zeta. revert i c.
  induction rows as [| row rows IH]; intros i c; cbn [insert_rows length].
  - lia.
  - pose proof (count_row_invariant c (tableExists (views i))
                  (executeQuery (views i)) database TableName row) as Hrow.
    cbv zeta in Hrow.
    specialize (IH (S i)
                  (count_row c
                     (SyncService.handleInsert (tableExists (views i))
                        (executeQuery (views i)) database TableName row
                        true))).
    lia.
Qed.

(** X6.  The progress event of a batch of a full sync, and of an initial
    sync, accounts for every row: successes and errors add up to the number
    of rows of the batch, each success is an insert or a skip, and the
    update counter stays at zero, however the store answers row by row. *)
Theorem full_sync_batch_counts (license : License.env)
    (views : nat -> view) (sock : Server.socket) (data : batch) :
  Server.unidentified sock = false ->
  database_of license sock <> None ->
  exists (c : counts) (more more' : list event),
    full_data_sync_response license views sock data
    = full_data_sync_progress (tableName data) (currentBatch data)
        (totalBatches data) c (originalSyncId data) :: more
    /\ initial_sync_data_response license views sock data
       = initial_sync_progress (tableName data) (currentBatch data)
           (totalBatches data) c :: more'
    /\ successCount c + errorCount c = length (tableData data)
    /\ insertCount c + skipCount c = successCount c
    /\ updateCount c = 0.
Proof.
  intros Hid Hdb.
  unfold full_data_sync_response, initial_sync_data_response.
  rewrite Hid. destruct (database_of license sock) as [database |];
    [| congruence].
  eexists _, _, _. split; [reflexivity |]. split; [reflexivity |].
  pose proof (insert_rows_invariant views (Js.text database)
                (Js.text (tableName data)) (tableData data) 0 zero) as H.
  cbv zeta in H. cbn [zero successCount errorCount insertCount updateCount
                      skipCount] in H.
  lia.
Qed.
Lemma insert_rows_all_fail (views : nat -> view)
    (database TableName : string) (rows : list Js.object) (i : nat)
    (c : counts) :
  (forall j, tableExists (views j) database TableName = false) ->
  insert_rows views i database TableName rows c
  = {| successCount := successCount c;
       errorCount := errorCount c + length rows;
       insertCount := insertCount c;
       updateCount := updateCount c;
       skipCount := skipCount c |}.
Proof.
  intros Hmissing. revert i c.
  induction rows as [| row rows IH]; intros i c; cbn [insert_rows length].
  - rewrite Nat.add_0_r. destruct c; reflexivity.
  - rewrite IH. unfold SyncService.handleInsert. rewrite Hmissing.
    cbn. f_equal. lia.
Qed.

(** X23.  The last batch of a full sync, and of an initial sync, completes
    with [success: true] even when none of its rows could be written: if
    the store has no such table, every row of the batch is counted as an
    error, and the completion event, and for a full sync the
    [sync_response] to the original request, still report success. *)
Theorem failed_batch_still_completes (license : License.env)
    (views : nat -> view) (sock : Server.socket) (data : batch)
    (database : Js.value) :
  Server.unidentified sock = false ->
  database_of license sock = Some database ->
  Js.truthy (isLastBatch data) = true ->
  (forall i, tableExists (views i) (Js.text database)
               (Js.text (tableName data)) = false) ->
  let failed :=
    {| successCount := 0; errorCount := length (tableData data);
       insertCount := 0; updateCount := 0; skipCount := 0 |} in
  full_data_sync_response license views sock data
  = [full_data_sync_progress (tableName data) (currentBatch data)
       (totalBatches data) failed (originalSyncId data);
     full_data_sync_complete (tableName data) true (originalSyncId data)
       (totalRows data);
     sync_response (originalSyncId data) true]
  /\ initial_sync_data_response license views sock data
     = [initial_sync_progress (tableName data) (currentBatch data)
          (totalBatches data) failed;
        initial_sync_complete (tableName data) true (totalRows data)].
Proof.
  intros Hid Hdb Hlast Hmissing. cbv zeta.
  unfold full_data_sync_response, initial_sync_data_response.
  rewrite Hid, Hdb, Hlast.
  rewrite (insert_rows_all_fail views _ _ _ 0 zero Hmissing).
  split; reflexivity.
Qed.
End FullSyncFacts.

(** Two rows, of which the store takes the first and reports the second as
    a duplicate. *)
Lemma full_sync_batch_counts_witness :
  let views (i : nat) :=
    {| FullSync.tableExists := fun _ _ => true;
       FullSync.executeQuery := fun _ _ =>
         if Nat.eqb i 0 then SyncService.Affected 1
         else SyncService.Failed
                {| SyncService.code := "ER_DUP_ENTRY";
                   SyncService.message := "Duplicate entry" |} |} in
  let sock :=
    {| Server.storeId := Js.Str "239"; Server.appId := Js.Str "A";
       Server.serviceType := Js.Undefined; Server.licenseInfo := None;
       Server.csvChunkStorage := ∅ |} in
  let data :=
    {| FullSync.tableName := Js.Str "Sales";
       FullSync.tableData := [Sample.sale; Sample.sale];
       FullSync.originalSyncId := Js.Str "s1";
       FullSync.isLastBatch := Js.Bool false;
       FullSync.currentBatch := Js.Num 1;
       FullSync.totalBatches := Js.Num 1;
       FullSync.totalRows := Js.Num 2 |} in
  exists (c : FullSync.counts) (more more' : list FullSync.event),
    FullSync.full_data_sync_response Sample.directory views sock data
    = FullSync.full_data_sync_progress (Js.Str "Sales") (Js.Num 1)
        (Js.Num 1) c (Js.Str "s1") :: more
    /\ FullSync.initial_sync_data_response Sample.directory views sock data
       = FullSync.initial_sync_progress (Js.Str "Sales") (Js.Num 1)
           (Js.Num 1) c :: more'
    /\ FullSync.successCount c + FullSync.errorCount c = 2
    /\ FullSync.insertCount c + FullSync.skipCount c
       = FullSync.successCount c
    /\ FullSync.updateCount c = 0.
Proof.
  intros views sock data.
  apply (full_sync_batch_counts Sample.directory views sock data).
  - reflexivity.
  - discriminate.
Defined.

(** A last batch of two rows for a table that the store does not have. *)
Lemma failed_batch_still_completes_witness :
  let views (i : nat) :=
    {| FullSync.tableExists := fun _ _ => false;
       FullSync.executeQuery := fun _ _ => SyncService.Affected 1 |} in
  let data :=
    {| FullSync.tableName := Js.Str "Sales";
       FullSync.tableData := [Sample.sale; Sample.sale];
       FullSync.originalSyncId := Js.Str "s1";
       FullSync.isLastBatch := Js.Bool true;
       FullSync.currentBatch := Js.Num 1;
       FullSync.totalBatches := Js.Num 1;
       FullSync.totalRows := Js.Num 2 |} in
  let failed :=
    {| FullSync.successCount := 0; FullSync.errorCount := 2;
       FullSync.insertCount := 0; FullSync.updateCount := 0;
       FullSync.skipCount := 0 |} in
  FullSync.full_data_sync_response Sample.directory views Fixture.session
    data
  = [FullSync.full_data_sync_progress (Js.Str "Sales") (Js.Num 1)
       (Js.Num 1) failed (Js.Str "s1");
     FullSync.full_data_sync_complete (Js.Str "Sales") true (Js.Str "s1")
       (Js.Num 2);
     FullSync.sync_response (Js.Str "s1") true]
  /\ FullSync.initial_sync_data_response Sample.directory views
       Fixture.session data
     = [FullSync.initial_sync_progress (Js.Str "Sales") (Js.Num 1)
          (Js.Num 1) failed;
        FullSync.initial_sync_complete (Js.Str "Sales") true (Js.Num 2)].
Proof.
  intros views data failed.
  exact (failed_batch_still_completes Sample.directory views Fixture.session
           data (Js.Str "A") eq_refl eq_refl eq_refl (fun _ => eq_refl)).
Defined.

(** ** Runs and their logs *)

Section EffectFacts.
Import Effect.
Variable W : Type.
Variable event : Type.

Lemma calls_app (l l' : list (entry event)) :
  calls (l ++ l') = calls l ++ calls l'.
Proof. apply flat_map_app. Qed.

Lemma emitted_app (l l' : list (entry event)) :
  emitted (l ++ l') = emitted l ++ emitted l'.
Proof. apply flat_map_app. Qed.

Lemma timers_app (l l' : list (entry event)) :
  timers (l ++ l') = timers l ++ timers l'.
Proof. apply flat_map_app. Qed.

Lemma calls_of_calls (l : list call) :
  calls (map (Call (event := event)) l) = l.
Proof.
  unfold calls. induction l as [| c l IH]; cbn; [| rewrite IH]; reflexivity.
Qed.

Lemma emitted_of_calls (l : list call) :
  emitted (map (Call (event := event)) l) = [].
Proof.
  unfold emitted. induction l as [| c l IH]; cbn; [reflexivity | exact IH].
Qed.

Lemma timers_of_calls (l : list call) :
  timers (map (Call (event := event)) l) = [].
Proof.
  unfold timers. induction l as [| c l IH]; cbn; [reflexivity | exact IH].
Qed.

Lemma issues_ret {A : Type} (P : call -> Prop) (a : A) :
  issues P (ret (W := W) (event := event) a).
Proof. intros s. exists []. cbn. rewrite app_nil_r. auto. Qed.

Lemma issues_throw {A : Type} (P : call -> Prop) (message : string) :
  issues P (throw (W := W) (event := event) (A := A) message).
Proof. intros s. exists []. cbn. rewrite app_nil_r. auto. Qed.

Lemma issues_bind {A B : Type} (P : call -> Prop) (m : M W event A)
    (k : A -> M W event B) :
  issues P m -> (forall a, issues P (k a)) -> issues P (bind m k).
Proof.
  intros Hm Hk s. unfold bind.
  destruct (Hm s) as (added & Hlog & HP).
  destruct (m s) as [s' [a | message]]; cbn [fst] in Hlog.
  - destruct (Hk a s') as (added' & Hlog' & HP').
    exists (added ++ added'). split.
    + rewrite Hlog', Hlog, map_app, app_assoc. reflexivity.
    + apply Forall_app; auto.
  - exists added. auto.
Qed.

Lemma issues_try_catch {A : Type} (P : call -> Prop) (m : M W event A)
    (handler : string -> M W event A) :
  issues P m -> (forall message, issues P (handler message)) ->
  issues P (try_catch m handler).
Proof.
  intros Hm Hh s. unfold try_catch.
  destruct (Hm s) as (added & Hlog & HP).
  destruct (m s) as [s' [a | message]]; cbn [fst] in Hlog.
  - exists added. auto.
  - destruct (Hh message s') as (added' & Hlog' & HP').
    exists (added ++ added'). split.
    + rewrite Hlog', Hlog, map_app, app_assoc. reflexivity.
    + apply Forall_app; auto.
Qed.

Lemma issues_for_each {A : Type} (P : call -> Prop) (l : list A)
    (body : A -> M W event unit) :
  (forall x, issues P (body x)) -> issues P (for_each l body).
Proof.
  intros Hbody. induction l as [| x l IH]; cbn [for_each].
  - apply issues_ret.
  - apply issues_bind; [apply Hbody | intros _; exact IH].
Qed.

Lemma issues_perform {A : Type} (P : call -> Prop) (c : call)
    (answer : W -> W * outcome A) :
  P c -> issues P (perform W event c answer).
Proof.
  intros Hc s. exists [c]. unfold perform.
  destruct (answer (world s)) as [w r]. cbn. auto.
Qed.

Lemma caught_succeeds (m : M W event unit) :
  succeeds (try_catch m (fun _ => ret tt)).
Proof.
  intros s. unfold try_catch.
  destruct (m s) as [s' [[] | message]]; reflexivity.
Qed.

Lemma succeeds_bind {A : Type} (m : M W event A) (k : A -> M W event unit) :
  (forall s, exists a, snd (m s) = Ok a) -> (forall a, succeeds (k a)) ->
  succeeds (bind m k).
Proof.
  intros Hm Hk s. unfold bind.
  destruct (Hm s) as (a & Ha).
  destruct (m s) as [s' [a' | message]]; cbn [snd] in Ha; [| discriminate].
  apply Hk.
Qed.

Lemma succeeds_for_each {A : Type} (l : list A)
    (body : A -> M W event unit) :
  (forall x, succeeds (body x)) -> succeeds (for_each l body).
Proof.
  intros Hbody. induction l as [| x l IH]; cbn [for_each]; intros s.
  - reflexivity.
  - unfold bind. specialize (Hbody x s).
    destruct (body x s) as [s' [[] | message]]; cbn [snd] in Hbody;
      [apply IH | discriminate].
Qed.

End EffectFacts.

(** ** Creating a table from the schema of the client *)

Section SchemaFacts.
Import Effect Schema.
Local Open Scope string_scope.

Variable W : Type.
Variable event : Type.
Variable db : store W.

Lemma issues_executeQuery (P : call -> Prop) (database : Js.value)
    (stmt : statement) :
  P (ExecuteQuery database stmt) ->
  issues P (executeQuery W event db database stmt).
Proof. intros HP. apply issues_perform. exact HP. Qed.

Lemma createTableIndexes_queries (database tableName : Js.value)
    (indexes : list index) :
  issues (query_on database)
    (createTableIndexes W event db database tableName indexes)
  /\ succeeds (createTableIndexes W event db database tableName indexes).
Proof.
  split; unfold createTableIndexes.
  - apply issues_try_catch; [| intros; apply issues_ret].
    apply issues_for_each. intros i.
    destruct (length (COLUMNS i) =? 0)%nat; [apply issues_ret |].
    apply issues_bind; [| intros; apply issues_ret].
    apply issues_executeQuery. eexists; reflexivity.
  - apply caught_succeeds.
Qed.

Lemma add_indexes_queries (database : Js.value) (queries : list string) :
  issues (query_on database) (add_indexes W event db database queries)
  /\ succeeds (add_indexes W event db database queries).
Proof.
  split; unfold add_indexes.
  - apply issues_for_each. intros q.
    apply issues_try_catch; [| intros; apply issues_ret].
    apply issues_bind; [| intros; apply issues_ret].
    apply issues_executeQuery. eexists; reflexivity.
  - apply succeeds_for_each. intros q. apply caught_succeeds.
Qed.

Lemma industry_indexes_queries (database tableName databaseType : Js.value) :
  let industry : M W event unit :=
    if is_string databaseType "hospitality"
    then add_indexes W event db database
           (hospitalityIndexes (Js.text tableName))
    else if is_string databaseType "retail"
    then add_indexes W event db database (retailIndexes (Js.text tableName))
    else ret tt in
  issues (query_on database) industry /\ succeeds industry.
Proof.
  cbv zeta.
  destruct (is_string databaseType "hospitality");
    [apply add_indexes_queries |].
  destruct (is_string databaseType "retail");
    [apply add_indexes_queries |].
  split; [apply issues_ret | intros s; reflexivity].
Qed.

(** The run of [createTableWithSchema] from any state, once the columns
    can be defined. *)
Lemma create_table_run (database tableName : Js.value) (s : schema)
    (databaseType : Js.value) (create : statement)
    (st : state W event) :
  create_statement tableName (columns s) = Ok create ->
  let done :=
    createTableWithSchema W event db database tableName s databaseType st in
  let answer := snd (db_executeQuery db (world st) database create) in
  exists more,
    log (fst done)
    = (log st ++ map Call (ExecuteQuery database create :: more))%list
    /\ Forall (query_on database) more
    /\ match answer with
       | Ok _ => snd done = Ok tt
       | Thrown m => snd done = Thrown m /\ more = []
       end.
Proof.
  intros Hcreate. cbv zeta. unfold createTableWithSchema.
  rewrite Hcreate.
  match goal with
  | |- context [bind (executeQuery _ _ _ _ _) (fun _ => ?body)] =>
      set (rest := body)
  end.
  unfold bind, executeQuery, perform.
  destruct (db_executeQuery db (world st) database create)
    as [w1 [r | m]]; cbn [snd fst].
  - set (st1 := {| world := w1;
                   log := (log st
                           ++ [Call (ExecuteQuery database create)])%list |}).
    assert (Hrest : issues (query_on database) rest /\ succeeds rest).
    { subst rest. split.
      - apply issues_bind.
        + destruct (0 <? length (indexes s))%nat;
            [apply createTableIndexes_queries | apply issues_ret].
        + intros _.
          apply (industry_indexes_queries database tableName databaseType).
      - apply succeeds_bind.
        + intros s0. exists tt.
          destruct (0 <? length (indexes s))%nat;
            [apply createTableIndexes_queries | reflexivity].
        + intros _.
          apply (industry_indexes_queries database tableName databaseType). }
    destruct Hrest as [Hissues Hok].
    destruct (Hissues st1) as (more & Hlog & Hmore).
    exists more. split; [| split; [exact Hmore | apply Hok]].
    rewrite Hlog. subst st1. cbn [log map].
    rewrite <- app_assoc. reflexivity.
  - exists []. cbn. auto.
Qed.

(** X9.  [createTableWithSchema] sends the CREATE TABLE statement first and
    stands or falls with it: when the store accepts it the call succeeds,
    whatever becomes of the indexes, and when the store refuses it the call
    fails with the error of the store and sends nothing more.  Every
    statement goes to the database of the call.  A column whose type cannot
    be read fails the call before anything is sent. *)
Theorem create_table_stands_on_create (database tableName : Js.value)
    (s : schema) (databaseType : Js.value) (w : W) :
  let done :=
    run (createTableWithSchema W event db database tableName s databaseType)
      w in
  match create_statement tableName (columns s) with
  | Thrown m => snd done = Thrown m /\ log (fst done) = []
  | Ok create =>
      exists more,
        log (fst done) = map Call (ExecuteQuery database create :: more)
        /\ Forall (query_on database) more
        /\ match snd (db_executeQuery db w database create) with
           | Ok _ => snd done = Ok tt
           | Thrown m => snd done = Thrown m /\ more = []
           end
  end.
Proof.
  cbv zeta.
  destruct (create_statement tableName (columns s)) as [create | m] eqn:Hc.
  - exact (create_table_run database tableName s databaseType create
             {| world := w; log := [] |} Hc).
  - unfold run, createTableWithSchema. rewrite Hc. split; reflexivity.
Qed.

End SchemaFacts.

(** ** The handlers of table maintenance *)

Section MaintenanceFacts.
Import Effect Maintenance.
Local Open Scope string_scope.

Variable W : Type.
Variable db : store W.
Variable license : License.env.
Variable string_positive : string -> bool.

(** X7.  A [force_sync_request] with the action [drop_all_tables], from an
    identified socket whose database is found, never reports success: its
    only answer is a [force_sync_response] with [success: false] and the
    error [machineName is not defined].  It asks for the table SalesDetail,
    drops it when the store says it exists, and stops there: nothing is
    asked of the store about StockItems. *)
Theorem force_sync_never_succeeds (sock : Server.socket) (data : Js.value)
    (database : Js.value) (w : W) :
  Server.unidentified sock = false ->
  Server.nullish data = false ->
  Js.prop data "action" = Js.Str "drop_all_tables" ->
  database_of license sock = Some database ->
  let done := run (force_sync_request W db license sock data) w in
  let asked := TableExists database (Js.Str "SalesDetail") in
  let dropped :=
    ExecuteQuery database (plain "DROP TABLE `SalesDetail`") in
  let answer :=
    Emit (force_sync_response false (Some "machineName is not defined") []) in
  snd done = Ok tt
  /\ log (fst done)
     = match snd (db_tableExists db w database (Js.Str "SalesDetail")) with
       | Ok true => [Call asked; Call dropped; answer]
       | _ => [Call asked; answer]
       end.
Proof.
  intros Hid Hdata Haction Hdb. cbv zeta.
  unfold force_sync_request, run, try_catch.
  rewrite Hdata, Hid, Haction, Hdb.
  cbn [Server.is_string]. rewrite String.eqb_refl.
  unfold tablesToDrop. cbn [for_each].
  unfold bind at 1. unfold bind at 1.
  unfold drop_table, try_catch, bind, tableExists, executeQuery, perform,
    not_defined, throw, emit, record.
  cbn [world log].
  destruct (db_tableExists db w database (Js.Str "SalesDetail"))
    as [w1 [[|] | m]]; cbn [snd].
  - match goal with
    | |- context [db_executeQuery db ?w' ?d ?q] =>
        destruct (db_executeQuery db w' d q) as [w2 [r | m]]
    end; cbn; split; reflexivity.
  - cbn; split; reflexivity.
  - cbn; split; reflexivity.
Qed.

(** X8.  [verify_and_sync_table] from an identified socket whose database
    is found answers with one event and schedules at most one request for
    a bulk sync, 100 ms later.  The request is scheduled exactly when the
    store says the table exists and the count of its rows comes back as the
    number 0; a count that cannot be read schedules nothing, and a table
    that does not exist is not counted. *)
Theorem bulk_sync_only_for_empty_table (sock : Server.socket)
    (data : Js.value) (database : Js.value) (w : W) :
  Server.unidentified sock = false ->
  Server.nullish data = false ->
  database_of license sock = Some database ->
  let tableName := Js.prop data "tableName" in
  let done := run (verify_and_sync_table W db license sock data) w in
  let request := csv_bulk_sync_request tableName (Server.appId sock) in
  let count :=
    plain ("SELECT COUNT(*) as count FROM `" ++ Js.text tableName ++ "`") in
  snd done = Ok tt
  /\ (exists e, emitted (log (fst done)) = [e])
  /\ (timers (log (fst done)) = []
      \/ timers (log (fst done)) = [(100%Z, request)])
  /\ (timers (log (fst done)) = [(100%Z, request)] <->
      exists w1 w2 result row more,
        db_tableExists db w database tableName = (w1, Ok true)
        /\ db_executeQuery db w1 database count = (w2, Ok result)
        /\ rows result = row :: more
        /\ Js.get row "count" = Js.Num 0)
  /\ (calls (log (fst done))
      = match snd (db_tableExists db w database tableName) with
        | Ok true =>
            [TableExists database tableName; ExecuteQuery database count]
        | _ => [TableExists database tableName]
        end).
Proof.
  intros Hid Hdata Hdb. cbv zeta.
  unfold verify_and_sync_table, run.
  rewrite Hdata, Hid, Hdb.
  unfold count_rows, try_catch, bind, tableExists, executeQuery, perform,
    emit, set_timeout, record, ret, throw.
  cbn [world log].
  destruct (db_tableExists db w database (Js.prop data "tableName"))
    as [w1 [[|] | m]] eqn:Hexists; cbn [snd fst world log].
  - match goal with
    | |- context [db_executeQuery db w1 ?d ?q] =>
        destruct (db_executeQuery db w1 d q) as [w2 [result | m]] eqn:Hq
    end.
    + destruct (rows result) as [| row more] eqn:Hrows.
      * cbn. split; [reflexivity |]. split; [eauto |].
        split; [auto |]. split; [| reflexivity].
        split; [discriminate |].
        intros (w1' & w2' & result' & row' & more' & H1 & H2 & H3 & _).
        injection H1 as <-. rewrite Hq in H2. injection H2 as _ <-.
        congruence.
      * cbn beta iota. destruct (is_zero (Js.get row "count")) eqn:Hz.
        -- cbn.
           split; [reflexivity |]. split; [eauto |].
           split; [auto |]. split; [| reflexivity].
           split; [intros _ | reflexivity].
           exists w1, w2, result, row, more.
           repeat split; auto.
           destruct (Js.get row "count") as [| | | [| |] | |];
             try discriminate; reflexivity.
        -- cbn.
           split; [reflexivity |]. split; [eauto |].
           split; [auto |]. split; [| reflexivity].
           split; [discriminate |].
           intros (w1' & w2' & result' & row' & more' & H1 & H2 & H3 & H4).
           injection H1 as <-. rewrite Hq in H2. injection H2 as _ <-.
           rewrite Hrows in H3. injection H3 as <- _.
           rewrite H4 in Hz. discriminate.
    + cbn. split; [reflexivity |]. split; [eauto |].
      split; [auto |]. split; [| reflexivity].
      split; [discriminate |].
      intros (w1' & w2' & result' & row' & more' & H1 & H2 & _).
      injection H1 as <-. rewrite Hq in H2. discriminate.
  - cbn. split; [reflexivity |]. split; [eauto |].
    split; [auto |]. split; [| reflexivity].
    split; [discriminate |].
    intros (w1' & w2' & result' & row' & more' & H1 & _). discriminate.
  - cbn. split; [reflexivity |]. split; [eauto |].
    split; [auto |]. split; [| reflexivity].
    split; [discriminate |].
    intros (w1' & w2' & result' & row' & more' & H1 & _). discriminate.
Qed.

(** X10.  [create_table_from_schema] from an identified socket whose
    database is found, for a schema whose columns can be defined, answers
    with one [table_created] event whose [success] says whether the store
    accepted the CREATE TABLE statement; a failed index is not reported.
    The request for a bulk sync is scheduled, 500 ms later, only after an
    accepted CREATE TABLE and only when [isInitialSync] is truthy. *)
Theorem table_created_reports_create (sock : Server.socket)
    (data : create_request) (s : Schema.schema) (database : Js.value)
    (create : statement) (w : W) :
  Server.unidentified sock = false ->
  database_of license sock = Some database ->
  schema data = Some s ->
  Schema.create_statement (tableName data) (Schema.columns s) = Ok create ->
  let done := run (create_table_from_schema W db license sock data) w in
  let request :=
    SetTimeout 500
      (csv_bulk_sync_request (tableName data) (Server.appId sock)) in
  snd done = Ok tt
  /\ exists queries,
       Forall (query_on database) queries
       /\ log (fst done)
          = (map Call (ExecuteQuery database create :: queries)
             ++ match snd (db_executeQuery db w database create) with
                | Ok _ =>
                    Emit (table_created (tableName data) true None)
                    :: (if Js.truthy (isInitialSync data)
                        then [request] else [])
                | Thrown m =>
                    [Emit (table_created
                             (Js.or (tableName data) (Js.Str "unknown"))
                             false (Some m))]
                end)%list.
Proof.
  intros Hid Hdb Hschema Hcreate. cbv zeta.
  unfold create_table_from_schema, run.
  rewrite Hid, Hdb, Hschema.
  pose proof (create_table_run W event db database (tableName data) s
                (databaseType data) create {| world := w; log := [] |}
                Hcreate) as Hrun.
  cbv zeta in Hrun. cbn [world log app] in Hrun.
  destruct Hrun as (queries & Hlog & Hqueries & Hanswer).
  unfold try_catch, bind.
  destruct (Schema.createTableWithSchema W event db database
              (tableName data) s (databaseType data)
              {| world := w; log := [] |}) as [s1 [[] | m]];
    cbn [fst snd] in Hlog, Hanswer;
    destruct (snd (db_executeQuery db w database create)) as [r | m'];
    try discriminate; try (destruct Hanswer; discriminate).
  - destruct (Js.truthy (isInitialSync data)); cbn;
      (split; [reflexivity |]); exists queries;
      (split; [exact Hqueries |]); rewrite Hlog; cbn;
      rewrite <- ?app_assoc; reflexivity.
  - destruct Hanswer as [Hm ->]. injection Hm as ->. cbn.
    split; [reflexivity |]. exists [].
    split; [constructor |]. rewrite Hlog. reflexivity.
Qed.

Lemma execute_on_connection (stmt : statement) :
  issues on_connection (execute W event db stmt).
Proof. apply issues_perform. eexists; reflexivity. Qed.

Lemma clear_table_quiet (database : Js.value) (tableName : string) :
  issues on_connection
    (clear_table W db string_positive database tableName)
  /\ succeeds (clear_table W db string_positive database tableName).
Proof.
  split; unfold clear_table; [| apply caught_succeeds].
  apply issues_try_catch; [| intros; apply issues_ret].
  apply issues_bind; [apply execute_on_connection |].
  intros [| row more]; [apply issues_throw |].
  destruct (positive string_positive (Js.get row "count"));
    [| apply issues_ret].
  repeat (apply issues_bind; [apply execute_on_connection | intros _]).
  apply issues_ret.
Qed.

(** X11.  [clear_database_tables] from an identified socket whose database
    is found closes what it opens.  Once it holds a connection it begins a
    transaction, sends statements on that connection only, and ends in one
    of two ways: with a commit, the answer that all seven tables were
    cleared, and the release of the connection; or, when the begin or the
    commit fails, with a rollback, the release, and the answer that carries
    the error.  A table that could not be dropped changes neither. *)
Theorem clear_closes_what_it_opens (sock : Server.socket) (data : Js.value)
    (database : Js.value) (w : W) :
  Server.unidentified sock = false ->
  Server.nullish data = false ->
  database_of license sock = Some database ->
  let done :=
    run (clear_database_tables W db license string_positive sock data) w in
  let failed m := Emit (clear_database_response false (Some m) []) in
  snd done = Ok tt
  /\ match snd (db_getConnection db w) with
     | Thrown m => log (fst done) = [Call GetConnection; failed m]
     | Ok _ =>
         exists executes,
           Forall on_connection executes
           /\ (log (fst done)
               = ([Call GetConnection; Call BeginTransaction]
                  ++ map Call executes
                  ++ [Call Commit;
                      Emit (clear_database_response true None tablesToClear);
                      Call Release])%list
               \/ exists m closing,
                    (closing = [] \/ closing = [Call Commit])
                    /\ log (fst done)
                       = ([Call GetConnection; Call BeginTransaction]
                          ++ map Call executes ++ closing
                          ++ [Call Rollback; Call Release; failed m])%list)
     end.
Proof.
  intros Hid Hdata Hdb. cbv zeta.
  unfold clear_database_tables, run.
  rewrite Hid, Hdata, Hdb.
  set (loop := for_each tablesToClear
                 (clear_table W db string_positive database)).
  assert (Hloop : issues on_connection loop /\ succeeds loop).
  { subst loop. split.
    - apply issues_for_each. intros t. apply clear_table_quiet.
    - apply succeeds_for_each. intros t. apply clear_table_quiet. }
  destruct Hloop as [Hissues Hok].
  unfold try_catch, try_finally, bind, getConnection, beginTransaction,
    commit, rollback, release, perform, emit, record, throw.
  cbn [world log app].
  destruct (db_getConnection db w) as [w1 [[] | m]]; cbn [fst snd world log];
    [| split; reflexivity].
  destruct (conn_beginTransaction db w1) as [w2 [[] | m]];
    cbn [fst snd world log app].
  - match goal with
    | |- context [loop ?st] =>
        specialize (Hissues st); specialize (Hok st);
        destruct (loop st) as [s3 [[] | m]]
    end; cbn [fst snd] in Hissues, Hok; [| discriminate].
    destruct Hissues as (executes & Hlog & Hexecutes).
    cbn [log] in Hlog.
    destruct (conn_commit db (world s3)) as [w4 [[] | m]];
      cbn [fst snd world log].
    + split; [reflexivity |]. exists executes. split; [exact Hexecutes |].
      left. rewrite Hlog. cbn. rewrite <- !app_assoc. reflexivity.
    + destruct (conn_rollback db w4) as [w5 [[] | m']];
        cbn [fst snd world log];
        (split; [reflexivity |]); exists executes;
        (split; [exact Hexecutes |]); right;
        eexists _, [Call Commit]; (split; [right; reflexivity |]);
        rewrite Hlog; cbn; rewrite <- !app_assoc; reflexivity.
  - destruct (conn_rollback db w2) as [w3 [[] | m']];
      cbn [fst snd world log];
      (split; [reflexivity |]); exists [];
      (split; [constructor |]); right;
      eexists _, []; (split; [left; reflexivity |]); reflexivity.
Qed.

(** X12.  A socket that has not identified itself reaches no table through
    the maintenance handlers: each of them answers with its error event and
    asks nothing of the store. *)
Theorem unidentified_socket_reaches_no_table (sock : Server.socket)
    (data : Js.value) (request : create_request) (w : W) :
  Server.unidentified sock = true ->
  Server.nullish data = false ->
  run (force_sync_request W db license sock data) w
  = ({| world := w;
        log := [Emit (force_sync_error "Client not properly identified")] |},
     Ok tt)
  /\ run (verify_and_sync_table W db license sock data) w
     = ({| world := w;
           log := [Emit (verify_and_sync_error
                           "Client not properly identified. Missing storeId or appId.")] |},
        Ok tt)
  /\ run (create_table_from_schema W db license sock request) w
     = ({| world := w;
           log := [Emit (table_creation_error
                           "Client not properly identified"
                           (tableName request))] |},
        Ok tt)
  /\ run (clear_database_tables W db license string_positive sock data) w
     = ({| world := w;
           log := [Emit (clear_database_response false
                           (Some "Client missing store or app identification")
                           [])] |},
        Ok tt).
Proof.
  intros Hid Hdata.
  unfold force_sync_request, verify_and_sync_table, create_table_from_schema,
    clear_database_tables, run, try_catch.
  rewrite Hid, Hdata. cbn. repeat split; reflexivity.
Qed.

End MaintenanceFacts.

(** The store of the examples says SalesDetail exists: the table is
    dropped, and the answer is the failure all the same. *)
Lemma force_sync_never_succeeds_witness :
  let data := Js.Obj [("action", Js.Str "drop_all_tables")] in
  let done :=
    Effect.run
      (Maintenance.force_sync_request unit Fixture.empty_store
         Sample.directory Fixture.session data) tt in
  snd done = Ok tt
  /\ Effect.log (fst done)
     = [Effect.Call
          (Effect.TableExists (Js.Str "A") (Js.Str "SalesDetail"));
        Effect.Call
          (Effect.ExecuteQuery (Js.Str "A")
             (Maintenance.plain "DROP TABLE `SalesDetail`"));
        Effect.Emit
          (Maintenance.force_sync_response false
             (Some "machineName is not defined") [])].
Proof.
  intros data done.
  exact (force_sync_never_succeeds unit Fixture.empty_store Sample.directory
           Fixture.session data (Js.Str "A") tt
           eq_refl eq_refl eq_refl eq_refl).
Defined.

(** The table Sales exists and is empty: the bulk sync is requested. *)
Lemma bulk_sync_only_for_empty_table_witness :
  let data := Js.Obj [("tableName", Js.Str "Sales")] in
  let done :=
    Effect.run
      (Maintenance.verify_and_sync_table unit Fixture.empty_store
         Sample.directory Fixture.session data) tt in
  Effect.timers (Effect.log (fst done))
  = [(100%Z, Maintenance.csv_bulk_sync_request (Js.Str "Sales") (Js.Str "A"))].
Proof.
  intros data done.
  destruct (bulk_sync_only_for_empty_table unit Fixture.empty_store
              Sample.directory Fixture.session data (Js.Str "A") tt
              eq_refl eq_refl eq_refl) as (_ & _ & _ & Hrequested & _).
  apply Hrequested.
  exists tt, tt,
    {| Effect.rows := [Fixture.no_rows]; Effect.affectedRows := 0 |},
    Fixture.no_rows, [].
  repeat split; reflexivity.
Defined.

(** A table of one key column, created for an initial sync. *)
Lemma table_created_reports_create_witness :
  let column : Js.object :=
    [("COLUMN_NAME", Js.Str "InvoiceNo"); ("DATA_TYPE", Js.Str "int");
     ("IS_NULLABLE", Js.Str "NO"); ("COLUMN_KEY", Js.Str "PRI")] in
  let s := {| Schema.columns := [column]; Schema.indexes := [] |} in
  let data :=
    {| Maintenance.tableName := Js.Str "Sales";
       Maintenance.schema := Some s;
       Maintenance.isInitialSync := Js.Bool true;
       Maintenance.databaseType := Js.Str "retail" |} in
  let done :=
    Effect.run
      (Maintenance.create_table_from_schema unit Fixture.empty_store
         Sample.directory Fixture.session data) tt in
  exists create,
    Schema.create_statement (Js.Str "Sales") [column] = Ok create
    /\ snd done = Ok tt
    /\ exists queries,
         Forall (Effect.query_on (Js.Str "A")) queries
         /\ Effect.log (fst done)
            = map Effect.Call
                (Effect.ExecuteQuery (Js.Str "A") create :: queries)
              ++ [Effect.Emit
                    (Maintenance.table_created (Js.Str "Sales") true None);
                  Effect.SetTimeout 500
                    (Maintenance.csv_bulk_sync_request (Js.Str "Sales")
                       (Js.Str "A"))].
Proof.
  intros column s data done.
  eexists. split; [vm_compute; reflexivity |].
  exact (table_created_reports_create unit Fixture.empty_store
           Sample.directory Fixture.session data s (Js.Str "A") _ tt
           eq_refl eq_refl eq_refl eq_refl).
Defined.

(** The store of the examples accepts everything: the seven tables are
    reported as cleared and the connection is released. *)
Lemma clear_closes_what_it_opens_witness :
  let done :=
    Effect.run
      (Maintenance.clear_database_tables unit Fixture.empty_store
         Sample.directory (fun _ => false) Fixture.session (Js.Obj [])) tt in
  snd done = Ok tt
  /\ exists executes,
       Forall Effect.on_connection executes
       /\ (Effect.log (fst done)
           = [Effect.Call Effect.GetConnection;
              Effect.Call Effect.BeginTransaction]
             ++ map Effect.Call executes
             ++ [Effect.Call Effect.Commit;
                 Effect.Emit
                   (Maintenance.clear_database_response true None
                      Maintenance.tablesToClear);
                 Effect.Call Effect.Release]
           \/ exists m closing,
                (closing = [] \/ closing = [Effect.Call Effect.Commit])
                /\ Effect.log (fst done)
                   = [Effect.Call Effect.GetConnection;
                      Effect.Call Effect.BeginTransaction]
                     ++ map Effect.Call executes ++ closing
                     ++ [Effect.Call Effect.Rollback;
                         Effect.Call Effect.Release;
                         Effect.Emit
                           (Maintenance.clear_database_response false
                              (Some m) [])]).
Proof.
  intros done.
  exact (clear_closes_what_it_opens unit Fixture.empty_store Sample.directory
           (fun _ => false) Fixture.session (Js.Obj []) (Js.Str "A") tt
           eq_refl eq_refl eq_refl).
Defined.

(** A socket as the connection hands it over asks for a forced sync. *)
Lemma unidentified_socket_reaches_no_table_witness :
  let data := Js.Obj [("action", Js.Str "drop_all_tables")] in
  Effect.run
    (Maintenance.force_sync_request unit Fixture.empty_store
       Sample.directory Server.fresh data) tt
  = ({| Effect.world := tt;
        Effect.log :=
          [Effect.Emit
             (Maintenance.force_sync_error
                "Client not properly identified")] |},
     Ok tt).
Proof.
  intros data.
  exact (proj1
           (unidentified_socket_reaches_no_table unit Fixture.empty_store
              Sample.directory (fun _ => false) Server.fresh data
              {| Maintenance.tableName := Js.Str "Sales";
                 Maintenance.schema := None;
                 Maintenance.isInitialSync := Js.Undefined;
                 Maintenance.databaseType := Js.Undefined |} tt
              eq_refl eq_refl)).
Defined.

(** ** Replacing single characters *)

Section SubstituteFacts.
Import JsString Regex Chars.

(** A pattern that matches exactly one character, chosen by [p]. *)
Variable r : re.
Variable p : ascii -> bool.
Hypothesis single :
  forall (R : Type) (s : chars) (cs : captures) (k : cont (R := R)),
    run false r s cs k
    = match s with
      | d :: s' => if p d then k s' cs else None
      | [] => None
      end.

Lemma search_single (s : chars) :
  match search false r s with
  | None => substitute p [] s = s /\ forall t, substitute p t s = s
  | Some (skipped, cs, rest) =>
      exists d, s = skipped ++ d :: rest /\ p d = true
                /\ (forall t, substitute p t skipped = skipped)
  end.
Proof.
  induction s as [| c s IH]; cbn [search]; unfold match_here;
    rewrite single.
  - split; [reflexivity | intros; reflexivity].
  - destruct (p c) eqn:Hc.
    + exists c. split; [reflexivity |]. split; [exact Hc |].
      intros; reflexivity.
    + destruct (search false r s) as [[[skipped cs] rest] |].
      * destruct IH as (d & -> & Hd & Hskipped).
        exists d. split; [reflexivity |]. split; [exact Hd |].
        intros t. unfold substitute in *. cbn. rewrite Hc. cbn.
        rewrite Hskipped. reflexivity.
      * destruct IH as [_ IH].
        assert (H : forall t, substitute p t (c :: s) = c :: s).
        { intros t. unfold substitute in *. cbn. rewrite Hc. cbn.
          rewrite IH. reflexivity. }
        split; [apply H | exact H].
Qed.

Lemma replace_from_single (t : string) (n : nat) (s : chars) :
  (length s < n)%nat ->
  replace_from n false r [PText t] s = substitute p (of_string t) s.
Proof.
  revert s. induction n as [| n IH]; intros s Hn; [lia |].
  cbn [replace_from].
  pose proof (search_single s) as Hs.
  destruct (search false r s) as [[[skipped cs] rest] |].
  - destruct Hs as (d & -> & Hd & Hskipped).
    rewrite length_app. cbn [length].
    replace (length rest <? length skipped + S (length rest)
                            - length skipped)%nat with true
      by (symmetry; apply Nat.ltb_lt; lia).
    rewrite IH by (rewrite length_app in Hn; cbn [length] in Hn; lia).
    unfold substitute. rewrite flat_map_app. cbn [flat_map].
    rewrite Hd. fold (substitute p (of_string t) skipped).
    rewrite Hskipped. cbn [expand flat_map]. rewrite app_nil_r.
    reflexivity.
  - destruct Hs as [_ Hs]. rewrite Hs. reflexivity.
Qed.

Lemma replace_all_single (t s : string) :
  replace_all false r [PText t] s
  = to_string (substitute p (of_string t) (of_string s)).
Proof.
  unfold replace_all. rewrite replace_from_single; [reflexivity |].
  unfold of_string.
  assert (H : forall u, length (list_ascii_of_string u) = String.length u).
  { induction u as [| c u IHu]; cbn; [| rewrite IHu]; reflexivity. }
  rewrite H. lia.
Qed.

End SubstituteFacts.

(** ** The variables and statements of a CSV import *)

Section MappingFacts.
Import JsString Regex Chars CsvMapping.
Local Open Scope string_scope.

Lemma csv_variable_chars (csvCol : string) :
  of_string (csv_variable csvCol)
  = "@"%char
    :: map (fun c => if alphanumeric c then c else "_"%char)
           (of_string csvCol).
Proof.
  unfold csv_variable.
  rewrite (replace_all_single _ (fun c => negb (alphanumeric c))).
  - change (of_string ("@" ++ ?x)) with ("@"%char :: of_string x).
    rewrite of_to_string. f_equal. unfold substitute.
    induction (of_string csvCol) as [| c l IH]; [reflexivity |].
    cbn [flat_map map]. rewrite IH.
    destruct (alphanumeric c); reflexivity.
  - intros R s cs k. cbn [run]. destruct s as [| d s']; [reflexivity |].
    replace (class_matches false true
               [CRange "a" "z"; CRange "A" "Z"; CRange "0" "9"] d)
      with (negb (alphanumeric d)); [reflexivity |].
    unfold class_matches, alphanumeric, is_lower, is_upper, is_digit.
    cbn [existsb item_matches andb xorb]. unfold in_range.
    rewrite !orb_false_r.
    change (nat_of_ascii "a") with 97%nat.
    change (nat_of_ascii "z") with 122%nat.
    change (nat_of_ascii "A") with 65%nat.
    change (nat_of_ascii "Z") with 90%nat.
    change (nat_of_ascii "0") with 48%nat.
    change (nat_of_ascii "9") with 57%nat.
    rewrite orb_assoc. reflexivity.
Qed.

(** X13.  The variable that [buildColumnMappings] makes of a CSV header is
    an [@] followed by the header with every character other than an ASCII
    letter or digit replaced by an underscore: it is as long as the header
    plus one, keeps each letter and digit in its place, and holds no other
    character than letters, digits and underscores after the [@]. *)
Theorem csv_variable_is_plain (csvCol : string) :
  exists name : chars,
    of_string (csv_variable csvCol) = "@"%char :: name
    /\ length name = String.length csvCol
    /\ Forall (fun c => alphanumeric c = true \/ c = "_"%char) name
    /\ name = map (fun c => if alphanumeric c then c else "_"%char)
                  (of_string csvCol).
Proof.
  eexists. split; [apply csv_variable_chars |].
  split; [| split; [| reflexivity]].
  - rewrite length_map. unfold of_string.
    induction csvCol as [| c u IH]; cbn; [| rewrite IH]; reflexivity.
  - apply List.Forall_forall. intros c Hin.
    apply in_map_iff in Hin. destruct Hin as (d & <- & _).
    destruct (alphanumeric d) eqn:Hd; auto.
Qed.

Lemma paired_combine (tableColumns csvVariables : list string) :
  paired tableColumns csvVariables = combine tableColumns csvVariables.
Proof.
  revert csvVariables.
  induction tableColumns as [| t ts IH]; intros [| v vs]; cbn;
    [reflexivity .. |]. rewrite IH. reflexivity.
Qed.

(** X14.  [buildColumnMappings] pairs by position, never by name: there is
    one variable per CSV header, one SET statement per table column that
    has a header at its index, and the statement at index [i] gives table
    column [i] the value of the variable of header [i].  Table columns
    beyond the last header get no statement. *)
Theorem column_mappings_are_positional (csvHeaders tableColumns : list string) :
  let m := buildColumnMappings csvHeaders tableColumns in
  csvColumns m = map csv_variable csvHeaders
  /\ length (setStatements m)
     = Nat.min (length tableColumns) (length csvHeaders)
  /\ (forall i tableCol csvCol,
        nth_error tableColumns i = Some tableCol ->
        nth_error csvHeaders i = Some csvCol ->
        nth_error (setStatements m) i
        = Some (set_statement tableCol (csv_variable csvCol)))
  /\ (forall i, (length csvHeaders <= i)%nat ->
                nth_error (setStatements m) i = None).
Proof.
  cbv zeta. unfold buildColumnMappings. cbn [csvColumns setStatements].
  rewrite paired_combine.
  split; [reflexivity |]. split; [| split].
  - rewrite length_map, length_combine, length_map. reflexivity.
  - intros i tableCol csvCol Ht Hc.
    rewrite nth_error_map.
    assert (H : nth_error (combine tableColumns (map csv_variable csvHeaders))
                  i = Some (tableCol, csv_variable csvCol)).
    { revert i Ht Hc. revert csvHeaders.
      induction tableColumns as [| t ts IH]; intros [| h hs] [| i] Ht Hc;
        cbn in *; try discriminate.
      - injection Ht as ->. injection Hc as ->. reflexivity.
      - apply IH; assumption. }
    rewrite H. reflexivity.
  - intros i Hi. apply nth_error_None.
    rewrite length_map, length_combine, length_map. lia.
Qed.

End MappingFacts.

(** ** Protected columns in the generated text *)

Section ProtectedFacts.
Import JsString Regex Chars CsvMapping Matching.
Local Open Scope string_scope.






























End ProtectedFacts.


(** ** Batches of legacy sync items *)

Section BatchFacts.
Import Server.
Context {answer : Type}.
Variable processSyncData :
  Js.value -> outcome (sync_report (answer := answer)).

(** How an item of the answer reports the outcome of its request. *)
Lemma batch_results_ok (batch : list Js.value) (results : list batch_item) :
  batch_results processSyncData batch = Ok results ->
  Forall2 (fun data item =>
             exists r, processSyncData data = Ok r
                       /\ item_syncId item = Js.prop data "syncId"
                       /\ item_success item = success r
                       /\ item_error item = error r
                       /\ item_result item = result r)
          batch results.
Proof.
  revert results. induction batch as [| data batch IH]; intros results H;
    cbn [batch_results] in H.
  - injection H as <-. constructor.
  - destruct (processSyncData data) as [r | m] eqn:Hr; [| discriminate].
    destruct (batch_results processSyncData batch) as [items | m];
      [| discriminate].
    injection H as <-. constructor; [| apply IH; reflexivity].
    exists r. cbn. auto.
Qed.

Lemma batch_results_thrown (batch : list Js.value) :
  Exists (fun data => exists m, processSyncData data = Thrown m) batch ->
  exists m, batch_results processSyncData batch = Thrown m.
Proof.
  induction 1 as [data batch (m & Hm) | data batch _ IH];
    cbn [batch_results].
  - rewrite Hm. eauto.
  - destruct (processSyncData data) as [r | m]; [| eauto].
    destruct IH as (m & ->). eauto.
Qed.

Lemma batch_results_all (batch : list Js.value) :
  Forall (fun data => exists r, processSyncData data = Ok r) batch ->
  exists results, batch_results processSyncData batch = Ok results.
Proof.
  induction 1 as [| data batch (r & Hr) _ (items & IH)];
    cbn [batch_results].
  - eauto.
  - rewrite Hr, IH. eauto.
Qed.

(** X15.  [batch_sync] answers a batch all or nothing.  When every item is
    an object and the service returns for it, the one [batch_sync_response]
    holds one
    result per item, in the order of the batch, each with the [syncId] and
    the outcome of its item.  When the service throws for some item, the
    answer is the bare error [Internal server error]: the results of the
    items before it are not sent. *)
Theorem batch_sync_all_or_nothing (sock : socket) (batch : list Js.value) :
  (Forall (fun data => nullish data = false
                       /\ exists r, processSyncData data = Ok r) batch ->
   exists results,
     batch_sync processSyncData sock batch
     = (sock, [Emit (batch_sync_response results)])
     /\ length results = length batch
     /\ Forall2 (fun data item =>
                   exists r, processSyncData data = Ok r
                             /\ item_syncId item = Js.prop data "syncId"
                             /\ item_success item = success r
                             /\ item_error item = error r
                             /\ item_result item = result r)
                batch results)
  /\ (Exists (fun data => exists m, processSyncData data = Thrown m) batch ->
      batch_sync processSyncData sock batch
      = (sock, [Emit (batch_sync_failure "Internal server error")])).
Proof.
  split.
  - intros Hall.
    assert (Hall' : Forall (fun data => exists r, processSyncData data = Ok r)
                      batch).
    { induction Hall as [| data l [_ H] _ IH]; constructor; assumption. }
    destruct (batch_results_all batch Hall') as (results & Hr).
    exists results. unfold batch_sync. rewrite Hr.
    split; [reflexivity |].
    pose proof (batch_results_ok batch results Hr) as H2.
    split; [| exact H2].
    clear -H2. induction H2; cbn; congruence.
  - intros Hsome. destruct (batch_results_thrown batch Hsome) as (m & Hm).
    unfold batch_sync. rewrite Hm. reflexivity.
Qed.

End BatchFacts.

(** ** The credentials of the update manager *)

Section BasicAuthFacts.
Import JsString UpdateRoutes.
Local Open Scope string_scope.
Local Open Scope list_scope.

Lemma split_fields_clean (sep : ascii) (s : chars) :
  Forall (fun field => ~ In sep field) (split sep s).
Proof.
  induction s as [| c s IH]; cbn [split].
  - constructor; [intros [] | constructor].
  - destruct (Ascii.eqb_spec c sep) as [-> | Hc].
    + constructor; [intros [] | exact IH].
    + destruct (split sep s) as [| field fields].
      * constructor; [| constructor]. intros [H | []]. congruence.
      * inversion IH as [| ? ? Hfield Hfields]; subst.
        constructor; [| exact Hfields].
        intros [H | H]; [congruence | exact (Hfield H)].
Qed.

Lemma split_clean (sep : ascii) (field : chars) :
  ~ In sep field -> split sep field = [field].
Proof.
  induction field as [| c field IH]; intros Hclean; cbn [split].
  - reflexivity.
  - destruct (Ascii.eqb_spec c sep) as [-> | Hc].
    + exfalso. apply Hclean. left. reflexivity.
    + rewrite IH; [reflexivity |]. intros H. apply Hclean. right. exact H.
Qed.

Lemma split_clean_app (sep : ascii) (field rest : chars) :
  ~ In sep field ->
  split sep (field ++ sep :: rest) = field :: split sep rest.
Proof.
  induction field as [| c field IH]; intros Hclean; cbn [split app].
  - rewrite Ascii.eqb_refl. reflexivity.
  - destruct (Ascii.eqb_spec c sep) as [-> | Hc].
    + exfalso. apply Hclean. left. reflexivity.
    + rewrite IH; [reflexivity |]. intros H. apply Hclean. right. exact H.
Qed.

Lemma split_nonempty (sep : ascii) (s : chars) : split sep s <> [].
Proof.
  destruct s as [| c s]; cbn [split]; [discriminate |].
  destruct (Ascii.eqb c sep); [discriminate |].
  destruct (split sep s); discriminate.
Qed.

Lemma starts_with_prefix (p s : chars) :
  starts_with p s = true -> exists rest, s = p ++ rest.
Proof.
  revert s. induction p as [| a p IH]; intros s H; cbn [starts_with] in H.
  - exists s. reflexivity.
  - destruct s as [| b s]; [discriminate |].
    apply andb_prop in H. destruct H as [Hab H].
    apply Ascii.eqb_eq in Hab. subst b.
    destruct (IH s H) as (rest & ->). exists rest. reflexivity.
Qed.

Lemma map_fixed {A : Type} (f : A -> A) (l : list A) :
  Forall (fun x => f x = x) l -> map f l = l.
Proof. induction 1 as [| x l Hx _ IH]; cbn; congruence. Qed.

Lemma char_of_sextet_not_space (x : Base64.sextet) :
  Base64.char_of_sextet x <> " "%char.
Proof.
  destruct x as [[[[[b5 b4] b3] b2] b1] b0].
  destruct b5, b4, b3, b2, b1, b0; discriminate.
Qed.

Lemma encode_no_space (b : Base64.bytes) : ~ In " "%char (Base64.encode b).
Proof.
  induction b as [| x | x y | x y z rest IH] using list_ind3;
    cbn [Base64.encode].
  - intros [].
  - destruct (Base64.split3 x Base64.zero Base64.zero)
      as [[[s1 s2] s3] s4].
    intros [H | [H | [H | [H | []]]]];
      try discriminate; eapply char_of_sextet_not_space; eauto.
  - destruct (Base64.split3 x y Base64.zero) as [[[s1 s2] s3] s4].
    intros [H | [H | [H | [H | []]]]];
      try discriminate; eapply char_of_sextet_not_space; eauto.
  - destruct (Base64.split3 x y z) as [[[s1 s2] s3] s4].
    intros [H | [H | [H | [H | H]]]];
      try (eapply char_of_sextet_not_space; eauto; fail).
    exact (IH H).
Qed.

(** X16.  [basicAuth] never lets a request through when the configured
    user name or password holds a colon: it compares them with the first
    two fields that the colons cut out of the credentials, and a field
    holds no colon.  The middleware does not throw either. *)
Theorem colon_in_credentials_locks_out
    (UPDATE_ADMIN_USERNAME UPDATE_ADMIN_PASSWORD authorization
       : option string) :
  let validUsername := env_or UPDATE_ADMIN_USERNAME "admin" in
  let validPassword := env_or UPDATE_ADMIN_PASSWORD "updatepassword123" in
  let answer :=
    basicAuth UPDATE_ADMIN_USERNAME UPDATE_ADMIN_PASSWORD authorization in
  (forall message, answer <> Throws message)
  /\ (In ":"%char (of_string validUsername)
      \/ In ":"%char (of_string validPassword) ->
      answer <> Next).
Proof.
  cbv zeta. unfold basicAuth.
  destruct authorization as [authHeader |];
    [| split; [intros | intros _]; discriminate].
  destruct (String.eqb authHeader EmptyString) eqn:Hempty; cbn [orb];
    [split; [intros | intros _]; discriminate |].
  destruct (startsWith authHeader "Basic ") eqn:Hstart; cbn [negb];
    [| split; [intros | intros _]; discriminate].
  assert (Hfields : exists first base64 more,
             split " " (of_string authHeader) = first :: base64 :: more).
  { apply starts_with_prefix in Hstart. destruct Hstart as (rest & ->).
    change (of_string "Basic " ++ rest)
      with (of_string "Basic" ++ " "%char :: rest).
    rewrite split_clean_app
      by (cbn; intros H; repeat destruct H as [H | H];
          discriminate || exact H).
    pose proof (split_nonempty " " rest) as Hrest.
    destruct (split " " rest) as [| field fields]; [congruence | eauto]. }
  destruct Hfields as (first & base64 & more & ->).
  pose proof (split_fields_clean ":"
                (map seven_bits (Base64.decode (to_string base64))))
    as Hclean.
  set (fields := split ":" _) in *.
  destruct (nth_error fields 0) as [u |] eqn:Hu;
    [| split; [intros | intros _]; discriminate].
  destruct (nth_error fields 1) as [p |] eqn:Hp;
    [| split; [intros | intros _]; discriminate].
  destruct (String.eqb_spec (to_string u)
              (env_or UPDATE_ADMIN_USERNAME "admin")) as [Hu' | _];
    cbn [andb]; [| split; [intros | intros _]; discriminate].
  destruct (String.eqb_spec (to_string p)
              (env_or UPDATE_ADMIN_PASSWORD "updatepassword123"))
    as [Hp' | _]; [| split; [intros | intros _]; discriminate].
  split; [intros; discriminate |].
  intros Hcolon _. rewrite List.Forall_forall in Hclean.
  destruct Hcolon as [H | H].
  - rewrite <- Hu', of_to_string in H.
    exact (Hclean u (nth_error_In _ _ Hu) H).
  - rewrite <- Hp', of_to_string in H.
    exact (Hclean p (nth_error_In _ _ Hp) H).
Qed.

(** X17.  The header that encodes the configured user name and password,
    joined by a colon, is let through, provided neither holds a colon and
    both are seven-bit text; and so is the header that encodes them with a
    further colon and anything after it. *)
Theorem configured_credentials_are_accepted
    (UPDATE_ADMIN_USERNAME UPDATE_ADMIN_PASSWORD : option string)
    (extra : option string) :
  let validUsername := env_or UPDATE_ADMIN_USERNAME "admin" in
  let validPassword := env_or UPDATE_ADMIN_PASSWORD "updatepassword123" in
  ~ In ":"%char (of_string validUsername) ->
  ~ In ":"%char (of_string validPassword) ->
  Forall (fun c => seven_bits c = c) (of_string validUsername) ->
  Forall (fun c => seven_bits c = c) (of_string validPassword) ->
  basicAuth UPDATE_ADMIN_USERNAME UPDATE_ADMIN_PASSWORD
    (Some (basic_header
             (validUsername ++ ":" ++ validPassword
              ++ match extra with
                 | Some more => ":" ++ more
                 | None => EmptyString
                 end)%string))
  = Next.
Proof.
  cbv zeta. intros Hu Hp Hu7 Hp7.
  set (validUsername := env_or UPDATE_ADMIN_USERNAME "admin") in *.
  set (validPassword := env_or UPDATE_ADMIN_PASSWORD "updatepassword123")
    in *.
  set (credentials := (validUsername ++ ":" ++ validPassword ++ _)%string).
  unfold basicAuth, basic_header.
  set (encoded := Base64.encode (of_string credentials)).
  assert (Hheader : of_string ("Basic " ++ Base64.encode_string
                                             (of_string credentials))%string
                    = of_string "Basic" ++ " "%char :: encoded).
  { rewrite of_string_app. unfold Base64.encode_string.
    fold (to_string (Base64.encode (of_string credentials))).
    rewrite of_to_string. reflexivity. }
  replace (String.eqb ("Basic " ++ Base64.encode_string
                                     (of_string credentials))%string
             EmptyString)
    with false by reflexivity.
  unfold startsWith. rewrite Hheader.
  replace (starts_with (of_string "Basic ")
             (of_string "Basic" ++ " "%char :: encoded))
    with true by reflexivity.
  cbn [orb negb].
  rewrite split_clean_app
    by (cbn; intros H; repeat destruct H as [H | H]; discriminate || exact H).
  rewrite (split_clean " " encoded) by apply encode_no_space.
  subst encoded.
  change (to_string (Base64.encode (of_string credentials)))
    with (Base64.encode_string (of_string credentials)).
  rewrite decode_encode.
  assert (Hsplit : exists rest,
             split ":" (map seven_bits (of_string credentials))
             = of_string validUsername :: of_string validPassword :: rest).
  { subst credentials. rewrite !of_string_app, !map_app.
    rewrite (map_fixed _ _ Hu7), (map_fixed _ _ Hp7).
    change (map seven_bits (of_string ":")) with [":"%char].
    cbn [app]. rewrite split_clean_app by exact Hu.
    destruct extra as [more |].
    - rewrite of_string_app, map_app.
      change (map seven_bits (of_string ":")) with [":"%char].
      cbn [app]. rewrite split_clean_app by exact Hp. eauto.
    - change (map seven_bits (of_string EmptyString)) with (@nil ascii).
      rewrite app_nil_r, (split_clean _ _ Hp). eauto. }
  destruct Hsplit as (rest & ->). cbn [nth_error].
  rewrite !to_of_string, !String.eqb_refl. reflexivity.
Qed.

End BasicAuthFacts.

(** ** The legacy service *)

Section ProcessFacts.
Import JsString Legacy.
Local Open Scope string_scope.

Variable validateSyncData : Js.value -> outcome sync_data.
Variable machineMapping : string -> option string.
Variable tableExists : string -> string -> bool.
Variable executeQuery : string -> statement -> SyncService.db_result.

Lemma caught_discipline (message : string) :
  match caught message with
  | Thrown m => m = message /\ startsWith m "TABLE_NOT_EXISTS:" = true
  | Ok r =>
      r = failure message /\ startsWith message "TABLE_NOT_EXISTS:" = false
  end.
Proof.
  unfold caught.
  destruct (startsWith message "TABLE_NOT_EXISTS:") eqn:H; split;
    reflexivity || exact H.
Qed.

(** X18.  [processSyncData] leaves the processing queue as it found it,
    and throws only an error whose message starts with
    [TABLE_NOT_EXISTS:]; every other failure, a failed validation and an
    unknown machine included, comes back as an answer with
    [success: false] and the message.  An answer with [success: true]
    carries a result and no error. *)
Theorem process_sync_data_discipline (processingQueue : gset string)
    (syncData : Js.value) :
  let done :=
    processSyncData validateSyncData machineMapping tableExists executeQuery
      processingQueue syncData in
  fst done = processingQueue
  /\ match snd done with
     | Thrown message => startsWith message "TABLE_NOT_EXISTS:" = true
     | Ok r =>
         if Server.success r
         then Server.error r = None /\ Server.result r <> None
         else Server.result r = None
              /\ exists message,
                   Server.error r = Some message
                   /\ startsWith message "TABLE_NOT_EXISTS:" = false
     end.
Proof.
  cbv zeta. unfold processSyncData.
  destruct (validateSyncData syncData) as [v | message].
  - destruct (decide (SyncId v ∈ processingQueue)) as [Hin | Hout].
    + cbn. split; [reflexivity |]. split; [reflexivity |].
      eexists. split; reflexivity.
    + cbn [fst snd]. split.
      { apply set_eq. intros y.
        rewrite elem_of_difference, elem_of_union, !elem_of_singleton.
        split.
        - intros [[-> | H] Hne]; [congruence | exact H].
        - intros H. split; [right; exact H |].
          intros ->. contradiction. }
      destruct (match getDatabaseByMachine machineMapping (MachineName v)
                with
                | Ok database =>
                    dispatch tableExists executeQuery database v
                | Thrown m => Thrown m
                end) as [result | message].
      * cbn. split; [reflexivity | discriminate].
      * pose proof (caught_discipline message) as H.
        destruct (caught message) as [r | m].
        -- destruct H as [-> H]. cbn. split; [reflexivity |]. eauto.
        -- apply H.
  - cbn [fst snd]. split; [reflexivity |].
    pose proof (caught_discipline message) as H.
    destruct (caught message) as [r | m].
    + destruct H as [-> H]. cbn. split; [reflexivity |]. eauto.
    + apply H.
Qed.

Lemma substring_all (s : string) (n : nat) :
  (String.length s <= n)%nat -> String.substring 0 n s = s.
Proof.
  revert n. induction s as [| c s IH]; intros [| n] H; cbn in *;
    try reflexivity; try lia.
  rewrite IH by lia. reflexivity.
Qed.

Lemma index_colon_cons (c : ascii) (s : string) :
  String.index 0 ":" (String c s)
  = if Ascii.eqb c ":" then Some 0%nat
    else option_map S (String.index 0 ":" s).
Proof.
  cbn [String.index String.prefix].
  destruct (Ascii.ascii_dec ":" c) as [<- | Hc].
  - rewrite Ascii.eqb_refl. destruct s; reflexivity.
  - destruct (Ascii.eqb_spec c ":") as [-> | _]; [congruence |].
    destruct (String.index 0 ":" s); reflexivity.
Qed.

Lemma index_no_colon (s : string) :
  ~ In ":"%char (of_string s) -> String.index 0 ":" s = None.
Proof.
  induction s as [| c s IH]; intros H; [reflexivity |].
  rewrite index_colon_cons.
  destruct (Ascii.eqb_spec c ":") as [-> | _].
  - exfalso. apply H. left. reflexivity.
  - rewrite IH; [reflexivity |]. intros Hin. apply H. right. exact Hin.
Qed.

Lemma index_first_colon (p s : string) :
  ~ In ":"%char (of_string p) ->
  String.index 0 ":" (p ++ String ":" s) = Some (String.length p).
Proof.
  induction p as [| c p IH]; intros H.
  - change (EmptyString ++ String ":" s) with (String ":" s).
    rewrite index_colon_cons. reflexivity.
  - change (String c p ++ String ":" s) with (String c (p ++ String ":" s)).
    rewrite index_colon_cons.
    destruct (Ascii.eqb_spec c ":") as [-> | _].
    + exfalso. apply H. left. reflexivity.
    + rewrite IH; [reflexivity |]. intros Hin. apply H. right. exact Hin.
Qed.

Lemma after_colon_table_name (tableName : string) :
  ~ In ":"%char (of_string tableName) ->
  Server.after_colon ("TABLE_NOT_EXISTS:" ++ tableName) = tableName.
Proof.
  intros H. unfold Server.after_colon.
  change ("TABLE_NOT_EXISTS:" ++ tableName)
    with ("TABLE_NOT_EXISTS" ++ String ":" tableName).
  rewrite index_first_colon
    by (cbn; intros Hin; repeat destruct Hin as [Hin | Hin];
        discriminate || exact Hin).
  change (String.substring (S (String.length "TABLE_NOT_EXISTS"))
            (String.length ("TABLE_NOT_EXISTS" ++ String ":" tableName))
            ("TABLE_NOT_EXISTS" ++ String ":" tableName))
    with (String.substring 0 (17 + String.length tableName) tableName).
  rewrite substring_all by lia.
  rewrite (index_no_colon _ H). reflexivity.
Qed.

Lemma starts_with_own_prefix (p s : chars) :
  starts_with p (p ++ s)%list = true.
Proof.
  induction p as [| c p IH]; cbn; [reflexivity |].
  rewrite Ascii.eqb_refl. exact IH.
Qed.

(** X19.  A legacy [sync_data] for a table that the target store does not
    have is answered with a request for the schema of that table and
    nothing else: for an INSERT, an UPDATE or a DELETE that passes the
    validation, names a known machine and is not already in progress, the
    one event is [request_table_schema] with the table of the request and
    its [SyncId], provided the name of the table holds no colon. *)
Theorem missing_table_asks_for_schema (license : License.env)
    (advanced : Js.value -> statement -> outcome sync_result)
    (processingQueue : gset string) (sock : Server.socket)
    (data : Js.value) (v : sync_data) (database : string) :
  Server.nullish data = false ->
  Js.truthy (Js.prop data "appId") && Js.truthy (Js.prop data "storeId")
  = false ->
  validateSyncData data = Ok v ->
  SyncId v ∉ processingQueue ->
  machineMapping (MachineName v) = Some database ->
  In (Operation v) ["INSERT"; "UPDATE"; "DELETE"] ->
  tableExists database (TableName v) = false ->
  ~ In ":"%char (of_string (TableName v)) ->
  Server.sync_data license advanced
    (fun syncData =>
       snd (processSyncData validateSyncData machineMapping tableExists
              executeQuery processingQueue syncData))
    sock data
  = (sock,
     [Server.Emit
        (Server.request_table_schema (TableName v)
           (Js.prop data "SyncId"))]).
Proof.
  intros Hdata Hlegacy Hvalid Hqueue Hmachine Hop Hmissing Hcolon.
  unfold Server.sync_data. rewrite Hdata, Hlegacy.
  unfold processSyncData. rewrite Hvalid.
  destruct (decide (SyncId v ∈ processingQueue)) as [Hin | _];
    [contradiction |].
  cbn [snd]. unfold getDatabaseByMachine. rewrite Hmachine.
  assert (Hthrown : dispatch tableExists executeQuery database v
                    = Thrown ("TABLE_NOT_EXISTS:" ++ TableName v)).
  { unfold dispatch, SyncService.handleInsert, SyncService.handleUpdate,
      SyncService.handleDelete.
    rewrite Hmissing. cbn [negb].
    destruct Hop as [<- | [<- | [<- | []]]]; reflexivity. }
  rewrite Hthrown. unfold caught.
  assert (Hstart : startsWith ("TABLE_NOT_EXISTS:" ++ TableName v)
                     "TABLE_NOT_EXISTS:" = true).
  { unfold startsWith. rewrite of_string_app.
    apply starts_with_own_prefix. }
  rewrite Hstart, Hstart, after_colon_table_name by exact Hcolon.
  reflexivity.
Qed.

End ProcessFacts.

(** ** What a confined pattern takes *)

Section ConfinedFacts.
Import JsString Regex Chars.

Variable P : ascii -> Prop.

Lemma star_loop_confined {R : Type} (greedy : bool)
    (step : chars -> captures -> cont (R := R) -> option R) :
  (forall s cs k x, step s cs k = Some x ->
     exists pre rest cs', s = pre ++ rest /\ Forall P pre
                          /\ k rest cs' = Some x) ->
  forall n s cs (k : cont (R := R)) x,
    star_loop greedy step k n s cs = Some x ->
    exists pre rest cs', s = pre ++ rest /\ Forall P pre
                         /\ k rest cs' = Some x.
Proof.
  intros Hstep. induction n as [| n IH]; intros s cs k x H;
    cbn [star_loop] in H.
  - exists [], s, cs. auto.
  - assert (Hagain :
      step s cs (fun s' cs' =>
                   if (length s' <? length s)%nat
                   then star_loop greedy step k n s' cs' else None)
      = Some x ->
      exists pre rest cs', s = pre ++ rest /\ Forall P pre
                           /\ k rest cs' = Some x).
    { intros Ha. apply Hstep in Ha.
      destruct Ha as (pre & rest & cs' & -> & Hpre & Hk).
      destruct (length rest <? length (pre ++ rest))%nat; [| discriminate].
      apply IH in Hk.
      destruct Hk as (pre' & rest' & cs'' & -> & Hpre' & Hk).
      exists (pre ++ pre'), rest', cs''.
      rewrite <- app_assoc. split; [reflexivity |].
      split; [apply Forall_app; auto | exact Hk]. }
    destruct greedy.
    + destruct (step s cs _) as [y |] eqn:Ha.
      * injection H as ->. apply Hagain. reflexivity.
      * exists [], s, cs. auto.
    + destruct (k s cs) as [y |] eqn:Hk.
      * injection H as ->. exists [], s, cs. auto.
      * apply Hagain. exact H.
Qed.

(** Whatever a confined pattern takes from the head of a text is made of
    characters that satisfy [P]. *)
Lemma run_confined (r : re) :
  confined P r ->
  forall (R : Type) s cs (k : cont (R := R)) x,
    run false r s cs k = Some x ->
    exists pre rest cs', s = pre ++ rest /\ Forall P pre
                         /\ k rest cs' = Some x.
Proof.
  induction r as [| c | negated items | a IHa b IHb | a IHa b IHb
                  | greedy a IHa | i a IHa | i |];
    intros Hr R s cs k x H; cbn [run confined] in *.
  - exists [], s, cs. auto.
  - destruct s as [| d s']; [discriminate |].
    destruct (Ascii.eqb_spec c d) as [<- | _]; [| discriminate].
    exists [c], s', cs. auto.
  - destruct s as [| d s']; [discriminate |].
    destruct (class_matches false negated items d) eqn:Hd; [| discriminate].
    exists [d], s', cs. auto.
  - destruct Hr as [Ha Hb].
    apply (IHa Ha) in H. destruct H as (pre & rest & cs' & -> & Hpre & H).
    apply (IHb Hb) in H. destruct H as (pre' & rest' & cs'' & -> & Hpre' & H).
    exists (pre ++ pre'), rest', cs''. rewrite <- app_assoc.
    split; [reflexivity |]. split; [apply Forall_app; auto | exact H].
  - destruct Hr as [Ha Hb].
    destruct (run false a s cs k) as [y |] eqn:Hy.
    + injection H as ->. exact (IHa Ha R s cs k x Hy).
    + exact (IHb Hb R s cs k x H).
  - eapply star_loop_confined; [| exact H].
    intros s0 cs0 k0 x0. apply (IHa Hr).
  - apply (IHa Hr) in H. destruct H as (pre & rest & cs' & -> & Hpre & H).
    eauto 7.
  - destruct Hr.
  - destruct s as [| d s']; [| discriminate].
    exists [], [], cs. auto.
Qed.

End ConfinedFacts.

(** ** The default of a column *)

Section DefaultFacts.
Import JsString Regex Chars Schema.
Local Open Scope string_scope.

Lemma digit_is_numeric (d : ascii) :
  class_matches false false [CDigit] d = true -> numeric d = true.
Proof.
  unfold class_matches, numeric. cbn. rewrite orb_false_r.
  intros ->. reflexivity.
Qed.

Lemma plain_number_chars (valueStr : string) :
  test re_number valueStr = true ->
  Forall (fun c => numeric c = true) (of_string valueStr).
Proof.
  unfold test, match_here.
  destruct (run false re_number (of_string valueStr) []
              (fun s' cs => Some (cs, s'))) as [x |] eqn:H;
    [intros _ | discriminate].
  assert (Hrun : run false
                   (Seq (Alt (Lit "-") Eps)
                      (Seq (Plus Digit)
                         (Alt (Seq (Lit ".") (Plus Digit)) Eps)))
                   (of_string valueStr) []
                   (fun s' cs' =>
                      run false (Seq Eos Eps) s' cs'
                        (fun s'' cs'' => Some (cs'', s''))) = Some x).
  { exact H. }
  clear H.
  apply (run_confined (fun c => numeric c = true)) in Hrun.
  - destruct Hrun as (pre & rest & cs' & -> & Hpre & Heos).
    destruct rest as [| d rest]; [| discriminate].
    rewrite app_nil_r. exact Hpre.
  - cbn. repeat split; try reflexivity; apply digit_is_numeric.
Qed.

Lemma quote_chars (valueStr : string) :
  of_string (quote valueStr)
  = ("'"%char
     :: substitute (Ascii.eqb "'") ["'"%char; "'"%char] (of_string valueStr)
     ++ ["'"%char])%list.
Proof.
  unfold quote.
  rewrite (replace_all_single (Lit "'") (Ascii.eqb "'"))
    by (intros; reflexivity).
  change (of_string ("'" ++ ?x)) with ("'"%char :: of_string x).
  rewrite of_string_app, of_to_string. reflexivity.
Qed.

(** X20.  A default value enters the definition of a column in one of four
    shapes only: [CURRENT_TIMESTAMP]; [0] or [1]; the text of the value
    itself, and then it is made of digits, minus signs and points; or the
    text between two quotes with every quote inside doubled. *)
Theorem default_value_is_closed (defaultValue : Js.value)
    (dataType : string) :
  match formatDefaultValue defaultValue dataType with
  | None => True
  | Some text =>
      text = "CURRENT_TIMESTAMP" \/ text = "0" \/ text = "1"
      \/ (text = Js.text defaultValue
          /\ Forall (fun c => numeric c = true) (of_string text))
      \/ of_string text
         = ("'"%char
            :: substitute (Ascii.eqb "'") ["'"%char; "'"%char]
                 (of_string (Js.text defaultValue))
            ++ ["'"%char])%list
  end.
Proof.
  unfold formatDefaultValue.
  destruct defaultValue as [| | b | z | s | o]; try exact I;
    (destruct (_ || _); [auto |]);
    (destruct (_ || _); [exact I |]);
    (destruct (_ || _); [do 4 right; apply quote_chars |]);
    (destruct (_ || _);
     [destruct (test re_number _) eqn:Hn; [| exact I];
      do 3 right; left; split;
      [reflexivity | apply plain_number_chars; exact Hn] |]);
    (destruct (String.eqb _ "bit"); [| exact I]);
    destruct (_ || _); auto.
Qed.

End DefaultFacts.

(** ** Sessions and licenses *)

Section SessionLicenseFacts.
Import Effect Maintenance.
Local Open Scope string_scope.

Variable W : Type.
Variable db : store W.

(** X21.  A session outlives its license.  A client that names a service
    type other than [advanced_online_report] is identified with the store
    and the application it names, without a look at the license; and the
    maintenance handlers then find the database of that pair as long as the
    row of the store exists, whatever its expiry date and whatever the
    time: [verify_and_sync_table] goes on to ask the store for the
    table. *)
Theorem session_outlives_license (license : License.env) (now : Z)
    (sid aid stype request : Js.value)
    (row : License.store_row) (rows : list License.store_row) (w : W) :
  License.pool_ready license = true ->
  License.select_store license sid aid = License.Rows (row :: rows) ->
  Js.truthy sid = true ->
  Js.truthy aid = true ->
  Server.is_string stype "advanced_online_report" = false ->
  Server.nullish request = false ->
  let hello :=
    Js.Obj [("storeId", sid); ("appId", aid); ("serviceType", stype)] in
  let identified :=
    Server.identify (answer := unit) license now Server.fresh hello in
  snd identified = [Server.Emit (Server.identified None)]
  /\ exists more,
       calls (log (fst (run (verify_and_sync_table W db license
                               (fst identified) request) w)))
       = TableExists aid (Js.prop request "tableName") :: more.
Proof.
  intros Hpool Hrow Hsid Haid Htype Hrequest. cbv zeta.
  unfold Server.identify. cbn [Server.nullish].
  change (Js.prop (Js.Obj _) "storeId") with sid.
  change (Js.prop (Js.Obj _) "appId") with aid.
  change (Js.prop (Js.Obj _) "serviceType") with stype.
  rewrite Htype. cbn [fst snd]. split; [reflexivity |].
  unfold verify_and_sync_table, run, database_of, Server.unidentified,
    License.getDatabaseByStoreAndApp.
  cbn [Server.storeId Server.appId].
  rewrite Hrequest, Hsid, Haid, Hpool, Hrow. cbn [negb orb].
  rewrite Haid.
  unfold try_catch, bind, tableExists, perform. cbn [world log].
  destruct (db_tableExists db w aid (Js.prop request "tableName"))
    as [w1 [[|] | m]].
  - unfold count_rows, try_catch, bind, executeQuery, perform.
    cbn [world log].
    match goal with
    | |- context [db_executeQuery db w1 ?d ?q] =>
        destruct (db_executeQuery db w1 d q) as [w2 [result | m]]
    end.
    + destruct (Effect.rows result) as [| r more]; [cbn; eauto |].
      cbn beta iota. destruct (is_zero (Js.get r "count")); cbn; eauto.
    + cbn. eauto.
  - cbn. eauto.
  - cbn. eauto.
Qed.

End SessionLicenseFacts.

(** ** Statements that pass through the DDL handler *)

Section PassThroughFacts.
Import JsString Regex Ddl.
Local Open Scope string_scope.

Lemma search_needs_head (ci : bool) (c : ascii) (b : re) (s : chars) :
  (forall d, In d s ->
     (if ci then ascii_eqb_ci c d else Ascii.eqb c d) = false) ->
  search ci (Seq (Lit c) b) s = None.
Proof.
  induction s as [| d s IH]; intros H; cbn [search]; unfold match_here;
    cbn [run].
  - reflexivity.
  - rewrite (H d (or_introl eq_refl)).
    rewrite IH; [reflexivity |]. intros d' Hd'. apply H. right. exact Hd'.
Qed.

Lemma replace_all_untouched (ci : bool) (r : re) (tpl : list piece)
    (s : string) :
  search ci r (of_string s) = None -> replace_all ci r tpl s = s.
Proof.
  intros H. unfold replace_all. cbn [replace_from]. rewrite H.
  apply to_of_string.
Qed.

Lemma bracket_only_matches_bracket (d : ascii) :
  ascii_eqb_ci "[" d = true -> d = "["%char.
Proof.
  destruct d as [b0 b1 b2 b3 b4 b5 b6 b7].
  destruct b0, b1, b2, b3, b4, b5, b6, b7; cbn; intros H;
    try discriminate; reflexivity.
Qed.

Lemma basic_conversion_without_brackets (sqlCommand : string) :
  ~ In "["%char (of_string sqlCommand) ->
  basic_conversion sqlCommand = sqlCommand.
Proof.
  intros H. unfold basic_conversion.
  assert (Hdbo : replace_all true re_dbo_prefix [] sqlCommand = sqlCommand).
  { apply replace_all_untouched.
    apply (search_needs_head true "[" _ (of_string sqlCommand)).
    intros d Hd. destruct (ascii_eqb_ci "[" d) eqn:Hci; [| reflexivity].
    apply bracket_only_matches_bracket in Hci. subst d. contradiction. }
  rewrite Hdbo. apply replace_all_untouched.
  apply (search_needs_head false "[" _ (of_string sqlCommand)).
  intros d Hd. destruct (Ascii.eqb_spec "[" d) as [<- | _];
    [contradiction | reflexivity].
Qed.

Context {answer : Type}.
Variable license : License.env.
Variable executeQuery : Js.value -> statement -> outcome answer.

(** X22.  [sync_ddl_operation] hands a statement to the store as the client
    wrote it: when the operation is not [DDL_ALTER_TABLE] and the command
    is a non-empty text without an opening bracket, the statement executed
    on the database of the store and application that the payload names is
    the command itself, and the answer reports what the store said. *)
Theorem ddl_statement_passes_through (sock : Server.socket)
    (data : Js.value) (sqlCommand : string) (database : Js.value) :
  Server.nullish data = false ->
  License.getDatabaseByStoreAndApp license (Js.prop data "storeId")
    (Js.prop data "appId") = Some database ->
  Js.truthy database = true ->
  Js.prop data "sqlCommand" = Js.Str sqlCommand ->
  sqlCommand <> EmptyString ->
  ~ In "["%char (of_string sqlCommand) ->
  Js.text (Js.prop data "operation") <> "DDL_ALTER_TABLE" ->
  Server.sync_ddl_operation license executeQuery sock data
  = (sock,
     [Server.Emit
        match executeQuery database {| sql := sqlCommand; params := [] |}
        with
        | Ok _ => Server.ddl_sync_success (Js.prop data "syncId") false
        | Thrown m =>
            Server.ddl_sync_error (Js.prop data "syncId")
              ("DDL execution failed: " ++ m)
        end]).
Proof.
  intros Hdata Hdb Htruthy Hcommand Hnonempty Hbracket Hoperation.
  unfold Server.sync_ddl_operation.
  rewrite Hdata, Hdb, Htruthy, Hcommand. cbn [negb].
  unfold convertSqlServerDDLToMySQL.
  destruct (String.eqb_spec sqlCommand EmptyString) as [-> | _];
    [congruence |].
  destruct (String.eqb_spec (Js.text (Js.prop data "operation"))
              "DDL_ALTER_TABLE") as [Heq | _]; [congruence |].
  assert (Hsame : (if String.eqb (Js.text (Js.prop data "operation"))
                        "DDL_DROP_TABLE"
                   then Some (basic_conversion sqlCommand)
                   else Some (basic_conversion sqlCommand))
                  = Some sqlCommand).
  { rewrite (basic_conversion_without_brackets _ Hbracket).
    destruct (String.eqb _ _); reflexivity. }
  rewrite Hsame.
  destruct (String.eqb_spec sqlCommand EmptyString) as [-> | _];
    [congruence |].
  destruct (executeQuery database _); reflexivity.
Qed.

End PassThroughFacts.

(** The credentials that the route falls back on, followed by a third
    field. *)
Lemma configured_credentials_are_accepted_witness :
  UpdateRoutes.basicAuth None None
    (Some (UpdateRoutes.basic_header "admin:updatepassword123:anything"))
  = UpdateRoutes.Next.
Proof.
  apply (configured_credentials_are_accepted None None (Some "anything")).
  - cbn. intros H. repeat destruct H as [H | H]; discriminate || exact H.
  - cbn. intros H. repeat destruct H as [H | H]; discriminate || exact H.
  - repeat constructor.
  - repeat constructor.
Defined.

(** An INSERT into Sales on a store that has no such table. *)
Lemma missing_table_asks_for_schema_witness :
  let v :=
    {| Legacy.MachineName := "POS1"; Legacy.TableName := "Sales";
       Legacy.Operation := "INSERT"; Legacy.Data := Sample.sale;
       Legacy.SyncId := "s1" |} in
  let data := Js.Obj [("SyncId", Js.Str "s1")] in
  Server.sync_data Sample.directory
    (fun _ _ => Ok Legacy.SchemaChangeDisabled)
    (fun syncData =>
       snd (Legacy.processSyncData (fun _ => Ok v) (fun _ => Some "pos1")
              (fun _ _ => false) (fun _ _ => SyncService.Affected 1)
              ∅ syncData))
    Server.fresh data
  = (Server.fresh,
     [Server.Emit (Server.request_table_schema "Sales" (Js.Str "s1"))]).
Proof.
  intros v data.
  apply (missing_table_asks_for_schema (fun _ => Ok v) (fun _ => Some "pos1")
           (fun _ _ => false) (fun _ _ => SyncService.Affected 1)
           Sample.directory (fun _ _ => Ok Legacy.SchemaChangeDisabled)
           ∅ Server.fresh data v "pos1").
  - reflexivity.
  - reflexivity.
  - reflexivity.
  - apply not_elem_of_empty.
  - reflexivity.
  - left. reflexivity.
  - reflexivity.
  - cbn. intros H. repeat destruct H as [H | H]; discriminate || exact H.
Defined.

(** The store of [Sample.directory], whose license ended with 2019, in
    September 2020. *)
Lemma session_outlives_license_witness :
  let now := 1600000000000%Z in
  let hello :=
    Js.Obj [("storeId", Js.Str "239"); ("appId", Js.Str "A");
            ("serviceType", Js.Str "pos")] in
  let request := Js.Obj [("tableName", Js.Str "Sales")] in
  let identified :=
    Server.identify (answer := unit) Sample.directory now Server.fresh
      hello in
  License.isExpired
    (License.validateAdvancedReportLicense Sample.directory now
       (Js.Str "239") (Js.Str "A")) = true
  /\ snd identified = [Server.Emit (Server.identified None)]
  /\ exists more,
       Effect.calls
         (Effect.log
            (fst (Effect.run
                    (Maintenance.verify_and_sync_table unit
                       Fixture.empty_store Sample.directory
                       (fst identified) request) tt)))
       = Effect.TableExists (Js.Str "A") (Js.Str "Sales") :: more.
Proof.
  intros now hello request identified.
  split; [reflexivity |].
  exact (session_outlives_license unit Fixture.empty_store Sample.directory
           now (Js.Str "239") (Js.Str "A") (Js.Str "pos") request
           Sample.store [] tt
           eq_refl eq_refl eq_refl eq_refl eq_refl eq_refl).
Defined.

(** A socket that never identified itself drops a table of the store it
    names. *)
Lemma ddl_statement_passes_through_witness :
  let data :=
    Js.Obj [("storeId", Js.Str "239"); ("appId", Js.Str "A");
            ("sqlCommand", Js.Str "DROP TABLE Sales");
            ("operation", Js.Str "DDL_DROP_TABLE");
            ("syncId", Js.Str "d1")] in
  Server.sync_ddl_operation Sample.directory Sample.accepting Server.fresh
    data
  = (Server.fresh,
     [Server.Emit (Server.ddl_sync_success (Js.Str "d1") false)]).
Proof.
  intros data.
  apply (ddl_statement_passes_through Sample.directory Sample.accepting
           Server.fresh data "DROP TABLE Sales" (Js.Str "A")).
  - reflexivity.
  - reflexivity.
  - reflexivity.
  - reflexivity.
  - discriminate.
  - cbn. intros H. repeat destruct H as [H | H]; discriminate || exact H.
  - discriminate.
Defined.
